(** * Solcial: the forum client's transaction wrappers and guards

    A shallow embedding of the non-UI logic of [src/Solcial/src/Social.jsx]:
    the rate-limit retry helper [withRetry], the submission wrapper
    [sendAndConfirmWithRetry], the "ignore the error and refetch" wrapper
    [executeTransactionSilently], the guarded forum actions and the
    bridge-and-post flow.

    The JavaScript is asynchronous but sequential: every call is awaited
    before the next statement runs.  An [await]ed call to the outside (RPC
    node, wallet, bridge API, client library) is an operation [Op] answered
    by an environment [Env]; the answer may depend on everything that
    happened before, which is kept as a chronological [trace] of events in
    the store.  A JavaScript exception is the [Throw] outcome of the monad
    [M]; what is thrown is an [Error] object, as the client libraries and the
    source itself throw.  Strings are sequences of code units below 256.
    Console output is not modelled. *)

From Stdlib Require Import String Ascii List NArith ZArith QArith Lia Bool.
From Stdlib Require Import DecimalString Sorted.
From stdpp Require Import gmap strings.
Import ListNotations.
Local Open Scope string_scope.
Local Open Scope list_scope.

(** ** JavaScript string primitives used by the source *)

Module Js.

(** Does [s] start with [p]? *)
Fixpoint startsWith (s p : string) {struct p} : bool :=
  match p with
  | EmptyString => true
  | String a p' =>
      match s with
      | EmptyString => false
      | String b s' => Ascii.eqb a b && startsWith s' p'
      end
  end.

(** [hay.includes(needle)] *)
Fixpoint includes (hay needle : string) : bool :=
  if startsWith hay needle then true
  else match hay with
       | EmptyString => false
       | String _ rest => includes rest needle
       end.

(** WhiteSpace and LineTerminator code units below 256: TAB, LF, VT, FF, CR,
    SP and NBSP. *)
Definition isSpace (c : ascii) : bool :=
  let n := nat_of_ascii c in
  (Nat.leb 9 n && Nat.leb n 13) || Nat.eqb n 32 || Nat.eqb n 160.

Fixpoint trimStart (s : string) : string :=
  match s with
  | EmptyString => EmptyString
  | String c rest => if isSpace c then trimStart rest else s
  end.

Fixpoint trimEnd (s : string) : string :=
  match s with
  | EmptyString => EmptyString
  | String c rest =>
      match trimEnd rest with
      | EmptyString => if isSpace c then EmptyString else String c EmptyString
      | kept => String c kept
      end
  end.

(** [s.trim()] *)
Definition trim (s : string) : string := trimEnd (trimStart s).

(** Truthiness of a string value: only the empty string is falsy. *)
Definition truthy (s : string) : bool :=
  match s with EmptyString => false | _ => true end.

(** [s.toLowerCase()] on code units below 256: the ASCII capitals and the
    Latin-1 capitals (all of C0..DE but the multiplication sign D7). *)
Definition lowerChar (c : ascii) : ascii :=
  let n := nat_of_ascii c in
  if (Nat.leb 65 n && Nat.leb n 90)
     || (Nat.leb 192 n && Nat.leb n 222 && negb (Nat.eqb n 215))
  then ascii_of_nat (n + 32) else c.

Fixpoint toLowerCase (s : string) : string :=
  match s with
  | EmptyString => EmptyString
  | String c rest => String (lowerChar c) (toLowerCase rest)
  end.

(** [s.slice(0, n)] for a non-negative [n]. *)
Definition slice0 (n : nat) (s : string) : string := String.substring 0 n s.

End Js.

(** ** Errors *)

(** A thrown value: an [Error] object with its [name] and [message]; the
    client library's [SendTransactionError] also carries a [getLogs] method. *)
Record Error := mkError {
  err_name : string;
  err_message : string;
  err_hasGetLogs : bool
}.

(** [new Error(msg)] *)
Definition newError (msg : string) : Error := mkError "Error" msg false.

(** The [TypeError] raised by the engine on a property access or a
    destructuring of [undefined] or [null]. *)
Definition typeError (msg : string) : Error := mkError "TypeError" msg false.

(** [err.message.includes(s)] *)
Definition msgHas (e : Error) (s : string) : bool :=
  Js.includes (err_message e) s.

(** ** Data returned by the outside *)

(** The value [provider.sendAndConfirm] resolves to: a string in the client
    library's type, but the source tests [typeof signature] at run time, so a
    non-string value is kept with its truthiness. *)
Inductive Signature :=
| SigString (s : string)
| SigOther (typeName : string) (isTruthy : bool).

Definition sigTruthy (s : Signature) : bool :=
  match s with
  | SigString s => Js.truthy s
  | SigOther _ b => b
  end.

(** An entry of [transaction.signatures]: a string, or a pair whose
    [signature] buffer is [null] until the transaction is signed. *)
Inductive SigEntry :=
| EntryString (s : string)
| EntryPair (signature : option (list Byte.byte)).

(** [simulationResult.value]: [err] (its JSON text, [None] when falsy) and
    the JSON text of [logs]. *)
Record SimResult := mkSim {
  sim_err : option string;
  sim_logs : string
}.

(** What [getTransaction] resolves to when it is not [null]: the JSON text of
    [meta.err], [None] when [meta] is missing or [err] is falsy. *)
Record TxStatus := mkStatus { meta_err : option string }.

(** Raw on-chain accounts as the generated client decodes them; integers are
    big numbers ([BN]). *)
Record ForumAccount := mkForumAccount {
  fa_admin : string;
  fa_postCount : Z;
  fa_replyCount : Z;
  fa_reportCount : Z;
  fa_version : Z
}.

Record PostAccount := mkPostAccount {
  pa_publicKey : string;
  pa_author : string;
  pa_content : string;
  pa_rating : Z;
  pa_timestamp : Z;
  pa_id : Z;
  pa_isReported : bool;
  pa_reportCount : Z
}.

Record ReplyAccount := mkReplyAccount {
  ra_publicKey : string;
  ra_author : string;
  ra_content : string;
  ra_rating : Z;
  ra_timestamp : Z;
  ra_postId : Z;
  ra_id : Z;
  ra_isReported : bool;
  ra_reportCount : Z
}.

(** A [postReport] or [replyReport] account; [rp_target] is its [postId] or
    [replyId]. *)
Record ReportAccount := mkReportAccount {
  rp_publicKey : string;
  rp_reporter : string;
  rp_target : Z;
  rp_reason : string;
  rp_timestamp : Z;
  rp_id : Z;
  rp_isResolved : bool;
  rp_resolutionTimestamp : Z;
  rp_adminAction : string
}.

(** The component's view of the same data, after [toBase58] and [toNumber]. *)
Record Forum := mkForum {
  f_admin : string;
  f_postCount : Z;
  f_replyCount : Z;
  f_reportCount : Z;
  f_version : Z
}.

Record Post := mkPost {
  p_id : string;
  p_author : string;
  p_content : string;
  p_rating : Z;
  p_timestamp : Z;
  p_postId : Z;
  p_category : string;
  p_isReported : bool;
  p_reportCount : Z
}.

Record Reply := mkReply {
  r_id : string;
  r_author : string;
  r_content : string;
  r_rating : Z;
  r_timestamp : Z;
  r_postId : Z;
  r_replyId : Z;
  r_isReported : bool;
  r_reportCount : Z
}.

Record Report := mkReport {
  rep_id : string;
  rep_reporter : string;
  rep_target : Z;
  rep_reason : string;
  rep_timestamp : Z;
  rep_reportId : Z;
  rep_isResolved : bool;
  rep_resolutionTimestamp : Z;
  rep_adminAction : string
}.

(** The answer of a bridge API [fetch] after [.json()]. *)
Record BridgeTx := mkBridgeTx {
  btx_to : string;
  btx_data : string;
  btx_value : option string
}.

Record HttpResponse (Body : Type) := mkResponse {
  resp_ok : bool;
  resp_status : string;
  resp_text : string;
  resp_json : Error + Body
}.
Arguments mkResponse {Body}.
Arguments resp_ok {Body}.
Arguments resp_status {Body}.
Arguments resp_text {Body}.
Arguments resp_json {Body}.

(** ** Operations on the outside *)

(** One constructor per awaited call.  [Serialize] is
    [transaction.serialize(...)]; [GetLogs] is [err.getLogs(connection)];
    [Instruction method arg] is [program.methods[method](arg).accounts(...)
    .instruction()]; [PrepareCreateTx] stands for the local computations of
    lines 3186-3218 (amounts, [ethers.parseUnits], the request URL), which
    can throw; [FetchCreateTx], [FetchOrderId] and [FetchOrderStatus] are the
    [fetch] calls of the bridge API, whose [json] field is what [.json()]
    and the property read that follows it give or throw. *)
Inductive Op :=
(* Solana RPC endpoint *)
| GetLatestBlockhash
| SimulateTransaction
| SendAndConfirm
| GetTransaction (signature : string)
| GetBalance (account : string)
| GetAccountInfo (account : string)
| GetVersion
| FetchForum
| PostAll
| ReplyAll
| PostReportAll
| ReplyReportAll
(* client library, local *)
| Serialize
| GetLogs
| FindProgramAddress (seed : string) (index : option Z)
| GetAssociatedTokenAddress (owner : string)
| NewPublicKey (base58 : string)
| Instruction (method : string) (arg : option string)
(* bridge API and EVM wallet *)
| PrepareCreateTx
| FetchCreateTx
| EvmGetSigner
| EvmGetFeeData
| EvmSendTransaction
| EvmWait
| FetchOrderId (txHash : string)
| FetchOrderStatus (orderId : string).

(** The type of a successful answer. *)
Definition ans (op : Op) : Type :=
  match op with
  | GetLatestBlockhash => string
  | SimulateTransaction => SimResult
  | SendAndConfirm => Signature
  | GetTransaction _ => option TxStatus
  | GetBalance _ => Z
  | GetAccountInfo _ => bool
  | GetVersion => option string
  | FetchForum => ForumAccount
  | PostAll => list PostAccount
  | ReplyAll => list ReplyAccount
  | PostReportAll => list ReportAccount
  | ReplyReportAll => list ReportAccount
  | Serialize => string
  | GetLogs => list string
  | FindProgramAddress _ _ => string
  | GetAssociatedTokenAddress _ => string
  | NewPublicKey _ => string
  | Instruction _ _ => unit
  | PrepareCreateTx => string
  | FetchCreateTx => HttpResponse BridgeTx
  | EvmGetSigner => unit
  | EvmGetFeeData => string
  | EvmSendTransaction => string
  | EvmWait => Z
  | FetchOrderId _ => HttpResponse (option string)
  | FetchOrderStatus _ => HttpResponse (option string)
  end.

(** ** Events and the store *)

(** What a run leaves behind, in order: the calls with their answers, the
    timers ([Sleep ms None] waits [ms] milliseconds, [Sleep ms (Some r)]
    waits [ms] plus the jitter of the random sample [r]), and the calls of
    the component's state setters ([SetState name] for those whose value
    plays no part here). *)
Inductive Event :=
| Call (op : Op) (answer : Error + ans op)
| Sleep (ms : N) (jitter : option N)
| SetLoading (b : bool)
| SetError (e : option string)
| SetForum (f : option Forum)
| SetPosts (ps : list Post)
| SetReplies (rs : list Reply)
| SetPostReports (rs : list Report)
| SetReplyReports (rs : list Report)
| SetState (name : string).

(** The outside: its answer to an operation given the history so far, what
    a call that receives the transaction object (serialising, simulating or
    signing it) leaves in [transaction.signatures], and the sample
    [Math.random()] draws (in units of 2^-53). *)
Record Env := mkEnv {
  answer : forall op : Op, list Event -> Error + ans op;
  resign : Op -> list Event -> list SigEntry -> list SigEntry;
  random : list Event -> N
}.

(** The store: the trace, the [signatures] field of the transaction object
    at hand, the local variable [finalSignature] of
    [sendAndConfirmWithRetry] (assigned in its [try], read in its [catch]),
    and the component's [loading] and [error] after the setters called so
    far. *)
Record World := mkWorld {
  trace : list Event;
  tx_signatures : list SigEntry;
  finalSignature : option Signature;
  ui_loading : bool;
  ui_error : option string
}.

Definition emit (e : Event) (w : World) : World :=
  mkWorld (trace w ++ [e]) (tx_signatures w) (finalSignature w)
          (ui_loading w) (ui_error w).

(** ** The monad of awaited computations *)

Inductive Outcome (A : Type) :=
| Ret (a : A)
| Throw (e : Error).
Arguments Ret {A}.
Arguments Throw {A}.

Definition M (A : Type) : Type := World -> Outcome A * World.

Definition ret {A} (a : A) : M A := fun w => (Ret a, w).

Definition throw {A} (e : Error) : M A := fun w => (Throw e, w).

Definition bind {A B} (m : M A) (k : A -> M B) : M B :=
  fun w =>
    match m w with
    | (Ret a, w1) => k a w1
    | (Throw e, w1) => (Throw e, w1)
    end.

(** [try { m } catch (err) { handler err }] *)
Definition tryCatch {A} (m : M A) (handler : Error -> M A) : M A :=
  fun w =>
    match m w with
    | (Ret a, w1) => (Ret a, w1)
    | (Throw e, w1) => handler e w1
    end.

(** [try { m } finally { cleanup }] where [cleanup] does not throw. *)
Definition tryFinally {A} (m : M A) (cleanup : M unit) : M A :=
  fun w =>
    match m w with
    | (r, w1) => (r, snd (cleanup w1))
    end.

Declare Scope js_scope.
Delimit Scope js_scope with js.
Notation "'let!' x ':=' m 'in' k" := (bind m (fun x => k))
  (at level 10, x name, m at level 100, k at level 200) : js_scope.
Notation "m ';;;' k" := (bind m (fun _ => k))
  (at level 100, k at level 200, right associativity) : js_scope.
Local Open Scope js_scope.

Definition log (e : Event) : M unit := fun w => (Ret tt, emit e w).

(** Does the operation receive the transaction object? *)
Definition touchesTransaction (op : Op) : bool :=
  match op with
  | Serialize | SimulateTransaction | SendAndConfirm => true
  | _ => false
  end.

Definition outcomeOf {A} (r : Error + A) : Outcome A :=
  match r with
  | inl e => Throw e
  | inr a => Ret a
  end.

Section Program.

Variable env : Env.

(** External library functions the source formats messages with. *)
Variable bs58_encode : list Byte.byte -> string.
Variable JSON_stringify_logs : list string -> string.
Variable numberToString : Q -> string.

(** [await op(...)]: the environment answers from the history; the call and
    its answer are appended to the trace. *)
Definition call (op : Op) : M (ans op) :=
  fun w =>
    let r := answer env op (trace w) in
    let sigs := if touchesTransaction op
                then resign env op (trace w) (tx_signatures w)
                else tx_signatures w in
    (outcomeOf r,
     mkWorld (trace w ++ [Call op r]) sigs (finalSignature w)
             (ui_loading w) (ui_error w)).

(** [await new Promise(resolve => setTimeout(resolve, delay))] *)
Definition sleep (ms : N) (jitter : option N) : M unit := log (Sleep ms jitter).

Definition setLoading (b : bool) : M unit :=
  fun w => (Ret tt, mkWorld (trace w ++ [SetLoading b]) (tx_signatures w)
                            (finalSignature w) b (ui_error w)).

Definition setError (e : option string) : M unit :=
  fun w => (Ret tt, mkWorld (trace w ++ [SetError e]) (tx_signatures w)
                            (finalSignature w) (ui_loading w) e).

Definition setFinalSignature (s : option Signature) : M unit :=
  fun w => (Ret tt, mkWorld (trace w) (tx_signatures w) s
                            (ui_loading w) (ui_error w)).

Definition getFinalSignature : M (option Signature) :=
  fun w => (Ret (finalSignature w), w).

(** [transaction.signatures = sigs] *)
Definition setSignatures (sigs : list SigEntry) : M unit :=
  fun w => (Ret tt, mkWorld (trace w) sigs (finalSignature w)
                            (ui_loading w) (ui_error w)).

Definition getSignatures : M (list SigEntry) :=
  fun w => (Ret (tx_signatures w), w).

(** ** withRetry (Social.jsx 66-81) *)

Definition rateLimited (e : Error) : bool :=
  msgHas e "429" || msgHas e "Too Many Requests".

Definition maxRetriesError : Error :=
  newError "Max retries reached due to rate limiting".

(** [baseDelay * 2 ** (attempt - 1)] *)
Definition backoff (baseDelay : N) (attempt : nat) : N :=
  (baseDelay * 2 ^ N.of_nat (attempt - 1))%N.

(** [baseDelay * 2 ** (attempt - 1) + Math.random() * 100], then the timer.
    The random sample is recorded with the delay, not added to it. *)
Definition backoffSleep (baseDelay : N) (attempt : nat) : M unit :=
  fun w => sleep (backoff baseDelay attempt) (Some (random env (trace w))) w.

(** The [for] loop from iteration [attempt] on, with [remaining] iterations
    left before [attempt] exceeds [maxRetries].  Falling out of the loop
    returns [undefined], which is [None]. *)
Fixpoint withRetryFrom {A} (fn : M A) (maxRetries : nat) (baseDelay : N)
    (remaining attempt : nat) : M (option A) :=
  match remaining with
  | O => ret None
  | S remaining' =>
      fun w =>
        match fn w with
        | (Ret a, w1) => (Ret (Some a), w1)
        | (Throw err, w1) =>
            if rateLimited err then
              if Nat.eqb attempt maxRetries then (Throw maxRetriesError, w1)
              else (backoffSleep baseDelay attempt ;;;
                    withRetryFrom fn maxRetries baseDelay remaining'
                                  (S attempt)) w1
            else (Throw err, w1)
        end
  end.

Definition withRetry {A} (fn : M A) (maxRetries : nat) (baseDelay : N)
    : M (option A) :=
  withRetryFrom fn maxRetries baseDelay maxRetries 1.

(** The call sites all use the defaults. *)
Definition withRetryDefault {A} (fn : M A) : M (option A) :=
  withRetry fn 5 1000.

(** ** sendAndConfirmWithRetry (Social.jsx 84-235) *)

(** How one iteration of a [for] loop ends: it goes on to the next iteration
    ([continue], or the end of the body), or the function returns. *)
Inductive Ctl (A : Type) :=
| Continue
| Return (a : A).
Arguments Continue {A}.
Arguments Return {A}.

(** A value read from what [withRetry] resolved to: a property access on
    [undefined] raises a [TypeError]. *)
Definition defined {A} (what : string) (v : option A) : M A :=
  match v with
  | Some a => ret a
  | None =>
      throw (typeError ("Cannot read properties of undefined (reading '"
                        ++ what ++ "')"))
  end.

Definition natToString (n : nat) : string :=
  NilEmpty.string_of_uint (Nat.to_uint n).

Definition simulationFailedError (err logs : string) : Error :=
  newError ("Simulation failed: " ++ err ++ ". Logs: " ++ logs).

(** Lines 98-122.  [true]: go on to send; [false]: [continue]. *)
Definition simulateStep (attempt maxRetries : nat) : M bool :=
  tryCatch
    (let! simulationResult := withRetryDefault (call SimulateTransaction) in
     let! value := defined "value" simulationResult in
     match sim_err value with
     | Some err =>
         if Nat.eqb attempt maxRetries
         then throw (simulationFailedError err (sim_logs value))
         else ret false
     | None => ret true
     end)
    (fun simErr =>
       if Nat.eqb attempt maxRetries then ret true else ret false).

(** Lines 134-151, the body of the inner [try]. *)
Definition confirmStep (signature : Signature) : M unit :=
  match signature with
  | SigOther typeName _ =>
      throw (newError ("Invalid signature type: expected string, got "
                       ++ typeName))
  | SigString s =>
      let! status := withRetryDefault (call (GetTransaction s)) in
      match status with
      | Some (Some st) =>
          match meta_err st with
          | Some err => throw (newError ("Transaction failed: " ++ err))
          | None => ret tt
          end
      | _ => ret tt
      end
  end.

(** [if (finalSignature)] *)
Definition truthySignature (fs : option Signature) : option Signature :=
  match fs with
  | Some s => if sigTruthy s then Some s else None
  | None => None
  end.

(** Lines 152-165, the inner [catch (confirmErr)]. *)
Definition confirmCatch (signature : Signature) (confirmErr : Error)
    : M (Ctl Signature) :=
  if msgHas confirmErr "WrongSize"
     || msgHas confirmErr "Invalid param"
     || msgHas confirmErr "failed to get transaction"
  then ret (Return signature)
  else
    let! fs := getFinalSignature in
    match truthySignature fs with
    | Some s => ret (Return s)
    | None => throw confirmErr
    end.

(** Lines 89-122: fresh blockhash, serialisation, simulation. *)
Definition prepare (attempt maxRetries : nat) : M bool :=
  let! latest := withRetryDefault (call GetLatestBlockhash) in
  let! blockhash := defined "blockhash" latest in
  let! serializedTx := call Serialize in
  simulateStep attempt maxRetries.

(** Lines 133-167: the confirmation of a signature that was just obtained. *)
Definition confirm (signature : Signature) : M (Ctl Signature) :=
  let! early := tryCatch (confirmStep signature ;;; ret Continue)
                         (confirmCatch signature) in
  match early with
  | Return s => ret (Return s)
  | Continue => ret (Return signature)
  end.

(** Lines 124-167. *)
Definition submit : M (Ctl Signature) :=
  let! signature := call SendAndConfirm in
  setFinalSignature (Some signature) ;;;
  confirm signature.

(** Lines 89-167, the body of the outer [try]. *)
Definition attemptTry (attempt maxRetries : nat) : M (Ctl Signature) :=
  let! proceed := prepare attempt maxRetries in
  if proceed then submit else ret Continue.

(** [await err.getLogs?.(provider.connection) || []] *)
Definition getLogsOf (err : Error) : M (list string) :=
  if err_hasGetLogs err then call GetLogs else ret [].

(** Lines 198-200. *)
Definition firstSignature (sigs : list SigEntry) : string :=
  match sigs with
  | EntryString s :: _ => s
  | EntryPair (Some buffer) :: _ => bs58_encode buffer
  | EntryPair None :: _ => bs58_encode []
  | [] => bs58_encode []
  end.

Definition alreadyProcessedError : Error :=
  newError "Transaction already processed but failed or not found".

(** Lines 196-217. *)
Definition alreadyProcessed : M (Ctl Signature) :=
  let! sigs := getSignatures in
  let signature := firstSignature sigs in
  let! found :=
    tryCatch
      (let! status := withRetryDefault (call (GetTransaction signature)) in
       match status with
       | Some (Some st) =>
           match meta_err st with
           | None => ret (Return (SigString signature))
           | Some _ => ret Continue
           end
       | _ => ret Continue
       end)
      (fun checkErr => ret Continue) in
  match found with
  | Return s => ret (Return s)
  | Continue => throw alreadyProcessedError
  end.

(** Lines 169-233, the outer [catch (err)]. *)
Definition attemptCatch (attempt maxRetries : nat) (baseDelay : N)
    (err : Error) : M (Ctl Signature) :=
  if msgHas err "Invalid arguments" then
    let! logs := getLogsOf err in
    if Nat.eqb attempt maxRetries then
      throw (newError ("Invalid arguments error: " ++ err_message err
                       ++ ". Logs: " ++ JSON_stringify_logs logs))
    else setSignatures [] ;;; ret Continue
  else if msgHas err "Invalid params: invalid type: map, expected a string"
          || msgHas err "WrongSize"
          || msgHas err "failed to get transaction" then
    let! fs := getFinalSignature in
    match truthySignature fs with
    | Some s => ret (Return s)
    | None =>
        if Nat.ltb attempt maxRetries then setSignatures [] ;;; ret Continue
        else throw (newError ("Max retries reached: " ++ err_message err))
    end
  else if msgHas err "This transaction has already been processed" then
    alreadyProcessed
  else if msgHas err "Blockhash not found"
          || msgHas err "TransactionExpiredBlockheightExceededError" then
    ret Continue
  else if String.eqb (err_name err) "SendTransactionError" then
    let! logs := getLogsOf err in
    if Nat.eqb attempt maxRetries then
      throw (newError ("Transaction failed after " ++ natToString maxRetries
                       ++ " attempts: " ++ err_message err
                       ++ ". Logs: " ++ JSON_stringify_logs logs))
    else backoffSleep baseDelay attempt ;;; ret Continue
  else throw err.

(** One iteration of the [for] loop. *)
Definition attemptBody (attempt maxRetries : nat) (baseDelay : N)
    : M (Ctl Signature) :=
  tryCatch (attemptTry attempt maxRetries)
           (attemptCatch attempt maxRetries baseDelay).

(** The loop from iteration [attempt] on; leaving it returns [undefined]. *)
Fixpoint sendLoop (maxRetries : nat) (baseDelay : N)
    (remaining attempt : nat) : M (option Signature) :=
  match remaining with
  | O => ret None
  | S remaining' =>
      let! ctl := attemptBody attempt maxRetries baseDelay in
      match ctl with
      | Return s => ret (Some s)
      | Continue => sendLoop maxRetries baseDelay remaining' (S attempt)
      end
  end.

Definition sendAndConfirmWithRetry (maxRetries : nat) (baseDelay : N)
    : M (option Signature) :=
  setFinalSignature None ;;;
  sendLoop maxRetries baseDelay maxRetries 1.

(** [new Transaction()] followed by the caller's [sendAndConfirmWithRetry
    (provider, transaction)] with the default arguments. *)
Definition newTransaction : M unit := setSignatures [].

Definition sendDefault : M (option Signature) := sendAndConfirmWithRetry 5 1000.

(** ** Decoding accounts *)

(** [bn.toNumber()] *)
Definition toNumber (z : Z) : M Z :=
  if (Z.abs z <? 2 ^ 53)%Z then ret z
  else throw (newError "Number can only safely store up to 53 bits").

Fixpoint mapM {A B} (f : A -> M B) (l : list A) : M (list B) :=
  match l with
  | [] => ret []
  | a :: rest =>
      let! b := f a in
      let! bs := mapM f rest in
      ret (b :: bs)
  end.

(** Lines 2054-2073. *)
Definition categorizePost (content : string) : string :=
  let lowerContent := Js.toLowerCase content in
  if Js.includes lowerContent "meme launch"
     || Js.includes lowerContent "meme coin" then "Meme Launches"
  else if Js.includes lowerContent "solana gem"
          || Js.includes lowerContent "hidden gem" then "Solana Gems"
  else if Js.includes lowerContent "politics"
          || Js.includes lowerContent "election" then "Politics"
  else if Js.includes lowerContent "dev help"
          || Js.includes lowerContent "coding" then "Dev Help"
  else if Js.includes lowerContent "announcement"
          || Js.includes lowerContent "update" then "Announcements"
  else if Js.includes lowerContent "solana dapp"
          || Js.includes lowerContent "new dapp" then "New Solana Dapps"
  else if Js.includes lowerContent "solcial" then "Solcial Discussion"
  else "General Chatting".

Definition decodeForum (forumData : ForumAccount) : M Forum :=
  let! postCount := toNumber (fa_postCount forumData) in
  let! replyCount := toNumber (fa_replyCount forumData) in
  let! reportCount := toNumber (fa_reportCount forumData) in
  let! version := toNumber (fa_version forumData) in
  ret (mkForum (fa_admin forumData) postCount replyCount reportCount version).

Definition decodePost (account : PostAccount) : M Post :=
  let! rating := toNumber (pa_rating account) in
  let! timestamp := toNumber (pa_timestamp account) in
  let! postId := toNumber (pa_id account) in
  let! reportCount := toNumber (pa_reportCount account) in
  ret (mkPost (pa_publicKey account) (pa_author account) (pa_content account)
              rating timestamp postId (categorizePost (pa_content account))
              (pa_isReported account) reportCount).

Definition decodeReply (account : ReplyAccount) : M Reply :=
  let! rating := toNumber (ra_rating account) in
  let! timestamp := toNumber (ra_timestamp account) in
  let! postId := toNumber (ra_postId account) in
  let! replyId := toNumber (ra_id account) in
  let! reportCount := toNumber (ra_reportCount account) in
  ret (mkReply (ra_publicKey account) (ra_author account) (ra_content account)
               rating timestamp postId replyId (ra_isReported account)
               reportCount).

Definition decodeReport (account : ReportAccount) : M Report :=
  let! target := toNumber (rp_target account) in
  let! timestamp := toNumber (rp_timestamp account) in
  let! reportId := toNumber (rp_id account) in
  let! resolutionTimestamp := toNumber (rp_resolutionTimestamp account) in
  ret (mkReport (rp_publicKey account) (rp_reporter account) target
                (rp_reason account) timestamp reportId (rp_isResolved account)
                resolutionTimestamp (rp_adminAction account)).

(** ** executeTransactionSilently (Social.jsx 2075-2172) *)

(** Lines 2092-2153, the body of the [try] in the refresh loop. *)
Definition refreshData (forumPda : option string) : M unit :=
  match forumPda with
  | Some _ =>
      let! fetched := withRetryDefault (call FetchForum) in
      let! forumData := defined "admin" fetched in
      let! forum := decodeForum forumData in
      log (SetForum (Some forum))
  | None => ret tt
  end ;;;
  let! fetchedPosts := withRetryDefault (call PostAll) in
  let! postAccounts := defined "map" fetchedPosts in
  let! newPosts := mapM decodePost postAccounts in
  log (SetPosts newPosts) ;;;
  let! fetchedReplies := withRetryDefault (call ReplyAll) in
  let! replyAccounts := defined "map" fetchedReplies in
  let! newReplies := mapM decodeReply replyAccounts in
  log (SetReplies newReplies) ;;;
  let! fetchedPostReports := withRetryDefault (call PostReportAll) in
  let! postReportAccounts := defined "map" fetchedPostReports in
  let! newPostReports := mapM decodeReport postReportAccounts in
  log (SetPostReports newPostReports) ;;;
  let! fetchedReplyReports := withRetryDefault (call ReplyReportAll) in
  let! replyReportAccounts := defined "map" fetchedReplyReports in
  let! newReplyReports := mapM decodeReport replyReportAccounts in
  log (SetReplyReports newReplyReports).

(** Lines 2089-2169: [true] is the [break] after a complete refresh. *)
Fixpoint refreshLoop (forumPda : option string) (remaining attempt : nat)
    : M unit :=
  match remaining with
  | O => ret tt
  | S remaining' =>
      let! refreshed :=
        tryCatch (refreshData forumPda ;;; ret true)
                 (fun refreshErr => sleep 1000 None ;;; ret false) in
      if refreshed then ret tt
      else refreshLoop forumPda remaining' (S attempt)
  end.

Definition executeTransactionSilently (forumPda : option string)
    (transactionFn : M unit) : M unit :=
  setLoading true ;;;
  setError None ;;;
  tryCatch transactionFn (fun err => ret tt) ;;;
  refreshLoop forumPda 3 1 ;;;
  setLoading false.

(** ** The component's captured state and constants *)

Definition ADMIN_PUBLIC_KEY : string :=
  "HrsKTCmdRrvfsknwVwnVguWFXQpLTdgCwQ8nwfFXvvLz".

Definition MODERATOR_PUBLIC_KEYS : list string :=
  [ "7XeCnBHGWYxpVfd9zCoU3z8FtiSwoGZYk41jcE2sgBxW";
    "5n7BhkbShhh4LCKngM6z7kzKmFaM9jTmJ8XYpzSE7BXU";
    "HaNAWXNe3ZUwDKsTA8feKL43r4ViqaNAzzZGWixUvncp" ].

Definition POST_FEE_RECIPIENT : string :=
  "5n7BhkbShhh4LCKngM6z7kzKmFaM9jTmJ8XYpzSE7BXU".

Definition SOLCIAL_RECIPIENT : string :=
  "5n7BhkbShhh4LCKngM6z7kzKmFaM9jTmJ8XYpzSE7BXU".

(** [POST_FEE * LAMPORTS_PER_SOL] and its siblings: the double products
    [0.001 * 1e9], [0.005 * 1e9] and [0.002 * 1e9] round to these integers. *)
Definition POST_FEE_LAMPORTS : Z := 1000000.
Definition REPLY_FEE_LAMPORTS : Z := 5000000.
Definition REPORT_FEE_LAMPORTS : Z := 2000000.

Definition SOLCIAL_POST_FEE : Z := 1000.
Definition SOLCIAL_REPLY_FEE : Z := 5000.
Definition SOLCIAL_REPORT_FEE : Z := 200.

(** The values an action closes over at the render it was created in. *)
Record Component := mkComponent {
  publicKey : option string;
  forumPda : option string;
  posts : list Post;
  replies : list Reply;
  newPostContent : string;
  newPostCategory : string;
  newReplyContent : gmap string string;
  reportReason : string;
  useSolcial : bool;
  solcialBalance : option Q;
  evmProvider : bool;
  evmAddress : option string;
  estimationInfo : bool;
  bridgePostContent : string;
  bridgePostCategory : string
}.

(** [MODERATOR_PUBLIC_KEYS.some(mod => mod.toBase58() === pk.toBase58())] *)
Definition isModerator (pk : string) : bool :=
  existsb (fun moderator => String.eqb moderator pk) MODERATOR_PUBLIC_KEYS.

Definition isAdmin (pk : string) : bool := String.eqb pk ADMIN_PUBLIC_KEY.

(** [solcialBalance < fee]; [null] compares as 0. *)
Definition solcialBelow (balance : option Q) (fee : Z) : bool :=
  match balance with
  | Some q => negb (Qle_bool (inject_Z fee) q)
  | None => (0 <? fee)%Z
  end.

Definition showBalance (balance : option Q) : string :=
  match balance with
  | Some q => numberToString q
  | None => "null"
  end.

Definition insufficientSolcial (fee : Z) (balance : option Q) : Error :=
  newError ("Insufficient SOLCIAL tokens. Need " ++ numberToString (inject_Z fee)
            ++ " SOLCIAL, have " ++ showBalance balance ++ ".").

(** [walletBalance < fee]; [undefined] compares false. *)
Definition walletBelow (walletBalance : option Z) (fee : Z) : bool :=
  match walletBalance with
  | Some b => (b <? fee)%Z
  | None => false
  end.

Definition showSol (walletBalance : option Z) : string :=
  match walletBalance with
  | Some b => numberToString (b # 1000000000)
  | None => "NaN"
  end.

Definition insufficientSol (fee : string) (walletBalance : option Z) : Error :=
  newError ("Insufficient SOL. Need " ++ fee ++ " SOL, have "
            ++ showSol walletBalance ++ " SOL.").

(** The refusing path of every action: the error is set and the wrapper is
    run on an empty transaction function. *)
Definition refuse (c : Component) (message : string) : M unit :=
  setError (Some message) ;;;
  executeTransactionSilently (forumPda c) (ret tt).

(** ** createPost (Social.jsx 2272-2365) *)

Definition createPostTransaction (c : Component) (pk : string)
    (categorizedContent : string) : M unit :=
  let feeRecipient := POST_FEE_RECIPIENT in
  let! fetched := withRetryDefault (call FetchForum) in
  let! forumData := defined "postCount" fetched in
  let! postCount := toNumber (fa_postCount forumData) in
  let! postPda := call (FindProgramAddress "post" (Some postCount)) in
  (if useSolcial c then
     if solcialBelow (solcialBalance c) SOLCIAL_POST_FEE
     then throw (insufficientSolcial SOLCIAL_POST_FEE (solcialBalance c))
     else
       let! userSolcialAccount := call (GetAssociatedTokenAddress pk) in
       let! solcialRecipientAccount :=
         call (GetAssociatedTokenAddress SOLCIAL_RECIPIENT) in
       newTransaction ;;;
       call (Instruction "createPostWithSolcial" (Some categorizedContent))
   else
     let! feeRecipientInfo :=
       withRetryDefault (call (GetAccountInfo feeRecipient)) in
     match feeRecipientInfo with
     | Some true =>
         let! walletBalance := withRetryDefault (call (GetBalance pk)) in
         if walletBelow walletBalance POST_FEE_LAMPORTS
         then throw (insufficientSol "0.001" walletBalance)
         else
           newTransaction ;;;
           call (Instruction "createPost" (Some categorizedContent))
     | _ =>
         throw (newError ("Fee recipient account ("
                          ++ Js.slice0 8 feeRecipient
                          ++ "...) does not exist."))
     end) ;;;
  let! signature := sendDefault in
  log (SetState "newPostContent") ;;;
  log (SetState "showCreatePost") ;;;
  log (SetState "newPostCategory").

Definition categorize (category content : string) : string :=
  "[" ++ category ++ "] " ++ content.

Definition createPost (c : Component) : M unit :=
  match publicKey c, Js.truthy (newPostContent c), forumPda c with
  | Some pk, true, Some pda =>
      if String.eqb (newPostCategory c) "Announcements"
         && negb (isModerator pk) && negb (isAdmin pk)
      then refuse c "Only admins and moderators can post in Announcements."
      else
        let categorizedContent :=
          categorize (newPostCategory c) (newPostContent c) in
        if Nat.ltb 280 (String.length categorizedContent)
        then refuse c "Post content exceeds 280 characters. Please shorten it."
        else if negb (Js.truthy (Js.trim categorizedContent))
        then refuse c "Post content cannot be empty."
        else
          executeTransactionSilently (forumPda c)
            (createPostTransaction c pk categorizedContent)
  | _, _, _ =>
      refuse c "Please connect wallet, enter post content, and wait for Forum PDA to be derived."
  end.

(** ** createReply (Social.jsx 2367-2457) *)

(** [posts.find(p => p.id === postId)] *)
Definition findPost (c : Component) (postId : string) : option Post :=
  List.find (fun p => String.eqb (p_id p) postId) (posts c).

(** [replies.find(r => r.id === replyId)] *)
Definition findReply (c : Component) (replyId : string) : option Reply :=
  List.find (fun r => String.eqb (r_id r) replyId) (replies c).

Definition createReplyTransaction (c : Component) (pk : string) (post : Post)
    (content : string) : M unit :=
  let! fetched := withRetryDefault (call FetchForum) in
  let! forumData := defined "replyCount" fetched in
  let! replyCount := toNumber (fa_replyCount forumData) in
  let! postPublicKey :=
    call (FindProgramAddress "post" (Some (p_postId post))) in
  let! replyPda := call (FindProgramAddress "reply" (Some replyCount)) in
  (if useSolcial c then
     if solcialBelow (solcialBalance c) SOLCIAL_REPLY_FEE
     then throw (insufficientSolcial SOLCIAL_REPLY_FEE (solcialBalance c))
     else
       let! userSolcialAccount := call (GetAssociatedTokenAddress pk) in
       let! postAuthor := call (NewPublicKey (p_author post)) in
       let! postAuthorSolcialAccount :=
         call (GetAssociatedTokenAddress postAuthor) in
       newTransaction ;;;
       call (Instruction "createReplyWithSolcial" (Some content))
   else
     let! walletBalance := withRetryDefault (call (GetBalance pk)) in
     if walletBelow walletBalance REPLY_FEE_LAMPORTS
     then throw (insufficientSol "0.005" walletBalance)
     else
       let! postAuthorPublicKey := call (NewPublicKey (p_author post)) in
       newTransaction ;;;
       call (Instruction "createReply" (Some content))) ;;;
  let! signature := sendDefault in
  log (SetState "newReplyContent") ;;;
  log (SetState "showReplyForm").

Definition createReply (c : Component) (postId : string) : M unit :=
  match publicKey c, newReplyContent c !! postId, forumPda c with
  | Some pk, Some content, Some pda =>
      if Js.truthy content then
        match findPost c postId with
        | None => refuse c "Post not found. Please ensure the post exists."
        | Some post =>
            if Nat.ltb 280 (String.length content)
            then refuse c "Reply content exceeds 280 characters. Please shorten it."
            else if negb (Js.truthy (Js.trim content))
            then refuse c "Reply content cannot be empty."
            else
              executeTransactionSilently (forumPda c)
                (createReplyTransaction c pk post content)
        end
      else
        refuse c "Please connect wallet, enter reply content, and wait for Forum PDA to be derived."
  | _, _, _ =>
      refuse c "Please connect wallet, enter reply content, and wait for Forum PDA to be derived."
  end.

(** ** reportPost and reportReply (Social.jsx 2620-2794) *)

(** The two transaction functions differ in the instruction names only. *)
Definition reportTransaction (c : Component) (pk targetId : string)
    (withSolcial plain : string) : M unit :=
  let! fetched := withRetryDefault (call FetchForum) in
  let! forumData := defined "reportCount" fetched in
  let! reportCount := toNumber (fa_reportCount forumData) in
  let! targetPublicKey := call (NewPublicKey targetId) in
  let! reportPda := call (FindProgramAddress "report" (Some reportCount)) in
  (if useSolcial c then
     if solcialBelow (solcialBalance c) SOLCIAL_REPORT_FEE
     then throw (insufficientSolcial SOLCIAL_REPORT_FEE (solcialBalance c))
     else
       let! userSolcialAccount := call (GetAssociatedTokenAddress pk) in
       let! solcialRecipientAccount :=
         call (GetAssociatedTokenAddress SOLCIAL_RECIPIENT) in
       newTransaction ;;;
       call (Instruction withSolcial (Some (reportReason c)))
   else
     let! walletBalance := withRetryDefault (call (GetBalance pk)) in
     if walletBelow walletBalance REPORT_FEE_LAMPORTS
     then throw (insufficientSol "0.002" walletBalance)
     else
       newTransaction ;;;
       call (Instruction plain (Some (reportReason c)))) ;;;
  let! signature := sendDefault in
  log (SetState "showReportModal") ;;;
  log (SetState "reportReason").

(** The checks of lines 2632-2641 and 2720-2729 on [reportReason]. *)
Definition checkedReport (c : Component) (transactionFn : M unit) : M unit :=
  if Nat.ltb 100 (String.length (reportReason c))
  then refuse c "Report reason exceeds 100 characters. Please shorten it."
  else if negb (Js.truthy (Js.trim (reportReason c)))
  then refuse c "Report reason cannot be empty."
  else executeTransactionSilently (forumPda c) transactionFn.

Definition reportPost (c : Component) (postId : string) : M unit :=
  match publicKey c, forumPda c, Js.truthy (reportReason c) with
  | Some pk, Some pda, true =>
      match findPost c postId with
      | None => refuse c "Post not found. Please ensure the post exists."
      | Some post =>
          checkedReport c
            (reportTransaction c pk postId "reportPostWithSolcial" "reportPost")
      end
  | _, _, _ =>
      refuse c "Please connect wallet, wait for Forum PDA to be derived, and provide a report reason."
  end.

Definition reportReply (c : Component) (replyId : string) : M unit :=
  match publicKey c, forumPda c, Js.truthy (reportReason c) with
  | Some pk, Some pda, true =>
      match findReply c replyId with
      | None => refuse c "Reply not found. Please ensure the reply exists."
      | Some reply =>
          checkedReport c
            (reportTransaction c pk replyId "reportReplyWithSolcial"
                               "reportReply")
      end
  | _, _, _ =>
      refuse c "Please connect wallet, wait for Forum PDA to be derived, and provide a report reason."
  end.

(** ** Moderation (Social.jsx 2796-2975) *)

(** The transaction function of a moderation action: the account keys, one
    instruction, the submission. *)
Definition moderationTransaction (account : option string) (method : string)
    (arg : option string) : M unit :=
  match account with
  | Some id => let! key := call (NewPublicKey id) in ret tt
  | None => ret tt
  end ;;;
  newTransaction ;;;
  call (Instruction method arg) ;;;
  let! signature := sendDefault in
  ret tt.

Definition connectFirst : string :=
  "Please connect wallet and wait for Forum PDA to be derived.".

Definition resolveReport (c : Component) (reportId actionTaken : string)
    (isPostReport : bool) : M unit :=
  match publicKey c, forumPda c with
  | Some pk, Some pda =>
      if negb (isModerator pk) && negb (isAdmin pk)
      then refuse c "Only admins and moderators can resolve reports."
      else if negb (Js.truthy actionTaken)
              || Nat.ltb 100 (String.length actionTaken)
      then refuse c "Action taken must be provided and not exceed 100 characters."
      else
        executeTransactionSilently (forumPda c)
          (moderationTransaction (Some reportId)
             (if isPostReport then "resolveReport" else "resolveReplyReport")
             (Some actionTaken))
  | _, _ => refuse c connectFirst
  end.

Definition deletePost (c : Component) (postId : string) : M unit :=
  match publicKey c, forumPda c with
  | Some pk, Some pda =>
      if negb (isModerator pk) && negb (isAdmin pk)
      then refuse c "Only admins and moderators can delete posts."
      else
        executeTransactionSilently (forumPda c)
          (moderationTransaction (Some postId) "deletePost" None)
  | _, _ => refuse c connectFirst
  end.

Definition deleteReply (c : Component) (replyId : string) : M unit :=
  match publicKey c, forumPda c with
  | Some pk, Some pda =>
      if negb (isModerator pk) && negb (isAdmin pk)
      then refuse c "Only admins and moderators can delete replies."
      else
        executeTransactionSilently (forumPda c)
          (moderationTransaction (Some replyId) "deleteReply" None)
  | _, _ => refuse c connectFirst
  end.

Definition closeReport (c : Component) (reportId : string)
    (isPostReport : bool) : M unit :=
  match publicKey c, forumPda c with
  | Some pk, Some pda =>
      if negb (isModerator pk) && negb (isAdmin pk)
      then refuse c "Only admins and moderators can close reports."
      else
        executeTransactionSilently (forumPda c)
          (moderationTransaction (Some reportId)
             (if isPostReport then "closePostReport" else "closeReplyReport")
             None)
  | _, _ => refuse c connectFirst
  end.

Definition closeForum (c : Component) : M unit :=
  match publicKey c, forumPda c with
  | Some pk, Some pda =>
      if negb (isAdmin pk)
      then refuse c ("Only admin (" ++ Js.slice0 8 ADMIN_PUBLIC_KEY
                     ++ "...) can close the forum.")
      else
        executeTransactionSilently (forumPda c)
          (moderationTransaction None "closeForum" None ;;;
           log (SetForum None) ;;;
           log (SetPosts []) ;;;
           log (SetReplies []) ;;;
           log (SetPostReports []) ;;;
           log (SetReplyReports []))
  | _, _ => refuse c connectFirst
  end.

(** ** The bridge-and-post flow (Social.jsx 3153-3461) *)

(** [await response.json()] and the fields read from it. *)
Definition jsonOf {Body} (response : HttpResponse Body) : M Body :=
  fun w => (outcomeOf (resp_json response), w).

(** Lines 3299-3323: [pollForOrderId(txHash)] with [maxPolls = 24]. *)
Fixpoint pollForOrderIdFrom (txHash : string) (remaining : nat)
    : M (option string) :=
  match remaining with
  | O => ret None
  | S remaining' =>
      let! found :=
        tryCatch
          (let! orderRes := call (FetchOrderId txHash) in
           let! orderId := jsonOf orderRes in
           match orderId with
           | Some id => if Js.truthy id then ret (Some id) else ret None
           | None => ret None
           end)
          (fun err => ret None) in
      match found with
      | Some id => ret (Some id)
      | None =>
          sleep 5000 None ;;;
          pollForOrderIdFrom txHash remaining'
      end
  end.

Definition pollForOrderId (txHash : string) : M (option string) :=
  pollForOrderIdFrom txHash 24.

(** [status === 'Fulfilled'], on a status that may not be a string. *)
Definition isStatus (status : option string) (name : string) : bool :=
  match status with
  | Some s => String.eqb s name
  | None => false
  end.

(** Lines 3326-3351: [pollForFulfillment(orderId)] with [maxPolls = 60];
    [status] is the variable of the loop.  The [try] answers [inl] with the
    status to return at once, [inr] with the status to go on with. *)
Fixpoint pollForFulfillmentFrom (orderId : string) (status : option string)
    (remaining : nat) : M (option string) :=
  match remaining with
  | O => ret status
  | S remaining' =>
      if isStatus status "Fulfilled" then ret status
      else
        let! polled :=
          tryCatch
            (let! statusRes := call (FetchOrderStatus orderId) in
             let! status' := jsonOf statusRes in
             if isStatus status' "Fulfilled" then ret (inl status')
             else if isStatus status' "Failed" || isStatus status' "Expired"
             then ret (inl status')
             else ret (inr status'))
            (fun err => ret (inr status)) in
        match polled with
        | inl final => ret final
        | inr status' =>
            sleep 10000 None ;;;
            pollForFulfillmentFrom orderId status' remaining'
        end
  end.

Definition pollForFulfillment (orderId : string) : M (option string) :=
  pollForFulfillmentFrom orderId (Some "Created") 60.

Definition newline : string := String (ascii_of_nat 10) EmptyString.

(** Lines 3369-3385; the arrows of the message are kept as UTF-8 bytes. *)
Definition validateSolanaNetwork : M bool :=
  tryCatch
    (let! version := call GetVersion in
     match version with
     | Some core => ret true
     | None => throw (newError "Could not verify Solana cluster")
     end)
    (fun err =>
       throw (newError ("Network validation failed: " ++ err_message err
                        ++ newline ++ newline
                        ++ "Solution: Open Phantom → Settings → Networks → Switch to Mainnet Beta"))).

(** Lines 3354-3367. *)
Definition verifySolBalance (pk : string) (requiredLamports : Z) : M bool :=
  sleep 5000 None ;;;
  let! solBalance := call (GetBalance pk) in
  ret (requiredLamports <=? solBalance)%Z.

(** Lines 3388-3423. *)
Definition createAndSendPost (content pk : string) : M (option Signature) :=
  let feeRecipient := POST_FEE_RECIPIENT in
  let! fetched := withRetryDefault (call FetchForum) in
  let! forumData := defined "postCount" fetched in
  let! postCount := toNumber (fa_postCount forumData) in
  let! postPda := call (FindProgramAddress "post" (Some postCount)) in
  let! feeRecipientInfo :=
    withRetryDefault (call (GetAccountInfo feeRecipient)) in
  match feeRecipientInfo with
  | Some true =>
      newTransaction ;;;
      call (Instruction "createPost" (Some content)) ;;;
      sendDefault
  | _ => throw (newError "Fee recipient account does not exist")
  end.

(** Lines 3426-3461; [true] is the [return] after a complete refresh. *)
Fixpoint refreshForumDataFrom (remaining attempt : nat) : M unit :=
  match remaining with
  | O => ret tt
  | S remaining' =>
      let! refreshed :=
        tryCatch
          (let! fetched := withRetryDefault (call FetchForum) in
           let! forumData := defined "admin" fetched in
           let! forum := decodeForum forumData in
           log (SetForum (Some forum)) ;;;
           let! fetchedPosts := withRetryDefault (call PostAll) in
           let! postAccounts := defined "map" fetchedPosts in
           let! newPosts := mapM decodePost postAccounts in
           log (SetPosts newPosts) ;;;
           ret true)
          (fun refreshErr =>
             if Nat.eqb attempt 3 then throw refreshErr
             else sleep 1000 None ;;; ret false) in
      if refreshed then ret tt
      else refreshForumDataFrom remaining' (S attempt)
  end.

Definition refreshForumData : M unit := refreshForumDataFrom 3 1.

(** [`Bridge ${status.toLowerCase()}`] *)
Definition bridgeStatusError (status : option string) : Error :=
  match status with
  | Some s => newError ("Bridge " ++ Js.toLowerCase s)
  | None =>
      typeError "Cannot read properties of undefined (reading 'toLowerCase')"
  end.

(** Lines 3184-3288, the body of the [try]. *)
Definition bridgeAndPost (c : Component) (pk : string) : M unit :=
  let! url := call PrepareCreateTx in
  let! response := call FetchCreateTx in
  (if resp_ok response then ret tt
   else throw (newError ("Bridge tx creation failed: " ++ resp_status response
                         ++ " - " ++ resp_text response))) ;;;
  let! data := jsonOf response in
  let! signer := call EvmGetSigner in
  let! gasPrice := call EvmGetFeeData in
  let! txHash := call EvmSendTransaction in
  let! receipt := call EvmWait in
  let! orderId := pollForOrderId txHash in
  match orderId with
  | None => throw (newError "Order ID timeout after 2 minutes")
  | Some orderId =>
      let! status := pollForFulfillment orderId in
      if negb (isStatus status "Fulfilled") then throw (bridgeStatusError status)
      else
        let! valid := validateSolanaNetwork in
        let! solBalance := verifySolBalance pk POST_FEE_LAMPORTS in
        if negb solBalance then throw (newError "Insufficient SOL for posting")
        else
          let! signature :=
            createAndSendPost
              (categorize (bridgePostCategory c) (bridgePostContent c)) pk in
          refreshForumData ;;;
          log (SetState "showBridge") ;;;
          log (SetState "bridgePostContent") ;;;
          log (SetState "bridgePostCategory") ;;;
          log (SetState "selectedInput") ;;;
          setError None
  end.

(** [missing.join(', ')] of lines 3165-3170. *)
Definition missingParts (c : Component) : list string :=
  (if evmProvider c then [] else ["MetaMask Provider"])
  ++ (match evmAddress c with
      | Some a => if Js.truthy a then [] else ["MetaMask Address"]
      | None => ["MetaMask Address"]
      end)
  ++ (match publicKey c with Some _ => [] | None => ["Solana Wallet"] end)
  ++ (if estimationInfo c then [] else ["Bridge Estimation"])
  ++ (if Js.truthy (Js.trim (bridgePostContent c)) then []
      else ["Post Content"]).

Fixpoint joinWith (sep : string) (parts : list string) : string :=
  match parts with
  | [] => ""
  | [p] => p
  | p :: rest => p ++ sep ++ joinWith sep rest
  end.

(** Lines 3164-3174; the second test of lines 3176-3179 repeats the first
    and is never reached. *)
Definition missing (c : Component) : M unit :=
  setError (Some ("Missing: " ++ joinWith ", " (missingParts c))%string).

Definition handleBridgeAndPost (c : Component) : M unit :=
  match publicKey c with
  | Some pk =>
      if evmProvider c
         && match evmAddress c with Some a => Js.truthy a | None => false end
         && estimationInfo c
         && Js.truthy (Js.trim (bridgePostContent c))
      then
        setLoading true ;;;
        setError None ;;;
        tryFinally
          (tryCatch (bridgeAndPost c pk)
                    (fun err =>
                       setError (Some ("Failed: " ++ err_message err)%string)))
          (setLoading false)
      else missing c
  | None => missing c
  end.

End Program.

Arguments Continue {A}.
Arguments Return {A}.

(** ** More of the component: views, votes, loaders, initialisation *)

(** Array methods of the JavaScript library used by the views. *)
Module JsArray.

(** [array.includes(x)] on an array of strings. *)
Definition includes (array : list string) (x : string) : bool :=
  existsb (String.eqb x) array.

(** [array.sort(compare)]: the sort is stable, so with a comparator that
    orders its arguments consistently the result is the one an insertion
    sort gives, each element going in front of the first one it does not
    compare greater than. *)
Fixpoint insert {A} (compare : A -> A -> Z) (x : A) (sorted : list A)
    : list A :=
  match sorted with
  | [] => [x]
  | y :: rest =>
      if (compare x y <=? 0)%Z then x :: sorted
      else y :: insert compare x rest
  end.

Fixpoint sort {A} (compare : A -> A -> Z) (array : list A) : list A :=
  match array with
  | [] => []
  | x :: rest => insert compare x (sort compare rest)
  end.

End JsArray.

(** Lines 2030-2038: the update [toggleStarPost(postId)] applies to
    [starredPosts]. *)
Definition toggleStarPost (prev : list string) (postId : string)
    : list string :=
  if JsArray.includes prev postId
  then List.filter (fun id => negb (String.eqb id postId)) prev
  else prev ++ [postId].

(** Lines 2040-2052.  [sort] works in place, on [posts] itself in the
    section 'All'; the order of [posts] is read nowhere else. *)
Definition filteredPosts (posts : list Post) (activeSection : string)
    (starredPosts : list string) (publicKey : option string) : list Post :=
  let filtered :=
    if String.eqb activeSection "Starred Posts" then
      List.filter (fun post => JsArray.includes starredPosts (p_id post)) posts
    else if String.eqb activeSection "My Posts" then
      List.filter (fun post =>
                     match publicKey with
                     | Some pk => String.eqb (p_author post) pk
                     | None => false
                     end) posts
    else if String.eqb activeSection "Reported Posts" then
      List.filter (fun post => p_isReported post || (0 <? p_reportCount post)%Z)
                  posts
    else if negb (String.eqb activeSection "All") then
      List.filter (fun post => String.eqb (p_category post) activeSection) posts
    else posts in
  JsArray.sort (fun a b => (p_timestamp b - p_timestamp a)%Z) filtered.

(** Lines 3469-3483. *)
Definition categories (publicKey : option string) : list string :=
  [ "All"; "General Chatting"; "Meme Launches"; "Solana Gems"; "Politics";
    "Dev Help"; "Announcements"; "New Solana Dapps"; "Solcial Discussion";
    "Starred Posts"; "My Posts" ]
  ++ (if match publicKey with
         | Some pk => isModerator pk || isAdmin pk
         | None => false
         end
      then ["Reported Posts"] else []).

(** Line 3615: the options of the category selector of a new post. *)
Definition postCategories (publicKey : option string) : list string :=
  List.filter (fun category =>
                 negb (String.eqb category "All")
                 && negb (String.eqb category "Starred Posts")
                 && negb (String.eqb category "My Posts")
                 && negb (String.eqb category "Reported Posts"))
              (categories publicKey).

(** *** Starred posts in the browser's storage (Social.jsx 2014-2028) *)

Section Starred.

(** [JSON.stringify] and [JSON.parse] on arrays of post ids. *)
Variable JSON_stringify_ids : list string -> string.
Variable JSON_parse_ids : string -> Error + list string.

Definition starredKey (pk : string) : string := "starred_posts_" ++ pk.

(** Lines 2015-2022: what [starredPosts] is after the effect that runs when
    [publicKey] changes; [JSON.parse] may throw. *)
Definition loadStarred (publicKey : option string)
    (localStorage : gmap string string) (starredPosts : list string)
    : Error + list string :=
  match publicKey with
  | Some pk =>
      match localStorage !! starredKey pk with
      | Some storedStarred =>
          if Js.truthy storedStarred then JSON_parse_ids storedStarred
          else inr starredPosts
      | None => inr starredPosts
      end
  | None => inr starredPosts
  end.

(** Lines 2024-2028: the storage after the effect that runs when
    [starredPosts] or [publicKey] changes. *)
Definition saveStarred (publicKey : option string) (starredPosts : list string)
    (localStorage : gmap string string) : gmap string string :=
  match publicKey with
  | Some pk =>
      if Nat.ltb 0 (List.length starredPosts)
      then <[starredKey pk := JSON_stringify_ids starredPosts]> localStorage
      else localStorage
  | None => localStorage
  end.

End Starred.

(** *** ratePost and rateReply (Social.jsx 2459-2618) *)

(** [VOTE_FEE * LAMPORTS_PER_SOL]: the double product [0.001 * 1e9]. *)
Definition VOTE_FEE_LAMPORTS : Z := 1000000.

Definition SOLCIAL_VOTE_FEE : Z := 1000.

Section Voting.

Variable env : Env.
Variable bs58_encode : list Byte.byte -> string.
Variable JSON_stringify_logs : list string -> string.
Variable numberToString : Q -> string.

(** The boolean [isUpvote] as the argument of the instruction. *)
Definition showBool (b : bool) : string := if b then "true" else "false".

(** Lines 2472-2533, the transaction function of [ratePost]. *)
Definition ratePostTransaction (c : Component) (pk postId : string)
    (post : Post) (isUpvote : bool) : M unit :=
  let! postPublicKey := call env (NewPublicKey postId) in
  let! userRatingPda := call env (FindProgramAddress "rating" None) in
  (if useSolcial c then
     if solcialBelow (solcialBalance c) SOLCIAL_VOTE_FEE
     then throw (insufficientSolcial numberToString SOLCIAL_VOTE_FEE
                                     (solcialBalance c))
     else
       let! userSolcialAccount := call env (GetAssociatedTokenAddress pk) in
       let! postAuthor := call env (NewPublicKey (p_author post)) in
       let! postAuthorSolcialAccount :=
         call env (GetAssociatedTokenAddress postAuthor) in
       let! solcialRecipientAccount :=
         call env (GetAssociatedTokenAddress SOLCIAL_RECIPIENT) in
       newTransaction ;;;
       call env (Instruction "ratePostWithSolcial" (Some (showBool isUpvote)))
   else
     let! walletBalance := withRetryDefault env (call env (GetBalance pk)) in
     if walletBelow walletBalance VOTE_FEE_LAMPORTS
     then throw (insufficientSol numberToString "0.001" walletBalance)
     else
       let! postAuthorPublicKey := call env (NewPublicKey (p_author post)) in
       newTransaction ;;;
       call env (Instruction "ratePost" (Some (showBool isUpvote)))) ;;;
  let! signature := sendDefault env bs58_encode JSON_stringify_logs in
  ret tt.

Definition ratePost (c : Component) (postId : string) (isUpvote : bool)
    : M unit :=
  match publicKey c, forumPda c with
  | Some pk, Some pda =>
      match findPost c postId with
      | None => refuse env c "Post not found. Please ensure the post exists."
      | Some post =>
          executeTransactionSilently env (forumPda c)
            (ratePostTransaction c pk postId post isUpvote)
      end
  | _, _ => refuse env c connectFirst
  end.

(** [posts.find(p => p.postId === reply.postId)] *)
Definition findPostOf (c : Component) (reply : Reply) : option Post :=
  List.find (fun p => Z.eqb (p_postId p) (r_postId reply)) (posts c).

(** Lines 2549-2617, the transaction function of [rateReply]. *)
Definition rateReplyTransaction (c : Component) (pk replyId : string)
    (reply : Reply) (isUpvote : bool) : M unit :=
  let! replyPublicKey := call env (NewPublicKey replyId) in
  let! userRatingPda := call env (FindProgramAddress "rating" None) in
  match findPostOf c reply with
  | None => throw (newError "Associated post not found.")
  | Some post =>
      let! postPublicKey := call env (NewPublicKey (p_id post)) in
      (if useSolcial c then
         if solcialBelow (solcialBalance c) SOLCIAL_VOTE_FEE
         then throw (insufficientSolcial numberToString SOLCIAL_VOTE_FEE
                                         (solcialBalance c))
         else
           let! userSolcialAccount := call env (GetAssociatedTokenAddress pk) in
           let! replyAuthor := call env (NewPublicKey (r_author reply)) in
           let! replyAuthorSolcialAccount :=
             call env (GetAssociatedTokenAddress replyAuthor) in
           let! solcialRecipientAccount :=
             call env (GetAssociatedTokenAddress SOLCIAL_RECIPIENT) in
           newTransaction ;;;
           call env (Instruction "rateReplyWithSolcial"
                                 (Some (showBool isUpvote)))
       else
         let! walletBalance := withRetryDefault env (call env (GetBalance pk)) in
         if walletBelow walletBalance VOTE_FEE_LAMPORTS
         then throw (insufficientSol numberToString "0.001" walletBalance)
         else
           let! replyAuthorPublicKey :=
             call env (NewPublicKey (r_author reply)) in
           newTransaction ;;;
           call env (Instruction "rateReply" (Some (showBool isUpvote)))) ;;;
      let! signature := sendDefault env bs58_encode JSON_stringify_logs in
      ret tt
  end.

Definition rateReply (c : Component) (replyId : string) (isUpvote : bool)
    : M unit :=
  match publicKey c, forumPda c with
  | Some pk, Some pda =>
      match findReply c replyId with
      | None => refuse env c "Reply not found. Please ensure the reply exists."
      | Some reply =>
          executeTransactionSilently env (forumPda c)
            (rateReplyTransaction c pk replyId reply isUpvote)
      end
  | _, _ => refuse env c connectFirst
  end.

End Voting.

(** *** The loaders of the data-fetching effect (Social.jsx 1893-2004) *)

(** The effect starts the four loaders together, under [Promise.all]; each
    is modelled on its own, as the sequential function it is. *)

Definition quote : string := String (ascii_of_nat 34) EmptyString.

Definition forumNotInitialized : string :=
  "Forum not initialized. Please click " ++ quote ++ "Initialize Social"
  ++ quote ++ " to set up the forum.".

Section Loading.

Variable env : Env.

(** Lines 1893-1915. *)
Definition fetchForum : M unit :=
  setLoading true ;;;
  tryFinally
    (tryCatch
       (let! fetched := withRetryDefault env (call env FetchForum) in
        let! forumData := defined "admin" fetched in
        let! forum := decodeForum forumData in
        log (SetForum (Some forum)) ;;;
        setError None)
       (fun err =>
          if msgHas err "Account does not exist"
          then setError (Some forumNotInitialized)
          else setError (Some ("Failed to load forum: " ++ err_message err)%string)))
    (setLoading false).

(** Lines 1917-1940. *)
Definition fetchPosts : M unit :=
  setLoading true ;;;
  tryFinally
    (tryCatch
       (let! fetched := withRetryDefault env (call env PostAll) in
        let! postAccounts := defined "map" fetched in
        let! posts := mapM decodePost postAccounts in
        log (SetPosts posts) ;;;
        setError None)
       (fun err =>
          setError (Some ("Failed to load posts: " ++ err_message err)%string)))
    (setLoading false).

(** Lines 1942-1965. *)
Definition fetchReplies : M unit :=
  setLoading true ;;;
  tryFinally
    (tryCatch
       (let! fetched := withRetryDefault env (call env ReplyAll) in
        let! replyAccounts := defined "map" fetched in
        let! replies := mapM decodeReply replyAccounts in
        log (SetReplies replies) ;;;
        setError None)
       (fun err =>
          setError (Some ("Failed to load replies: " ++ err_message err)%string)))
    (setLoading false).

(** Lines 1967-2004. *)
Definition fetchReports : M unit :=
  setLoading true ;;;
  tryFinally
    (tryCatch
       (let! fetchedPostReports :=
          withRetryDefault env (call env PostReportAll) in
        let! postReportAccounts := defined "map" fetchedPostReports in
        let! postReports := mapM decodeReport postReportAccounts in
        log (SetPostReports postReports) ;;;
        let! fetchedReplyReports :=
          withRetryDefault env (call env ReplyReportAll) in
        let! replyReportAccounts := defined "map" fetchedReplyReports in
        let! replyReports := mapM decodeReport replyReportAccounts in
        log (SetReplyReports replyReports) ;;;
        setError None)
       (fun err =>
          setError (Some ("Failed to load reports: " ++ err_message err)%string)))
    (setLoading false).

End Loading.

(** *** initializeForum (Social.jsx 2174-2270) *)

(** [LAMPORTS_PER_SOL * 0.01]: the double product [1e9 * 0.01]. *)
Definition INITIALIZATION_MARGIN : Z := 10000000.

(** [MODERATOR_PUBLIC_KEYS.concat([ADMIN_PUBLIC_KEY])] *)
Definition initializers : list string :=
  MODERATOR_PUBLIC_KEYS ++ [ADMIN_PUBLIC_KEY].

(** [initializers.some(key => key.toBase58() === pk.toBase58())] *)
Definition isInitializer (pk : string) : bool :=
  existsb (fun key => String.eqb key pk) initializers.

(** [a < b] on numbers either of which may be [undefined] or [NaN]. *)
Definition below (a b : option Z) : bool :=
  match a, b with
  | Some x, Some y => (x <? y)%Z
  | _, _ => false
  end.

Section Initialize.

Variable env : Env.
Variable bs58_encode : list Byte.byte -> string.
Variable JSON_stringify_logs : list string -> string.

(** [x.toFixed(4)], and the request
    [provider.connection.getMinimumBalanceForRentExemption(size)], which is
    not among the operations above. *)
Variable toFixed4 : Q -> string.
Variable getMinimumBalanceForRentExemption : N -> M Z.

(** [((rentExemption + LAMPORTS_PER_SOL * 0.01) / LAMPORTS_PER_SOL)
    .toFixed(4)] *)
Definition showNeeded (needed : option Z) : string :=
  match needed with
  | Some lamports => toFixed4 (lamports # 1000000000)
  | None => "NaN"
  end.

(** Lines 2201-2223: [true] when the function returns there. *)
Definition existingForum (forumAccountInfo : option bool) : M bool :=
  match forumAccountInfo with
  | Some true =>
      tryCatch
        (let! fetched := withRetryDefault env (call env FetchForum) in
         let! forumData := defined "admin" fetched in
         if isInitializer (fa_admin forumData) then
           setError (Some "Forum is already initialized with a valid admin. No action needed.") ;;;
           let! forum := decodeForum forumData in
           log (SetForum (Some forum)) ;;;
           ret true
         else
           setError (Some ("Forum is already initialized with a different admin ("
                           ++ Js.slice0 8 (fa_admin forumData)
                           ++ "...). Cannot reinitialize. Please close the existing forum account or use a different program ID.")%string) ;;;
           ret true)
        (fun fetchErr =>
           setError (Some "Forum account exists but cannot be read. It may be corrupted or initialized incorrectly. Try closing the account or using a different program ID.") ;;;
           ret true)
  | _ => ret false
  end.

(** Lines 2193-2263, the body of the [try]. *)
Definition initializeForumTry (pk pda : string) : M unit :=
  let! walletBalance := withRetryDefault env (call env (GetBalance pk)) in
  let! rentExemption :=
    withRetryDefault env (getMinimumBalanceForRentExemption 512) in
  let needed :=
    option_map (fun rent => (rent + INITIALIZATION_MARGIN)%Z) rentExemption in
  if below walletBalance needed then
    setError (Some ("Insufficient wallet balance. Need ~" ++ showNeeded needed
                    ++ " SOL for initialization.")%string)
  else
    let! forumAccountInfo :=
      withRetryDefault env (call env (GetAccountInfo pda)) in
    let! returned := existingForum forumAccountInfo in
    if returned then ret tt
    else
      let! forumBalance := withRetryDefault env (call env (GetBalance pda)) in
      (if below forumBalance rentExemption then
         newTransaction ;;;
         let! fundSignature :=
           sendDefault env bs58_encode JSON_stringify_logs in
         ret tt
       else ret tt) ;;;
      newTransaction ;;;
      call env (Instruction "initializeForum" None) ;;;
      let! signature := sendDefault env bs58_encode JSON_stringify_logs in
      let! fetched := withRetryDefault env (call env FetchForum) in
      let! forumData := defined "admin" fetched in
      let! forum := decodeForum forumData in
      log (SetForum (Some forum)) ;;;
      setError None.

Definition initializeForum (c : Component) : M unit :=
  match publicKey c with
  | None => setError (Some "Please connect your wallet.")
  | Some pk =>
      match forumPda c with
      | None =>
          setError (Some "Forum PDA not yet derived. Please wait a moment and try again.")
      | Some pda =>
          if negb (isInitializer pk) then
            setError (Some ("Only admins ("
                            ++ joinWith ", " (List.map (Js.slice0 8) initializers)
                            ++ "...) can initialize the forum.")%string)
          else
            setLoading true ;;;
            setError None ;;;
            tryFinally
              (tryCatch (initializeForumTry pk pda)
                        (fun err =>
                           setError (Some ("Failed to initialize forum: "
                                           ++ err_message err)%string)))
              (setLoading false)
      end
  end.

End Initialize.

(** *** getPrice (Social.jsx 3055-3078) *)

Section Prices.

(** [fetch(url)] on a price API, with what [res.json()] and the reads that
    follow it ([data[id].usd], [parseFloat(data.price)]) give or throw; a
    price that is [undefined] or [NaN] is [None]. *)
Variable fetchPrice : string -> M (HttpResponse (option Q)).

Definition coinGeckoUrl (id : string) : string :=
  "https://api.coingecko.com/api/v3/simple/price?ids=" ++ id
  ++ "&vs_currencies=usd".

Definition binanceUrl (symbol : string) : string :=
  "https://api.binance.com/api/v3/ticker/price?symbol=" ++ symbol.

(** Lines 3064-3068. *)
Definition binanceSymbol (id : string) : option string :=
  if String.eqb id "ethereum" then Some "ETHUSDT"
  else if String.eqb id "solana" then Some "SOLUSDT"
  else if String.eqb id "binancecoin" then Some "BNBUSDT"
  else None.

Definition getPrice (id : string) : M (option Q) :=
  tryCatch
    (let! res := fetchPrice (coinGeckoUrl id) in
     if resp_ok res then jsonOf res
     else throw (newError "CoinGecko API failed"))
    (fun err =>
       tryCatch
         (match binanceSymbol id with
          | Some symbol =>
              let! res := fetchPrice (binanceUrl symbol) in
              if resp_ok res then jsonOf res
              else throw (newError "Binance API failed")
          | None => throw (newError "Unsupported asset for Binance fallback")
          end)
         (fun binanceErr =>
            throw (newError "Failed to get price from both CoinGecko and Binance"))).

End Prices.

(** ** Concrete environments *)

Module Sample.

(** A successful answer for every operation. *)
Definition okAnswer (op : Op) : ans op :=
  match op with
  | GetLatestBlockhash => "blockhash"
  | SimulateTransaction => mkSim None "[]"
  | SendAndConfirm => SigString "5igNature"
  | GetTransaction _ => Some (mkStatus None)
  | GetBalance _ => 2000000%Z
  | GetAccountInfo _ => true
  | GetVersion => Some "1.18.0"
  | FetchForum => mkForumAccount ADMIN_PUBLIC_KEY 0 0 0 1
  | PostAll => []
  | ReplyAll => []
  | PostReportAll => []
  | ReplyReportAll => []
  | Serialize => "serialized"
  | GetLogs => []
  | FindProgramAddress _ _ => "pda"
  | GetAssociatedTokenAddress _ => "ata"
  | NewPublicKey key => key
  | Instruction _ _ => tt
  | PrepareCreateTx => "https://bridge/create-tx"
  | FetchCreateTx =>
      mkResponse true "200" "" (inr (mkBridgeTx "0xbridge" "0x" None))
  | EvmGetSigner => tt
  | EvmGetFeeData => "1"
  | EvmSendTransaction => "0xhash"
  | EvmWait => 1%Z
  | FetchOrderId _ => mkResponse true "200" "" (inr (Some "order-1"))
  | FetchOrderStatus _ => mkResponse true "200" "" (inr (Some "Fulfilled"))
  end.

Definition keepSignatures (op : Op) (history : list Event)
    (sigs : list SigEntry) : list SigEntry := sigs.

(** Every call succeeds. *)
Definition happy : Env :=
  mkEnv (fun op _ => inr (okAnswer op)) keepSignatures (fun _ => 0%N).

(** The calls chosen by [fails] throw [e]; the others succeed. *)
Definition failing (fails : Op -> bool) (e : Error) : Env :=
  mkEnv (fun op _ => if fails op then inl e else inr (okAnswer op))
        keepSignatures (fun _ => 0%N).

Definition start : World := mkWorld [] [] None false None.

Definition noEncoding (bytes : list Byte.byte) : string := "".
Definition noLogs (logs : list string) : string := "[]".
Definition noNumber (q : Q) : string := "0".


Definition isSend (op : Op) : bool :=
  match op with SendAndConfirm => true | _ => false end.

Definition isBlockhash (op : Op) : bool :=
  match op with GetLatestBlockhash => true | _ => false end.


(** The wallet signs on [sendAndConfirm]; the node then rejects the
    transaction with [e]. *)
Definition rejecting (e : Error) : Env :=
  mkEnv (fun op _ => if isSend op then inl e else inr (okAnswer op))
        (fun op _ sigs => if isSend op then [EntryString "5igNature"] else sigs)
        (fun _ => 0%N).

Definition sendError (message : string) : Error :=
  mkError "SendTransactionError" message true.

Definition expired : Env := rejecting (sendError "Blockhash not found").

Definition expiredAmbiguous : Env :=
  rejecting (sendError "failed to get transaction: Blockhash not found").

Definition processed : Env :=
  rejecting (sendError "This transaction has already been processed").

Definition processedAmbiguous : Env :=
  rejecting
    (sendError "Invalid arguments: This transaction has already been processed").



Definition limited : Env :=
  failing isBlockhash (newError "429 Too Many Requests").

(** No call gets through. *)
Definition offline : Env :=
  failing (fun _ => true) (newError "Network request failed").

Definition forumPost : Post :=
  mkPost "post-1" "author-1" "[General Chatting] hello" 0 0 0
         "General Chatting" false 0.

(** A connected wallet that is neither admin nor moderator, with a report
    reason of three spaces and a bridge post ready to go. *)
Definition visitor : Component :=
  mkComponent (Some "9xQeWvG816bUx9EPjHmaT23yvVM2ZWbrrpZb9PusVFin")
              (Some "forum-pda") [forumPost] [] "hello" "General Chatting"
              ∅ "   " false None true (Some "0xabc") true "gm"
              "General Chatting".

(** One of the moderators. *)
Definition moderator : Component :=
  mkComponent (Some "7XeCnBHGWYxpVfd9zCoU3z8FtiSwoGZYk41jcE2sgBxW")
              (Some "forum-pda") [forumPost] [] "hello" "General Chatting"
              ∅ "" false None false None false "" "General Chatting".


End Sample.

(** ** Further concrete data *)

Module Scenario.

(** A text for lists of post ids, and a reader that knows one of them. *)
Definition stringifyIds (ids : list string) : string :=
  "[" ++ joinWith "," ids ++ "]".

Definition parseIds (text : string) : Error + list string :=
  if String.eqb text "[post-1]" then inr ["post-1"]
  else inl (mkError "SyntaxError" "Unexpected token" false).

(** The visitor of [Sample], paying in SOLCIAL with ten tokens. *)
Definition tokenPayer : Component :=
  mkComponent (Some "9xQeWvG816bUx9EPjHmaT23yvVM2ZWbrrpZb9PusVFin")
              (Some "forum-pda") [Sample.forumPost] [] "hello"
              "General Chatting" ∅ "spam" true (Some (10 # 1)) false None
              false "" "General Chatting".

(** A reply to a post that is not among the loaded ones. *)
Definition strayReply : Reply :=
  mkReply "reply-1" "author-2" "gm" 0 0 7 0 false 0.

Definition withStrayReply : Component :=
  mkComponent (Some "9xQeWvG816bUx9EPjHmaT23yvVM2ZWbrrpZb9PusVFin")
              (Some "forum-pda") [Sample.forumPost] [strayReply] ""
              "General Chatting" ∅ "" false None false None false ""
              "General Chatting".


(** The transaction lands but fails on chain: its status carries an
    error. *)
Definition failedOnChain : Env :=
  mkEnv (fun op _ =>
           match op as o return Error + ans o with
           | GetTransaction _ =>
               inr (Some (mkStatus (Some "{InstructionError:[2,Custom]}")))
           | o => inr (Sample.okAnswer o)
           end)
        Sample.keepSignatures (fun _ => 0%N).


(** The rent of an account of any size, and a number with four decimals. *)
Definition rent (size : N) : M Z := ret 4454400%Z.

Definition fourDecimals (q : Q) : string := "0.0145".

End Scenario.

(** ** Vocabulary of the specification *)

(** The spec's "message contains the substring". *)
Definition Substring (needle hay : string) : Prop :=
  exists before after, hay = (before ++ needle ++ after)%string.

(** Blank strings: nothing but white space. *)
Fixpoint allSpace (s : string) : bool :=
  match s with
  | EmptyString => true
  | String c rest => Js.isSpace c && allSpace rest
  end.

(** The component's [error] and [loading] after a list of events. *)
Definition errorAfter (evs : list Event) (error : option string)
    : option string :=
  fold_left (fun acc e => match e with SetError x => x | _ => acc end)
            evs error.

Definition loadingAfter (evs : list Event) (loading : bool) : bool :=
  fold_left (fun acc e => match e with SetLoading b => b | _ => acc end)
            evs loading.

(** Every run of [m] only appends events to the trace, all of them satisfy
    [P], and the component's [error] and [loading] change as the events
    say. *)
Definition Emits {A} (P : Event -> Prop) (m : M A) : Prop :=
  forall w, exists evs,
    trace (snd (m w)) = trace w ++ evs
    /\ Forall P evs
    /\ ui_error (snd (m w)) = errorAfter evs (ui_error w)
    /\ ui_loading (snd (m w)) = loadingAfter evs (ui_loading w).

(** Events that leave the component's [error] and [loading] alone. *)
Definition NotUi (e : Event) : Prop :=
  match e with
  | SetError _ | SetLoading _ => False
  | _ => True
  end.

(** The spec's rate-limiting error: the message contains '429' or
    'Too Many Requests'. *)
Definition RateLimitError (e : Error) : Prop :=
  Substring "429" (err_message e)
  \/ Substring "Too Many Requests" (err_message e).

(** [withRetry] in the spec's words.  [RetryRun fn maxRetries baseDelay
    attempt w result w' n]: from the attempt numbered [attempt] on, started
    in [w], the helper ends with [result] in [w'] after invoking [fn] [n]
    times. *)
Inductive RetryRun {A} (fn : M A) (maxRetries : nat) (baseDelay : N)
    : nat -> World -> Outcome (option A) -> World -> nat -> Prop :=
| retry_returns attempt w a w1 :
    fn w = (Ret a, w1) ->
    RetryRun fn maxRetries baseDelay attempt w (Ret (Some a)) w1 1
| retry_rethrows attempt w e w1 :
    fn w = (Throw e, w1) ->
    ~ RateLimitError e ->
    RetryRun fn maxRetries baseDelay attempt w (Throw e) w1 1
| retry_gives_up w e w1 :
    fn w = (Throw e, w1) ->
    RateLimitError e ->
    RetryRun fn maxRetries baseDelay maxRetries w
             (Throw (newError "Max retries reached due to rate limiting")) w1 1
| retry_waits attempt w e w1 jitter result w2 n :
    fn w = (Throw e, w1) ->
    RateLimitError e ->
    attempt < maxRetries ->
    RetryRun fn maxRetries baseDelay (S attempt)
             (emit (Sleep (baseDelay * 2 ^ N.of_nat (attempt - 1)) (Some jitter))
                   w1)
             result w2 n ->
    RetryRun fn maxRetries baseDelay attempt w result w2 (S n).

(** Classes of events. *)
Definition isSendEvent (e : Event) : bool :=
  match e with
  | Call SendAndConfirm _ => true
  | _ => false
  end.

Definition isInstructionEvent (e : Event) : bool :=
  match e with
  | Call (Instruction _ _) _ => true
  | _ => false
  end.

Definition NotSend (e : Event) : Prop := isSendEvent e = false.

(** Neither an instruction is built nor a transaction submitted. *)
Definition NoTransaction (e : Event) : Prop :=
  isInstructionEvent e = false /\ isSendEvent e = false.

(** The requests that go to the Solana RPC endpoint. *)
Definition isRpc (op : Op) : bool :=
  match op with
  | GetLatestBlockhash | SimulateTransaction | SendAndConfirm
  | GetTransaction _ | GetBalance _ | GetAccountInfo _ | GetVersion
  | FetchForum | PostAll | ReplyAll | PostReportAll | ReplyReportAll
  | GetLogs => true
  | _ => false
  end.

Definition isRpcEvent (e : Event) : bool :=
  match e with
  | Call op _ => isRpc op
  | _ => false
  end.

Definition rpcRequests (evs : list Event) : nat :=
  List.length (List.filter isRpcEvent evs).

Definition sends (evs : list Event) : nat :=
  List.length (List.filter isSendEvent evs).

(** A call of [simulateTransaction], and one that reported no error. *)
Definition SimulationCall (e : Event) : Prop :=
  exists r, e = Call SimulateTransaction r.

Definition CleanSimulation (e : Event) : Prop :=
  exists value, e = Call SimulateTransaction (inr value)
                /\ sim_err value = None.



(** The message classes of the outer handler, in the order it tests them. *)
Definition InvalidArguments (e : Error) : Prop :=
  Substring "Invalid arguments" (err_message e).

Definition RpcConfirmationError (e : Error) : Prop :=
  Substring "Invalid params: invalid type: map, expected a string"
            (err_message e)
  \/ Substring "WrongSize" (err_message e)
  \/ Substring "failed to get transaction" (err_message e).

Definition AlreadyProcessed (e : Error) : Prop :=
  Substring "This transaction has already been processed" (err_message e).

Definition BlockhashExpiry (e : Error) : Prop :=
  Substring "Blockhash not found" (err_message e)
  \/ Substring "TransactionExpiredBlockheightExceededError" (err_message e).


Section Reaching.

Variable env : Env.
Variable bs58_encode : list Byte.byte -> string.
Variable JSON_stringify_logs : list string -> string.

(** [ReachesAttempt maxRetries baseDelay attempt w0 w]: a call of
    [sendAndConfirmWithRetry] started in [w0] enters the iteration numbered
    [attempt] in [w]; every iteration before it ended without returning or
    throwing. *)
Inductive ReachesAttempt (maxRetries : nat) (baseDelay : N)
    : nat -> World -> World -> Prop :=
| reaches_first w0 :
    ReachesAttempt maxRetries baseDelay 1 w0 (snd (setFinalSignature None w0))
| reaches_next attempt w0 w w' :
    ReachesAttempt maxRetries baseDelay attempt w0 w ->
    attempt < maxRetries ->
    attemptBody env bs58_encode JSON_stringify_logs attempt maxRetries
                baseDelay w = (Ret Continue, w') ->
    ReachesAttempt maxRetries baseDelay (S attempt) w0 w'.

(** The store in which the iteration numbered [attempt + k] is entered, when
    the [k] iterations from [attempt] on all end without returning or
    throwing. *)
Fixpoint afterAttempts (maxRetries : nat) (baseDelay : N) (k attempt : nat)
    (w : World) : option World :=
  match k with
  | O => Some w
  | S k' =>
      match attemptBody env bs58_encode JSON_stringify_logs attempt maxRetries
                        baseDelay w with
      | (Ret Continue, w') =>
          afterAttempts maxRetries baseDelay k' (S attempt) w'
      | _ => None
      end
  end.

(** C5 as the code does it, for an error [err] thrown in the attempt that
    left the store [w1]: the first signature of the transaction is looked up
    (with the rate-limit retries), and the call ends with that signature when
    a status without error is found, with the 'already processed' error
    otherwise. *)
Definition ChecksStatusOfFirstSignature (maxRetries : nat) (baseDelay : N)
    (w0 w1 : World) : Prop :=
  let signature := firstSignature bs58_encode (tx_signatures w1) in
  sendAndConfirmWithRetry env bs58_encode JSON_stringify_logs maxRetries
                          baseDelay w0
  = match withRetryDefault env (call env (GetTransaction signature)) w1 with
    | (Ret (Some (Some status)), w2) =>
        match meta_err status with
        | None => (Ret (Some (SigString signature)), w2)
        | Some _ =>
            (Throw (newError "Transaction already processed but failed or not found"),
             w2)
        end
    | (_, w2) =>
        (Throw (newError "Transaction already processed but failed or not found"),
         w2)
    end.

End Reaching.

(** C5 and C10 as the spec words them: whatever else the message contains. *)
Definition AlreadyProcessedAsStated (env : Env)
    (bs58_encode : list Byte.byte -> string)
    (JSON_stringify_logs : list string -> string)
    (maxRetries : nat) (baseDelay : N) (w0 : World) : Prop :=
  forall attempt w w1 err,
    ReachesAttempt env bs58_encode JSON_stringify_logs maxRetries baseDelay
                   attempt w0 w ->
    attempt <= maxRetries ->
    attemptTry env attempt maxRetries w = (Throw err, w1) ->
    AlreadyProcessed err ->
    ChecksStatusOfFirstSignature env bs58_encode JSON_stringify_logs
                                 maxRetries baseDelay w0 w1.

Definition BlockhashExpiryAsStated (env : Env)
    (bs58_encode : list Byte.byte -> string)
    (JSON_stringify_logs : list string -> string)
    (maxRetries : nat) (baseDelay : N) (w0 : World) : Prop :=
  forall w w1 err,
    ReachesAttempt env bs58_encode JSON_stringify_logs maxRetries baseDelay
                   maxRetries w0 w ->
    attemptTry env maxRetries maxRetries w = (Throw err, w1) ->
    BlockhashExpiry err ->
    sendAndConfirmWithRetry env bs58_encode JSON_stringify_logs maxRetries
                            baseDelay w0 = (Ret None, w1).

(** What [withRetry] around one call leaves in the trace before its last
    call: earlier calls of the same operation and the waits between them. *)
Definition RetryNoise (op : Op) (e : Event) : Prop :=
  (exists r, e = Call op r) \/ (exists ms jitter, e = Sleep ms jitter).

(** How the outcome of [withRetry] around one call relates to the answer of
    its last call. *)
Definition LastAnswer {A} (o : Outcome (option A)) (r : Error + A) : Prop :=
  match o with
  | Ret (Some a) => r = inr a
  | Ret None => False
  | Throw _ => exists e, r = inl e
  end.

(** C7 as the spec words it, on the events of one attempt. *)
Definition ExactlyOneRpcRequest (evs : list Event) : Prop :=
  rpcRequests evs = 1.

(** What the code does on one attempt: at most one send, never as the only
    request. *)
Definition OneSendAmongRequests (evs : list Event) : Prop :=
  sends evs <= 1
  /\ (exists r rest, evs = Call GetLatestBlockhash r :: rest)
  /\ (sends evs = 1 -> 3 <= rpcRequests evs).

(** The first event of an attempt is a request for the latest blockhash. *)
Definition StartsWithBlockhash (evs : list Event) : Prop :=
  exists r rest, evs = Call GetLatestBlockhash r :: rest.

(** The events of one attempt: either nothing is sent, or one send directly
    follows a simulation call. *)
Definition AttemptShape (attempt maxRetries : nat) (evs : list Event) : Prop :=
  StartsWithBlockhash evs
  /\ (Forall NotSend evs
      \/ exists pre sim s post,
           evs = pre ++ [sim] ++ Call SendAndConfirm s :: post
           /\ Forall NotSend pre
           /\ Forall NotSend post
           /\ SimulationCall sim
           /\ (CleanSimulation sim \/ attempt = maxRetries)
           /\ 1 <= rpcRequests pre).


(** The refusal of an action: an error is set, and after it no instruction
    is built and no transaction submitted. *)
Definition Refused (action : M unit) (w : World) : Prop :=
  exists message evs,
    trace (snd (action w)) = trace w ++ SetError (Some message) :: evs
    /\ Forall NoTransaction evs.

(** The spec's "blank": nothing but white space. *)
Definition Blank (s : string) : Prop := allSpace s = true.

(** The spec's "admin key or one of the three moderator keys". *)
Definition Privileged (wallet : option string) : Prop :=
  exists key,
    wallet = Some key
    /\ (key = ADMIN_PUBLIC_KEY \/ In key MODERATOR_PUBLIC_KEYS).

Section Guards.

Variable env : Env.
Variable bs58_encode : list Byte.byte -> string.
Variable JSON_stringify_logs : list string -> string.
Variable numberToString : Q -> string.

(** The refresh of [executeTransactionSilently] in the spec's words:
    [RefreshRuns forumPda attempt w w'] runs the attempts from the one
    numbered [attempt] on, until one succeeds or the third has failed; a
    failure is swallowed and followed by a wait of one second. *)
Inductive RefreshRuns (forumPda : option string)
    : nat -> World -> World -> Prop :=
| refresh_done attempt w w1 :
    refreshData env forumPda w = (Ret tt, w1) ->
    RefreshRuns forumPda attempt w w1
| refresh_again attempt w e w1 w2 :
    attempt < 3 ->
    refreshData env forumPda w = (Throw e, w1) ->
    RefreshRuns forumPda (S attempt) (emit (Sleep 1000 None) w1) w2 ->
    RefreshRuns forumPda attempt w w2
| refresh_gives_up w e w1 :
    refreshData env forumPda w = (Throw e, w1) ->
    RefreshRuns forumPda 3 w (emit (Sleep 1000 None) w1).

(** C8: the actions whose content is over the limit or blank. *)
Inductive OverLimit (c : Component) : M unit -> Prop :=
| over_post :
    280 < String.length (categorize (newPostCategory c) (newPostContent c))
    \/ Blank (categorize (newPostCategory c) (newPostContent c)) ->
    OverLimit c (createPost env bs58_encode JSON_stringify_logs
                            numberToString c)
| over_reply postId content :
    newReplyContent c !! postId = Some content ->
    280 < String.length content \/ Blank content ->
    OverLimit c (createReply env bs58_encode JSON_stringify_logs
                             numberToString c postId)
| over_reportPost postId :
    100 < String.length (reportReason c) \/ Blank (reportReason c) ->
    OverLimit c (reportPost env bs58_encode JSON_stringify_logs
                            numberToString c postId)
| over_reportReply replyId :
    100 < String.length (reportReason c) \/ Blank (reportReason c) ->
    OverLimit c (reportReply env bs58_encode JSON_stringify_logs
                             numberToString c replyId).


End Guards.

(** The events of a refresh of the component's data. *)
Definition RefreshEvent (e : Event) : Prop :=
  match e with
  | Call FetchForum _ | Call PostAll _ | Call ReplyAll _
  | Call PostReportAll _ | Call ReplyReportAll _ => True
  | Sleep _ _ => True
  | SetForum _ | SetPosts _ | SetReplies _ | SetPostReports _
  | SetReplyReports _ => True
  | _ => False
  end.

(** A poll of the bridge order that answered 'Fulfilled', and a balance
    request whose answer covers the post fee. *)
Definition FulfilledPoll (e : Event) : Prop :=
  exists orderId response,
    e = Call (FetchOrderStatus orderId) (inr response)
    /\ resp_json response = inr (Some "Fulfilled").

Definition BalanceCovers (e : Event) : Prop :=
  exists account balance,
    e = Call (GetBalance account) (inr balance)
    /\ (POST_FEE_LAMPORTS <= balance)%Z.

Definition isStatusPoll (e : Event) : bool :=
  match e with
  | Call (FetchOrderStatus _) _ => true
  | _ => false
  end.

Definition statusPolls (evs : list Event) : nat :=
  List.length (List.filter isStatusPoll evs).


(** How far a run of the flow got: it threw before anything was built, or
    the events [before] the post are free of transactions and hold the
    evidence [Evidence]. *)
Definition BridgeShape (Evidence : list Event -> Prop) {A}
    (o : Outcome A) (evs : list Event) : Prop :=
  (Forall NoTransaction evs /\ exists e, o = Throw e)
  \/ (exists before after,
        evs = before ++ after
        /\ Forall NoTransaction before
        /\ Evidence before).

Definition Funded (evs : list Event) : Prop :=
  (exists poll, In poll evs /\ FulfilledPoll poll)
  /\ (exists balance, In balance evs /\ BalanceCovers balance).

Definition Shaped (Evidence : list Event -> Prop) {A} (m : M A) : Prop :=
  forall w, exists evs,
    trace (snd (m w)) = trace w ++ evs
    /\ BridgeShape Evidence (fst (m w)) evs.

(** Every run of [m] leaves the local [finalSignature] alone. *)
Definition KeepsSignature {A} (m : M A) : Prop :=
  forall w, finalSignature (snd (m w)) = finalSignature w.

(** Any event at all. *)
Definition Any (e : Event) : Prop := True.

Definition HasBalance (evs : list Event) : Prop :=
  exists balance, In balance evs /\ BalanceCovers balance.



(** ** Vocabulary of the further properties *)

(** Newest first: every post is at least as recent as those after it. *)
Definition NewestFirst (shown : list Post) : Prop :=
  StronglySorted (fun a b => (p_timestamp b <= p_timestamp a)%Z) shown.

(** The posts a section of the forum is about. *)
Definition InSection (activeSection : string) (starredPosts : list string)
    (publicKey : option string) (post : Post) : Prop :=
  if String.eqb activeSection "Starred Posts" then In (p_id post) starredPosts
  else if String.eqb activeSection "My Posts"
  then publicKey = Some (p_author post)
  else if String.eqb activeSection "Reported Posts"
  then p_isReported post = true \/ (0 < p_reportCount post)%Z
  else if String.eqb activeSection "All" then True
  else p_category post = activeSection.

(** The words [categorizePost] looks for. *)
Definition keywords : list string :=
  [ "meme launch"; "meme coin"; "solana gem"; "hidden gem"; "politics";
    "election"; "dev help"; "coding"; "announcement"; "update";
    "solana dapp"; "new dapp"; "solcial" ].

(** Content that mentions none of them, in whatever case. *)
Definition Plain (content : string) : Prop :=
  forall keyword, In keyword keywords ->
                  ~ Substring keyword (Js.toLowerCase content).

(** Does a proper beginning of [needle] end [hay]?  Then [needle] may lie
    across the end of [hay] and the start of what follows it. *)
Fixpoint overlaps (hay needle : string) : bool :=
  match hay with
  | EmptyString => false
  | String _ rest =>
      (Js.startsWith needle hay
       && Nat.ltb (String.length hay) (String.length needle))
      || overlaps rest needle
  end.

(** A wallet that cannot pay a fee in SOLCIAL: its balance is below the fee
    or not loaded. *)
Definition SolcialShort (c : Component) (fee : Z) : Prop :=
  match solcialBalance c with
  | Some balance => (balance < inject_Z fee)%Q
  | None => True
  end.

(** Among the events, a request for the balance of the connected wallet
    whose answer covers [fee]. *)
Definition WalletCovers (c : Component) (fee : Z) (evs : list Event) : Prop :=
  exists pk balance,
    publicKey c = Some pk
    /\ In (Call (GetBalance pk) (inr balance)) evs
    /\ (fee <= balance)%Z.

(** Whatever builds an instruction or submits a transaction comes after
    events that hold the evidence. *)
Definition OnlyAfter (Evidence : list Event -> Prop) (evs : list Event)
    : Prop :=
  forall pre e post,
    evs = pre ++ e :: post ->
    isInstructionEvent e = true \/ isSendEvent e = true ->
    Evidence pre.

Section Actions.

Variable env : Env.
Variable bs58_encode : list Byte.byte -> string.
Variable JSON_stringify_logs : list string -> string.
Variable numberToString : Q -> string.

(** The actions that go through [executeTransactionSilently]. *)
Inductive Action (c : Component) : M unit -> Prop :=
| action_createPost :
    Action c (createPost env bs58_encode JSON_stringify_logs numberToString c)
| action_createReply postId :
    Action c (createReply env bs58_encode JSON_stringify_logs numberToString
                          c postId)
| action_ratePost postId isUpvote :
    Action c (ratePost env bs58_encode JSON_stringify_logs numberToString
                       c postId isUpvote)
| action_rateReply replyId isUpvote :
    Action c (rateReply env bs58_encode JSON_stringify_logs numberToString
                        c replyId isUpvote)
| action_reportPost postId :
    Action c (reportPost env bs58_encode JSON_stringify_logs numberToString
                         c postId)
| action_reportReply replyId :
    Action c (reportReply env bs58_encode JSON_stringify_logs numberToString
                          c replyId)
| action_resolveReport reportId actionTaken isPostReport :
    Action c (resolveReport env bs58_encode JSON_stringify_logs c reportId
                            actionTaken isPostReport)
| action_deletePost postId :
    Action c (deletePost env bs58_encode JSON_stringify_logs c postId)
| action_deleteReply replyId :
    Action c (deleteReply env bs58_encode JSON_stringify_logs c replyId)
| action_closeReport reportId isPostReport :
    Action c (closeReport env bs58_encode JSON_stringify_logs c reportId
                          isPostReport)
| action_closeForum :
    Action c (closeForum env bs58_encode JSON_stringify_logs c).

(** The actions that cost a fee, with the fee in SOLCIAL tokens and the fee
    in lamports. *)
Inductive Paid (c : Component) : Z -> Z -> M unit -> Prop :=
| paid_createPost :
    Paid c SOLCIAL_POST_FEE POST_FEE_LAMPORTS
         (createPost env bs58_encode JSON_stringify_logs numberToString c)
| paid_createReply postId :
    Paid c SOLCIAL_REPLY_FEE REPLY_FEE_LAMPORTS
         (createReply env bs58_encode JSON_stringify_logs numberToString
                      c postId)
| paid_ratePost postId isUpvote :
    Paid c SOLCIAL_VOTE_FEE VOTE_FEE_LAMPORTS
         (ratePost env bs58_encode JSON_stringify_logs numberToString
                   c postId isUpvote)
| paid_rateReply replyId isUpvote :
    Paid c SOLCIAL_VOTE_FEE VOTE_FEE_LAMPORTS
         (rateReply env bs58_encode JSON_stringify_logs numberToString
                    c replyId isUpvote)
| paid_reportPost postId :
    Paid c SOLCIAL_REPORT_FEE REPORT_FEE_LAMPORTS
         (reportPost env bs58_encode JSON_stringify_logs numberToString
                     c postId)
| paid_reportReply replyId :
    Paid c SOLCIAL_REPORT_FEE REPORT_FEE_LAMPORTS
         (reportReply env bs58_encode JSON_stringify_logs numberToString
                      c replyId).

(** Their transaction functions, for the connected wallet and with the same
    fees. *)
Inductive TransactionFn (c : Component) : Z -> Z -> M unit -> Prop :=
| fn_createPost pk categorizedContent :
    publicKey c = Some pk ->
    TransactionFn c SOLCIAL_POST_FEE POST_FEE_LAMPORTS
      (createPostTransaction env bs58_encode JSON_stringify_logs
                             numberToString c pk categorizedContent)
| fn_createReply pk post content :
    publicKey c = Some pk ->
    TransactionFn c SOLCIAL_REPLY_FEE REPLY_FEE_LAMPORTS
      (createReplyTransaction env bs58_encode JSON_stringify_logs
                              numberToString c pk post content)
| fn_ratePost pk postId post isUpvote :
    publicKey c = Some pk ->
    TransactionFn c SOLCIAL_VOTE_FEE VOTE_FEE_LAMPORTS
      (ratePostTransaction env bs58_encode JSON_stringify_logs numberToString
                           c pk postId post isUpvote)
| fn_rateReply pk replyId reply isUpvote :
    publicKey c = Some pk ->
    TransactionFn c SOLCIAL_VOTE_FEE VOTE_FEE_LAMPORTS
      (rateReplyTransaction env bs58_encode JSON_stringify_logs numberToString
                            c pk replyId reply isUpvote)
| fn_report pk targetId withSolcial plain :
    publicKey c = Some pk ->
    TransactionFn c SOLCIAL_REPORT_FEE REPORT_FEE_LAMPORTS
      (reportTransaction env bs58_encode JSON_stringify_logs numberToString
                         c pk targetId withSolcial plain).

(** A vote that has nothing to vote on: no wallet or no forum address, or a
    target that is not among the loaded posts or replies. *)
Inductive VoteWithoutTarget (c : Component) : M unit -> Prop :=
| vote_post_unconnected postId isUpvote :
    publicKey c = None \/ forumPda c = None ->
    VoteWithoutTarget c (ratePost env bs58_encode JSON_stringify_logs
                                  numberToString c postId isUpvote)
| vote_post_unknown postId isUpvote :
    (forall post, In post (posts c) -> p_id post <> postId) ->
    VoteWithoutTarget c (ratePost env bs58_encode JSON_stringify_logs
                                  numberToString c postId isUpvote)
| vote_reply_unconnected replyId isUpvote :
    publicKey c = None \/ forumPda c = None ->
    VoteWithoutTarget c (rateReply env bs58_encode JSON_stringify_logs
                                   numberToString c replyId isUpvote)
| vote_reply_unknown replyId isUpvote :
    (forall reply, In reply (replies c) -> r_id reply <> replyId) ->
    VoteWithoutTarget c (rateReply env bs58_encode JSON_stringify_logs
                                   numberToString c replyId isUpvote).

End Actions.

(** An error none of the branches of the outer handler of
    [sendAndConfirmWithRetry] is for. *)
Definition Unclassified (err : Error) : Prop :=
  ~ InvalidArguments err
  /\ ~ RpcConfirmationError err
  /\ ~ AlreadyProcessed err
  /\ ~ BlockhashExpiry err
  /\ err_name err <> "SendTransactionError".

(** Polls of the bridge for the order id, and the time spent in timers, in
    milliseconds without the jitter. *)
Definition isOrderPoll (e : Event) : bool :=
  match e with
  | Call (FetchOrderId _) _ => true
  | _ => false
  end.

Definition orderPolls (evs : list Event) : nat :=
  List.length (List.filter isOrderPoll evs).

Definition waited (evs : list Event) : N :=
  fold_right (fun e total =>
                match e with
                | Sleep ms _ => (ms + total)%N
                | _ => total
                end) 0%N evs.

(** A poll of the bridge that answered the order id [id]. *)
Definition OrderPoll (txHash id : string) (e : Event) : Prop :=
  exists response,
    e = Call (FetchOrderId txHash) (inr response)
    /\ resp_json response = inr (Some id).

(** The statuses at which [pollForFulfillment] stops polling. *)
Definition Settled (status : option string) : Prop :=
  status = Some "Fulfilled" \/ status = Some "Failed"
  \/ status = Some "Expired".

(** Numbers [toNumber] accepts, accounts all of whose numbers it accepts,
    and the post the component makes of such an account. *)
Definition safeNumber (z : Z) : bool := (Z.abs z <? 2 ^ 53)%Z.

Definition safePost (account : PostAccount) : bool :=
  safeNumber (pa_rating account) && safeNumber (pa_timestamp account)
  && safeNumber (pa_id account) && safeNumber (pa_reportCount account).

Definition postOf (account : PostAccount) : Post :=
  mkPost (pa_publicKey account) (pa_author account) (pa_content account)
         (pa_rating account) (pa_timestamp account) (pa_id account)
         (categorizePost (pa_content account)) (pa_isReported account)
         (pa_reportCount account).

Definition unsafeNumber : Error :=
  newError "Number can only safely store up to 53 bits".




(** Events of a loader before it stores what [Stored] recognises: no
    transaction, no change of the error or the loading flag, nothing
    stored. *)
Definition Loading (Stored : Event -> Prop) (e : Event) : Prop :=
  NoTransaction e /\ NotUi e /\ ~ Stored e.

Section Loaders.

Variable env : Env.

(** The loaders of the data-fetching effect, each with the event that
    stores the last of its data. *)
Inductive Loader : M unit -> (Event -> Prop) -> Prop :=
| loader_forum :
    Loader (fetchForum env) (fun e => exists forum, e = SetForum (Some forum))
| loader_posts :
    Loader (fetchPosts env) (fun e => exists posts, e = SetPosts posts)
| loader_replies :
    Loader (fetchReplies env) (fun e => exists replies, e = SetReplies replies)
| loader_reports :
    Loader (fetchReports env)
           (fun e => exists reports, e = SetReplyReports reports).

End Loaders.

(** The one error [getPrice] ends with. *)
Definition noPrice : Error :=
  newError "Failed to get price from both CoinGecko and Binance".

(** ** Substrings and blank strings *)

Lemma startsWith_spec (s p : string) :
  Js.startsWith s p = true <-> exists rest, s = (p ++ rest)%string.
Proof.
  revert s. induction p as [|a p IH]; intros s; simpl.
  - split; [intros _; now exists s | reflexivity].
  - destruct s as [|b s].
    + split; [discriminate | intros [rest H]; discriminate].
    + destruct (Ascii.eqb a b) eqn:E; simpl.
      * apply Ascii.eqb_eq in E as ->.
        rewrite IH. split; intros [rest H]; exists rest.
        -- now rewrite H.
        -- now inversion H.
      * apply Ascii.eqb_neq in E.
        split; [discriminate | intros [rest H]; inversion H; congruence].
Qed.

Lemma includes_spec (hay needle : string) :
  Js.includes hay needle = true <-> Substring needle hay.
Proof.
  unfold Substring. induction hay as [|c hay IH]; simpl.
  - destruct (Js.startsWith "" needle) eqn:E.
    + split; [intros _ | reflexivity].
      apply startsWith_spec in E as [rest E]. now exists ""%string, rest.
    + split; [discriminate |].
      intros ([|b before] & after & H); [|discriminate].
      simpl in H. assert (Js.startsWith "" needle = true) as E'
        by (apply startsWith_spec; now exists after).
      congruence.
  - destruct (Js.startsWith (String c hay) needle) eqn:E.
    + split; [intros _ | reflexivity].
      apply startsWith_spec in E as [rest E]. now exists ""%string, rest.
    + rewrite IH. split.
      * intros (before & after & H). exists (String c before), after.
        simpl. now rewrite H.
      * intros ([|b before] & after & H).
        -- simpl in H. assert (Js.startsWith (String c hay) needle = true) as E'
             by (apply startsWith_spec; now exists after).
           congruence.
        -- simpl in H. inversion H. now exists before, after.
Qed.

Lemma msgHas_spec (e : Error) (s : string) :
  msgHas e s = true <-> Substring s (err_message e).
Proof. apply includes_spec. Qed.

Lemma trimEnd_empty (s : string) :
  Js.trimEnd s = ""%string <-> allSpace s = true.
Proof.
  induction s as [|c s IH]; simpl; [tauto|].
  destruct (Js.trimEnd s) eqn:E.
  - destruct (Js.isSpace c); simpl.
    + split; [intros _; now apply IH | reflexivity].
    + split; discriminate.
  - split; [discriminate|].
    intros H. apply andb_true_iff in H as [_ H]. apply IH in H. discriminate.
Qed.

Lemma trimStart_allSpace (s : string) :
  allSpace (Js.trimStart s) = allSpace s.
Proof.
  induction s as [|c s IH]; simpl; [reflexivity|].
  destruct (Js.isSpace c) eqn:E; simpl; [exact IH | now rewrite E].
Qed.

Lemma trim_blank (s : string) :
  Js.truthy (Js.trim s) = false <-> allSpace s = true.
Proof.
  unfold Js.trim. rewrite <- trimStart_allSpace, <- trimEnd_empty.
  destruct (Js.trimEnd (Js.trimStart s)); simpl; split; congruence.
Qed.

(** ** Events emitted by a computation *)

Section Emits.

Variable env : Env.
Variable P : Event -> Prop.

Lemma errorAfter_app (evs1 evs2 : list Event) (error : option string) :
  errorAfter (evs1 ++ evs2) error = errorAfter evs2 (errorAfter evs1 error).
Proof. apply fold_left_app. Qed.

Lemma loadingAfter_app (evs1 evs2 : list Event) (loading : bool) :
  loadingAfter (evs1 ++ evs2) loading
  = loadingAfter evs2 (loadingAfter evs1 loading).
Proof. apply fold_left_app. Qed.

(** Two runs in a row. *)
Lemma emits_seq (w w1 w2 : World) (evs1 evs2 : list Event) :
  trace w1 = trace w ++ evs1 /\ Forall P evs1
  /\ ui_error w1 = errorAfter evs1 (ui_error w)
  /\ ui_loading w1 = loadingAfter evs1 (ui_loading w) ->
  trace w2 = trace w1 ++ evs2 /\ Forall P evs2
  /\ ui_error w2 = errorAfter evs2 (ui_error w1)
  /\ ui_loading w2 = loadingAfter evs2 (ui_loading w1) ->
  trace w2 = trace w ++ evs1 ++ evs2 /\ Forall P (evs1 ++ evs2)
  /\ ui_error w2 = errorAfter (evs1 ++ evs2) (ui_error w)
  /\ ui_loading w2 = loadingAfter (evs1 ++ evs2) (ui_loading w).
Proof.
  intros (T1 & F1 & E1 & L1) (T2 & F2 & E2 & L2).
  rewrite errorAfter_app, loadingAfter_app, <- E1, <- L1, T2, T1, app_assoc.
  repeat split; auto. now apply Forall_app.
Qed.

(** A run that emits nothing and leaves the component alone. *)
Lemma emits_silent {A} (m : M A) :
  (forall w, trace (snd (m w)) = trace w
             /\ ui_error (snd (m w)) = ui_error w
             /\ ui_loading (snd (m w)) = ui_loading w) ->
  Emits P m.
Proof.
  intros H w. destruct (H w) as (T & E & L). exists [].
  rewrite app_nil_r. repeat split; auto.
Qed.

Lemma emits_ret {A} (a : A) : Emits P (ret a).
Proof. now apply emits_silent. Qed.

Lemma emits_throw {A} (e : Error) : Emits P (@throw A e).
Proof. now apply emits_silent. Qed.

Lemma emits_bind {A B} (m : M A) (k : A -> M B) :
  Emits P m -> (forall a, Emits P (k a)) -> Emits P (bind m k).
Proof.
  intros Hm Hk w. unfold bind. destruct (Hm w) as (evs1 & H1).
  destruct (m w) as [[a|e] w1]; simpl in *.
  - destruct (Hk a w1) as (evs2 & H2). exists (evs1 ++ evs2).
    now apply emits_seq with (w1 := w1).
  - now exists evs1.
Qed.

Lemma emits_tryCatch {A} (m : M A) (h : Error -> M A) :
  Emits P m -> (forall e, Emits P (h e)) -> Emits P (tryCatch m h).
Proof.
  intros Hm Hh w. unfold tryCatch. destruct (Hm w) as (evs1 & H1).
  destruct (m w) as [[a|e] w1]; simpl in *.
  - now exists evs1.
  - destruct (Hh e w1) as (evs2 & H2). exists (evs1 ++ evs2).
    now apply emits_seq with (w1 := w1).
Qed.

Lemma emits_tryFinally {A} (m : M A) (cleanup : M unit) :
  Emits P m -> Emits P cleanup -> Emits P (tryFinally m cleanup).
Proof.
  intros Hm Hc w. unfold tryFinally. destruct (Hm w) as (evs1 & H1).
  destruct (m w) as [r w1]; simpl in *.
  destruct (Hc w1) as (evs2 & H2). exists (evs1 ++ evs2).
  now apply emits_seq with (w1 := w1).
Qed.

Lemma emits_log (e : Event) : P e -> NotUi e -> Emits P (log e).
Proof.
  intros H Hui w. exists [e]. simpl.
  repeat split; [now constructor | |]; now destruct e.
Qed.

Lemma emits_call (op : Op) :
  (forall r, P (Call op r)) -> Emits P (call env op).
Proof.
  intros H w. exists [Call op (answer env op (trace w))]. simpl.
  repeat split. constructor; [apply H | constructor].
Qed.

Lemma emits_sleep (ms : N) (jitter : option N) :
  P (Sleep ms jitter) -> Emits P (sleep ms jitter).
Proof. intros H. now apply emits_log. Qed.

Lemma emits_backoffSleep (baseDelay : N) (attempt : nat) :
  (forall ms jitter, P (Sleep ms jitter)) ->
  Emits P (backoffSleep env baseDelay attempt).
Proof.
  intros H w. eexists [_]. simpl. repeat split.
  constructor; [apply H | constructor].
Qed.

Lemma emits_setLoading (b : bool) : P (SetLoading b) -> Emits P (setLoading b).
Proof.
  intros H w. exists [SetLoading b]. simpl. repeat split. now constructor.
Qed.

Lemma emits_setError (e : option string) :
  P (SetError e) -> Emits P (setError e).
Proof.
  intros H w. exists [SetError e]. simpl. repeat split. now constructor.
Qed.

Lemma emits_setFinalSignature (s : option Signature) :
  Emits P (setFinalSignature s).
Proof. now apply emits_silent. Qed.

Lemma emits_getFinalSignature : Emits P getFinalSignature.
Proof. now apply emits_silent. Qed.

Lemma emits_setSignatures (sigs : list SigEntry) : Emits P (setSignatures sigs).
Proof. now apply emits_silent. Qed.

Lemma emits_getSignatures : Emits P getSignatures.
Proof. now apply emits_silent. Qed.

Lemma emits_jsonOf {Body} (response : HttpResponse Body) :
  Emits P (jsonOf response).
Proof. now apply emits_silent. Qed.

Lemma emits_withRetryFrom {A} (fn : M A) (maxRetries : nat) (baseDelay : N)
    (remaining attempt : nat) :
  Emits P fn -> (forall ms jitter, P (Sleep ms jitter)) ->
  Emits P (withRetryFrom env fn maxRetries baseDelay remaining attempt).
Proof.
  intros Hfn Hsleep. revert attempt.
  induction remaining as [|remaining IH]; intros attempt; simpl.
  - apply emits_ret.
  - intros w. destruct (Hfn w) as (evs1 & H1).
    destruct (fn w) as [[a|e] w1]; simpl in *; [now exists evs1|].
    destruct (rateLimited e); [|now exists evs1].
    destruct (Nat.eqb attempt maxRetries); [now exists evs1|].
    assert (Emits P (backoffSleep env baseDelay attempt ;;;
                     withRetryFrom env fn maxRetries baseDelay remaining
                                   (S attempt))%js) as H
      by (apply emits_bind; [now apply emits_backoffSleep | intros _; apply IH]).
    destruct (H w1) as (evs2 & H2). exists (evs1 ++ evs2).
    now apply emits_seq with (w1 := w1).
Qed.

Lemma emits_withRetryDefault {A} (fn : M A) :
  Emits P fn -> (forall ms jitter, P (Sleep ms jitter)) ->
  Emits P (withRetryDefault env fn).
Proof. apply emits_withRetryFrom. Qed.

Lemma emits_mapM {A B} (f : A -> M B) (l : list A) :
  (forall a, Emits P (f a)) -> Emits P (mapM f l).
Proof.
  intros Hf. induction l as [|a l IH]; simpl.
  - apply emits_ret.
  - apply emits_bind; [apply Hf | intros b].
    apply emits_bind; [apply IH | intros bs]. apply emits_ret.
Qed.

(** Without events on the component, [error] and [loading] are kept. *)
Lemma emits_keeps_ui {A} (m : M A) (w : World) :
  Emits P m -> (forall e, P e -> NotUi e) ->
  ui_error (snd (m w)) = ui_error w /\ ui_loading (snd (m w)) = ui_loading w.
Proof.
  intros Hm Hui. destruct (Hm w) as (evs & _ & F & -> & ->).
  generalize (ui_error w) (ui_loading w).
  induction F as [|e evs He _ IH]; intros error loading; [now split|].
  unfold errorAfter, loadingAfter in *. simpl.
  apply Hui in He. destruct e; simpl in He; try contradiction; apply IH.
Qed.

End Emits.

(** ** withRetry *)

Section WithRetry.

Variable env : Env.

Lemma rateLimited_spec (e : Error) :
  rateLimited e = true <-> RateLimitError e.
Proof.
  unfold rateLimited, RateLimitError.
  rewrite orb_true_iff, !msgHas_spec. reflexivity.
Qed.

Lemma rateLimited_false (e : Error) :
  rateLimited e = false <-> ~ RateLimitError e.
Proof.
  rewrite <- rateLimited_spec. destruct (rateLimited e); split; congruence.
Qed.

(** The loop, from any iteration that is still allowed. *)
Lemma withRetryFrom_run {A} (fn : M A) (maxRetries : nat) (baseDelay : N)
    (remaining attempt : nat) (w : World) :
  attempt + remaining = S maxRetries ->
  1 <= remaining ->
  exists n,
    RetryRun fn maxRetries baseDelay attempt w
      (fst (withRetryFrom env fn maxRetries baseDelay remaining attempt w))
      (snd (withRetryFrom env fn maxRetries baseDelay remaining attempt w)) n
    /\ n <= remaining.
Proof.
  revert attempt w.
  induction remaining as [|remaining IH]; intros attempt w Hsum Hpos; [lia|].
  simpl. destruct (fn w) as [[a|e] w1] eqn:Efn.
  - exists 1. split; [now apply retry_returns | lia].
  - destruct (rateLimited e) eqn:Erl.
    + apply rateLimited_spec in Erl.
      destruct (Nat.eqb attempt maxRetries) eqn:Elast.
      * apply Nat.eqb_eq in Elast. subst attempt.
        exists 1. split; [now apply retry_gives_up with (e := e) | lia].
      * apply Nat.eqb_neq in Elast.
        unfold bind, backoffSleep, sleep, log, backoff. simpl.
        destruct (IH (S attempt)
                     (emit (Sleep (baseDelay * 2 ^ N.of_nat (attempt - 1))
                                  (Some (random env (trace w1)))) w1))
          as (n & Hrun & Hn); [lia | lia |].
        exists (S n). split; [|lia].
        eapply retry_waits; eauto. lia.
    + apply rateLimited_false in Erl.
      exists 1. split; [now apply retry_rethrows | lia].
Qed.

(** With no attempt allowed the body never runs: [fn] is not invoked and the
    call resolves to [undefined]. *)
Lemma withRetry_zero {A} (fn : M A) (baseDelay : N) (w : World) :
  withRetry env fn 0 baseDelay w = (Ret None, w).
Proof. reflexivity. Qed.

(** C2. [withRetry(fn, maxRetries, baseDelay)] behaves as the spec says: it
    returns what [fn] returns; an error whose message contains neither '429'
    nor 'Too Many Requests' is rethrown at once; a rate-limiting error on an
    attempt before the last is followed by a wait of
    [baseDelay * 2^(attempt-1)] plus jitter and one more attempt; on the last
    attempt it is replaced by 'Max retries reached due to rate limiting'; and
    [fn] is invoked at most [maxRetries] times. *)
Theorem withRetry_retries_rate_limits_only {A} (fn : M A) (maxRetries : nat)
    (baseDelay : N) (w : World) :
  1 <= maxRetries ->
  exists n,
    RetryRun fn maxRetries baseDelay 1 w
      (fst (withRetry env fn maxRetries baseDelay w))
      (snd (withRetry env fn maxRetries baseDelay w)) n
    /\ n <= maxRetries.
Proof.
  intros Hpos. unfold withRetry. apply withRetryFrom_run; lia.
Qed.

End WithRetry.

(** ** Stepping through the monad *)

Lemma bind_ret {A B} (m : M A) (k : A -> M B) (w w1 : World) (a : A) :
  m w = (Ret a, w1) -> bind m k w = k a w1.
Proof. intros H. unfold bind. now rewrite H. Qed.

Lemma bind_throw {A B} (m : M A) (k : A -> M B) (w w1 : World) (e : Error) :
  m w = (Throw e, w1) -> bind m k w = (Throw e, w1).
Proof. intros H. unfold bind. now rewrite H. Qed.

Lemma tryCatch_ret {A} (m : M A) (h : Error -> M A) (w w1 : World) (a : A) :
  m w = (Ret a, w1) -> tryCatch m h w = (Ret a, w1).
Proof. intros H. unfold tryCatch. now rewrite H. Qed.

Lemma tryCatch_throw {A} (m : M A) (h : Error -> M A) (w w1 : World)
    (e : Error) :
  m w = (Throw e, w1) -> tryCatch m h w = h e w1.
Proof. intros H. unfold tryCatch. now rewrite H. Qed.

Lemma msgHas_false (e : Error) (s : string) :
  msgHas e s = false <-> ~ Substring s (err_message e).
Proof.
  rewrite <- msgHas_spec. destruct (msgHas e s); split; congruence.
Qed.

(** ** sendAndConfirmWithRetry: the loop *)

Section SendAndConfirm.

Variable env : Env.
Variable bs58_encode : list Byte.byte -> string.
Variable JSON_stringify_logs : list string -> string.

Local Abbreviation attemptBody' := (attemptBody env bs58_encode JSON_stringify_logs).
Local Abbreviation attemptCatch' :=
  (attemptCatch env bs58_encode JSON_stringify_logs).
Local Abbreviation sendLoop' := (sendLoop env bs58_encode JSON_stringify_logs).
Local Abbreviation sendAndConfirmWithRetry' :=
  (sendAndConfirmWithRetry env bs58_encode JSON_stringify_logs).
Local Abbreviation Reaches := (ReachesAttempt env bs58_encode JSON_stringify_logs).

Lemma sendLoop_return (maxRetries : nat) (baseDelay : N)
    (remaining attempt : nat) (w w' : World) (s : Signature) :
  attemptBody' attempt maxRetries baseDelay w = (Ret (Return s), w') ->
  sendLoop' maxRetries baseDelay (S remaining) attempt w = (Ret (Some s), w').
Proof. intros H. simpl. now rewrite (bind_ret _ _ _ _ _ H). Qed.

Lemma sendLoop_throw (maxRetries : nat) (baseDelay : N)
    (remaining attempt : nat) (w w' : World) (e : Error) :
  attemptBody' attempt maxRetries baseDelay w = (Throw e, w') ->
  sendLoop' maxRetries baseDelay (S remaining) attempt w = (Throw e, w').
Proof. intros H. simpl. now rewrite (bind_throw _ _ _ _ _ H). Qed.

Lemma sendLoop_continue (maxRetries : nat) (baseDelay : N)
    (remaining attempt : nat) (w w' : World) :
  attemptBody' attempt maxRetries baseDelay w = (Ret Continue, w') ->
  sendLoop' maxRetries baseDelay (S remaining) attempt w
  = sendLoop' maxRetries baseDelay remaining (S attempt) w'.
Proof. intros H. simpl. now rewrite (bind_ret _ _ _ _ _ H). Qed.

(** A call that has reached an attempt is the loop run from that attempt. *)
Lemma reaches_loop (maxRetries : nat) (baseDelay : N) (attempt : nat)
    (w0 w : World) :
  Reaches maxRetries baseDelay attempt w0 w ->
  sendAndConfirmWithRetry' maxRetries baseDelay w0
  = sendLoop' maxRetries baseDelay (S maxRetries - attempt) attempt w.
Proof.
  induction 1 as [w0 | attempt w0 w w' _ IH Hlt Hbody].
  - unfold sendAndConfirmWithRetry, bind. simpl.
    now rewrite Nat.sub_0_r.
  - rewrite IH. replace (S maxRetries - attempt) with (S (S maxRetries - S attempt))
      by lia.
    now apply sendLoop_continue.
Qed.

Lemma afterAttempts_reaches (maxRetries : nat) (baseDelay : N)
    (k attempt : nat) (w0 w w' : World) :
  Reaches maxRetries baseDelay attempt w0 w ->
  attempt + k <= maxRetries ->
  afterAttempts env bs58_encode JSON_stringify_logs maxRetries baseDelay
                k attempt w = Some w' ->
  Reaches maxRetries baseDelay (attempt + k) w0 w'.
Proof.
  revert attempt w. induction k as [|k IH]; intros attempt w Hreach Hle Hrun.
  - simpl in Hrun. injection Hrun as <-. now rewrite Nat.add_0_r.
  - simpl in Hrun.
    destruct (attemptBody' attempt maxRetries baseDelay w)
      as [[[|s]|e] w1] eqn:Hbody; try discriminate Hrun.
    replace (attempt + S k) with (S attempt + k) by lia.
    apply IH with (w := w1); [|lia|exact Hrun].
    eapply reaches_next; eauto. lia.
Qed.

Lemma reaches_bounds (maxRetries : nat) (baseDelay : N) (attempt : nat)
    (w0 w : World) :
  Reaches maxRetries baseDelay attempt w0 w ->
  1 <= attempt /\ (attempt <= maxRetries \/ attempt = 1).
Proof. induction 1; lia. Qed.

(** The outer handler on an error of the 'already processed' class. *)
Lemma attemptCatch_alreadyProcessed (attempt maxRetries : nat) (baseDelay : N)
    (err : Error) :
  AlreadyProcessed err ->
  ~ InvalidArguments err ->
  ~ RpcConfirmationError err ->
  attemptCatch' attempt maxRetries baseDelay err
  = alreadyProcessed env bs58_encode.
Proof.
  unfold AlreadyProcessed, InvalidArguments, RpcConfirmationError.
  intros Hap Hia Hrpc. unfold attemptCatch.
  apply msgHas_false in Hia. rewrite Hia.
  assert (msgHas err "Invalid params: invalid type: map, expected a string"
          || msgHas err "WrongSize"
          || msgHas err "failed to get transaction" = false) as ->.
  { rewrite !orb_false_iff, !msgHas_false. tauto. }
  apply msgHas_spec in Hap. now rewrite Hap.
Qed.

(** The outer handler on an error of the blockhash-expiry class. *)
Lemma attemptCatch_blockhash (attempt maxRetries : nat) (baseDelay : N)
    (err : Error) (w : World) :
  BlockhashExpiry err ->
  ~ InvalidArguments err ->
  ~ RpcConfirmationError err ->
  ~ AlreadyProcessed err ->
  attemptCatch' attempt maxRetries baseDelay err w = (Ret Continue, w).
Proof.
  unfold AlreadyProcessed, InvalidArguments, RpcConfirmationError,
    BlockhashExpiry.
  intros Hbh Hia Hrpc Hap. unfold attemptCatch.
  apply msgHas_false in Hia, Hap. rewrite Hia.
  assert (msgHas err "Invalid params: invalid type: map, expected a string"
          || msgHas err "WrongSize"
          || msgHas err "failed to get transaction" = false) as ->.
  { rewrite !orb_false_iff, !msgHas_false. tauto. }
  rewrite Hap.
  assert (msgHas err "Blockhash not found"
          || msgHas err "TransactionExpiredBlockheightExceededError" = true)
    as ->.
  { rewrite orb_true_iff, !msgHas_spec. exact Hbh. }
  reflexivity.
Qed.

(** C10 (amended). If the last allowed attempt throws an error whose message
    contains 'Blockhash not found' or
    'TransactionExpiredBlockheightExceededError', and none of the texts the
    handler tests before ('Invalid arguments', the RPC confirmation texts,
    'This transaction has already been processed'), the loop is left and the
    call resolves to [undefined]: no signature, no error. *)
Theorem last_attempt_blockhash_expiry_returns_undefined
    (maxRetries : nat) (baseDelay : N) (w0 w w1 : World) (err : Error) :
  Reaches maxRetries baseDelay maxRetries w0 w ->
  attemptTry env maxRetries maxRetries w = (Throw err, w1) ->
  BlockhashExpiry err ->
  ~ InvalidArguments err ->
  ~ RpcConfirmationError err ->
  ~ AlreadyProcessed err ->
  sendAndConfirmWithRetry' maxRetries baseDelay w0 = (Ret None, w1).
Proof.
  intros Hreach Htry Hbh Hia Hrpc Hap.
  rewrite (reaches_loop _ _ _ _ _ Hreach).
  replace (S maxRetries - maxRetries) with 1 by lia.
  assert (attemptBody' maxRetries maxRetries baseDelay w = (Ret Continue, w1))
    as Hbody.
  { unfold attemptBody. rewrite (tryCatch_throw _ _ _ _ _ Htry).
    now apply attemptCatch_blockhash. }
  now rewrite (sendLoop_continue _ _ _ _ _ _ Hbody).
Qed.

(** C5 (amended). When an attempt throws an error whose message contains
    'This transaction has already been processed', and none of the texts the
    handler tests before ('Invalid arguments', the RPC confirmation texts),
    the wrapper takes the transaction's first signature, fetches its status,
    and ends at once: with that signature when a status without error is
    found, with 'Transaction already processed but failed or not found'
    otherwise.  It does not retry, whatever the attempt. *)
Theorem already_processed_checks_status
    (maxRetries : nat) (baseDelay : N) (attempt : nat) (w0 w w1 : World)
    (err : Error) :
  Reaches maxRetries baseDelay attempt w0 w ->
  attempt <= maxRetries ->
  attemptTry env attempt maxRetries w = (Throw err, w1) ->
  AlreadyProcessed err ->
  ~ InvalidArguments err ->
  ~ RpcConfirmationError err ->
  ChecksStatusOfFirstSignature env bs58_encode JSON_stringify_logs
                               maxRetries baseDelay w0 w1.
Proof.
  intros Hreach Hle Htry Hap Hia Hrpc. unfold ChecksStatusOfFirstSignature.
  rewrite (reaches_loop _ _ _ _ _ Hreach).
  replace (S maxRetries - attempt) with (S (maxRetries - attempt)) by lia.
  assert (attemptBody' attempt maxRetries baseDelay w
          = alreadyProcessed env bs58_encode w1) as Hbody.
  { unfold attemptBody. rewrite (tryCatch_throw _ _ _ _ _ Htry).
    now rewrite attemptCatch_alreadyProcessed. }
  unfold alreadyProcessed, bind, getSignatures, tryCatch in Hbody.
  cbv beta in Hbody.
  destruct (withRetryDefault env
              (call env (GetTransaction
                           (firstSignature bs58_encode (tx_signatures w1)))) w1)
    as [[[[status|]|]|e] w2].
  - destruct (meta_err status); simpl in Hbody.
    + now apply sendLoop_throw.
    + now apply sendLoop_return.
  - simpl in Hbody. now apply sendLoop_throw.
  - simpl in Hbody. now apply sendLoop_throw.
  - simpl in Hbody. now apply sendLoop_throw.
Qed.


End SendAndConfirm.

(** ** Events of the wrappers *)

Ltac side_condition :=
  intros;
  first [ reflexivity | split; reflexivity | exact I | solve [eauto] ].

Ltac emits_step :=
  lazymatch goal with
  | |- Emits _ (ret _) => apply emits_ret
  | |- Emits _ (throw _) => apply emits_throw
  | |- Emits _ (bind _ _) => apply emits_bind; [|intros ?]
  | |- Emits _ (tryCatch _ _) => apply emits_tryCatch; [|intros ?]
  | |- Emits _ (tryFinally _ _) => apply emits_tryFinally
  | |- Emits _ (withRetryDefault _ _) =>
      apply emits_withRetryDefault; [|solve [side_condition]]
  | |- Emits _ (call _ _) => apply emits_call; solve [side_condition]
  | |- Emits _ (log _) => apply emits_log; [solve [side_condition] | exact I]
  | |- Emits _ (sleep _ _) => apply emits_sleep; solve [side_condition]
  | |- Emits _ (backoffSleep _ _ _) =>
      apply emits_backoffSleep; solve [side_condition]
  | |- Emits _ (setLoading _) => apply emits_setLoading; solve [side_condition]
  | |- Emits _ (setError _) => apply emits_setError; solve [side_condition]
  | |- Emits _ (setFinalSignature _) => apply emits_setFinalSignature
  | |- Emits _ getFinalSignature => apply emits_getFinalSignature
  | |- Emits _ (setSignatures _) => apply emits_setSignatures
  | |- Emits _ getSignatures => apply emits_getSignatures
  | |- Emits _ (jsonOf _) => apply emits_jsonOf
  | |- Emits _ (mapM _ _) => apply emits_mapM; intros ?
  | |- Emits _ (match ?x with _ => _ end) => destruct x
  | |- Emits _ ((fun _ => _) _) => cbv beta
  | |- Emits _ _ => assumption
  end.

Ltac emits := repeat emits_step.

Section Wrappers.

Variable env : Env.
Variable bs58_encode : list Byte.byte -> string.
Variable JSON_stringify_logs : list string -> string.

Lemma emits_defined (P : Event -> Prop) {A} (what : string) (v : option A) :
  Emits P (defined what v).
Proof. unfold defined. emits. Qed.

Lemma emits_toNumber (P : Event -> Prop) (z : Z) : Emits P (toNumber z).
Proof. unfold toNumber. emits. Qed.

Lemma emits_confirm (P : Event -> Prop) (signature : Signature) :
  (forall s r, P (Call (GetTransaction s) r)) ->
  (forall ms jitter, P (Sleep ms jitter)) ->
  Emits P (confirm env signature).
Proof.
  intros Hget Hsleep. unfold confirm, confirmStep, confirmCatch. emits.
Qed.

Lemma emits_attemptCatch (P : Event -> Prop) (attempt maxRetries : nat)
    (baseDelay : N) (err : Error) :
  (forall s r, P (Call (GetTransaction s) r)) ->
  (forall r, P (Call GetLogs r)) ->
  (forall ms jitter, P (Sleep ms jitter)) ->
  Emits P (attemptCatch env bs58_encode JSON_stringify_logs attempt maxRetries
                        baseDelay err).
Proof.
  intros Hget Hlogs Hsleep.
  unfold attemptCatch, alreadyProcessed, getLogsOf. emits.
Qed.

(** [withRetry] around one call: the trace ends with a call of that
    operation, whose answer decides the outcome. *)
Lemma withRetryFrom_call_last (op : Op) (maxRetries : nat) (baseDelay : N)
    (remaining attempt : nat) (w : World) :
  1 <= remaining ->
  attempt + remaining = S maxRetries ->
  exists evs r,
    trace (snd (withRetryFrom env (call env op) maxRetries baseDelay
                              remaining attempt w))
    = trace w ++ evs ++ [Call op r]
    /\ Forall (RetryNoise op) evs
    /\ LastAnswer (fst (withRetryFrom env (call env op) maxRetries baseDelay
                                      remaining attempt w)) r
    /\ exists r0 rest, evs ++ [Call op r] = Call op r0 :: rest.
Proof.
  revert attempt w.
  induction remaining as [|remaining IH]; intros attempt w Hpos Hsum; [lia|].
  simpl. destruct (answer env op (trace w)) as [e|a]; simpl.
  - destruct (rateLimited e).
    + destruct (Nat.eqb attempt maxRetries) eqn:Elast.
      * exists [], (inl e). simpl. repeat split; eauto.
      * apply Nat.eqb_neq in Elast.
        unfold bind, backoffSleep, sleep, log. simpl.
        match goal with
        | |- context [withRetryFrom _ _ _ _ _ _ ?w1] =>
            destruct (IH (S attempt) w1)
              as (evs & r & Htrace & Hnoise & Hlast & _); [lia | lia |]
        end.
        simpl in Htrace.
        eexists (Call op (inl e) :: Sleep _ _ :: evs), r.
        rewrite Htrace, <- !app_assoc. simpl.
        repeat split; [|exact Hlast|eauto].
        constructor; [left; eauto|]. constructor; [right; eauto|]. exact Hnoise.
    + exists [], (inl e). simpl. repeat split; eauto.
  - exists [], (inr a). simpl. repeat split; eauto.
Qed.

Lemma withRetryDefault_call_last (op : Op) (w : World) :
  exists evs r,
    trace (snd (withRetryDefault env (call env op) w))
    = trace w ++ evs ++ [Call op r]
    /\ Forall (RetryNoise op) evs
    /\ LastAnswer (fst (withRetryDefault env (call env op) w)) r
    /\ exists r0 rest, evs ++ [Call op r] = Call op r0 :: rest.
Proof. apply withRetryFrom_call_last; lia. Qed.

End Wrappers.

(** ** The events of one attempt *)

Lemma sends_app (l1 l2 : list Event) : sends (l1 ++ l2) = sends l1 + sends l2.
Proof. unfold sends. now rewrite List.filter_app, List.length_app. Qed.

Lemma sends_none (l : list Event) : Forall NotSend l -> sends l = 0.
Proof.
  induction 1 as [|e l He _ IH]; [reflexivity|].
  unfold sends in *. simpl. unfold NotSend in He. now rewrite He.
Qed.

Lemma rpcRequests_app (l1 l2 : list Event) :
  rpcRequests (l1 ++ l2) = rpcRequests l1 + rpcRequests l2.
Proof. unfold rpcRequests. now rewrite List.filter_app, List.length_app. Qed.

Lemma retryNoise_notSend (op : Op) (evs : list Event) :
  (forall r, NotSend (Call op r)) ->
  Forall (RetryNoise op) evs -> Forall NotSend evs.
Proof.
  intros Hop. apply List.Forall_impl. intros e [[r ->]|(ms & j & ->)].
  - apply Hop.
  - reflexivity.
Qed.



Section Attempt.

Variable env : Env.
Variable bs58_encode : list Byte.byte -> string.
Variable JSON_stringify_logs : list string -> string.

(** Lines 98-122: the trace ends with the last simulation call, and the
    attempt goes on to send only if that call reported no error or the
    attempt is the last one. *)
Lemma simulateStep_shape (attempt maxRetries : nat) (w : World) :
  exists evs sim,
    trace (snd (simulateStep env attempt maxRetries w))
    = trace w ++ evs ++ [sim]
    /\ Forall (RetryNoise SimulateTransaction) evs
    /\ SimulationCall sim
    /\ (exists proceed, fst (simulateStep env attempt maxRetries w) = Ret proceed)
    /\ (fst (simulateStep env attempt maxRetries w) = Ret true ->
        CleanSimulation sim \/ attempt = maxRetries).
Proof.
  destruct (withRetryDefault_call_last env SimulateTransaction w)
    as (evs & r & Htrace & Hnoise & Hlast & _).
  exists evs, (Call SimulateTransaction r).
  unfold simulateStep, tryCatch, bind.
  destruct (withRetryDefault env (call env SimulateTransaction) w)
    as [[[value|]|e] w1]; simpl in *.
  - subst r. destruct (sim_err value) as [err|] eqn:Eerr; simpl.
    + destruct (Nat.eqb attempt maxRetries) eqn:Elast; simpl.
      * apply Nat.eqb_eq in Elast.
        repeat split; eauto. now exists (inr value).
      * repeat split; eauto; [now exists (inr value) | discriminate].
    + repeat split; eauto; [now exists (inr value)|].
      intros _. left. now exists value.
  - contradiction.
  - destruct Hlast as [e' ->].
    destruct (Nat.eqb attempt maxRetries) eqn:Elast; simpl.
    + apply Nat.eqb_eq in Elast. repeat split; eauto. now exists (inl e').
    + repeat split; eauto; [now exists (inl e') | discriminate].
Qed.

Lemma simulationCall_notSend (sim : Event) : SimulationCall sim -> NotSend sim.
Proof. intros [r ->]. reflexivity. Qed.

Lemma starts_app (evs tail : list Event) :
  StartsWithBlockhash evs -> StartsWithBlockhash (evs ++ tail).
Proof. intros (r & rest & ->). exists r, (rest ++ tail). reflexivity. Qed.

(** Lines 89-122. *)
Lemma prepare_shape (attempt maxRetries : nat) (w : World) :
  exists evs,
    trace (snd (prepare env attempt maxRetries w)) = trace w ++ evs
    /\ Forall NotSend evs
    /\ StartsWithBlockhash evs
    /\ (fst (prepare env attempt maxRetries w) = Ret true ->
        exists pre sim,
          evs = pre ++ [sim]
          /\ SimulationCall sim
          /\ (CleanSimulation sim \/ attempt = maxRetries)
          /\ 1 <= rpcRequests pre).
Proof.
  destruct (withRetryDefault_call_last env GetLatestBlockhash w)
    as (evs1 & r1 & Ht1 & Hn1 & Hl1 & Hfirst).
  apply (retryNoise_notSend GetLatestBlockhash) in Hn1; [|reflexivity].
  assert (Forall NotSend (evs1 ++ [Call GetLatestBlockhash r1])) as Hn1'
    by (apply Forall_app; split; [exact Hn1 | repeat constructor]).
  assert (StartsWithBlockhash (evs1 ++ [Call GetLatestBlockhash r1]))
    as Hstart by exact Hfirst.
  remember (evs1 ++ [Call GetLatestBlockhash r1]) as first eqn:Efirst.
  unfold prepare, bind.
  destruct (withRetryDefault env (call env GetLatestBlockhash) w)
    as [[[blockhash|]|e] w1]; simpl in Ht1, Hl1; simpl.
  - destruct (answer env Serialize (trace w1)) as [e|serialized] eqn:Eser;
      simpl.
    + exists (first ++ [Call Serialize (inl e)]).
      split; [now rewrite Ht1, <- app_assoc|].
      split; [apply Forall_app; split; [exact Hn1' | repeat constructor]|].
      split; [now apply starts_app | discriminate].
    + match goal with
      | |- context [simulateStep env attempt maxRetries ?w2] =>
          destruct (simulateStep_shape attempt maxRetries w2)
            as (evs2 & sim & Ht2 & Hn2 & Hsim & _ & Hgo);
          destruct (simulateStep env attempt maxRetries w2) as [o2 w3]
      end.
      simpl in Ht2, Hgo |- *.
      apply (retryNoise_notSend SimulateTransaction) in Hn2; [|reflexivity].
      exists ((first ++ Call Serialize (inr serialized) :: evs2) ++ [sim]).
      split; [rewrite Ht2, Ht1, <- !app_assoc; reflexivity|].
      split.
      { apply Forall_app. split.
        - apply Forall_app. split; [exact Hn1'|].
          constructor; [reflexivity | exact Hn2].
        - constructor; [now apply simulationCall_notSend | constructor]. }
      split; [rewrite <- app_assoc; now apply starts_app|].
      intros Htrue.
      exists (first ++ Call Serialize (inr serialized) :: evs2), sim.
      split; [reflexivity|]. split; [exact Hsim|]. split; [now apply Hgo|].
      rewrite Efirst, !rpcRequests_app. unfold rpcRequests at 2. simpl. lia.
  - contradiction.
  - exists first. split; [exact Ht1|]. split; [exact Hn1'|].
    split; [exact Hstart | discriminate].
Qed.

(** Lines 124-167: one send, then the confirmation. *)
Lemma submit_shape (w : World) :
  exists s evs,
    trace (snd (submit env w)) = trace w ++ Call SendAndConfirm s :: evs
    /\ Forall NotSend evs.
Proof.
  unfold submit, bind. simpl.
  destruct (answer env SendAndConfirm (trace w)) as [e|signature]; simpl.
  - exists (inl e), []. split; [reflexivity | constructor].
  - match goal with
    | |- context [confirm env signature ?w2] =>
        destruct (emits_confirm env NotSend signature
                    ltac:(reflexivity) ltac:(reflexivity) w2)
          as (evs & Ht & Hn & _)
    end.
    exists (inr signature), evs. simpl in Ht. rewrite Ht, <- app_assoc.
    split; [reflexivity | exact Hn].
Qed.

(** One iteration of the loop. *)
Lemma attempt_shape (attempt maxRetries : nat) (baseDelay : N) (w : World) :
  exists evs,
    trace (snd (attemptBody env bs58_encode JSON_stringify_logs attempt
                            maxRetries baseDelay w))
    = trace w ++ evs
    /\ AttemptShape attempt maxRetries evs.
Proof.
  destruct (prepare_shape attempt maxRetries w)
    as (evs1 & Ht1 & Hn1 & Hstart & Hgo).
  assert (forall e, Emits NotSend
            (attemptCatch env bs58_encode JSON_stringify_logs attempt
                          maxRetries baseDelay e)) as Hcatch
    by (intros e; apply emits_attemptCatch; reflexivity).
  unfold attemptBody, tryCatch, attemptTry, bind.
  destruct (prepare env attempt maxRetries w) as [[[|]|e] w1];
    simpl in Ht1, Hgo |- *.
  - destruct (Hgo eq_refl) as (pre & sim & Eevs & Hsim & Hclean & Hrpc).
    destruct (submit_shape w1) as (s & evs2 & Ht2 & Hn2).
    assert (Forall NotSend pre) as Hpre
      by (rewrite Eevs in Hn1; now apply Forall_app in Hn1 as [Hpre _]).
    destruct (submit env w1) as [[ctl|e] w2]; simpl in Ht2 |- *.
    + exists (evs1 ++ Call SendAndConfirm s :: evs2).
      split; [rewrite Ht2, Ht1, <- app_assoc; reflexivity|].
      split; [now apply starts_app|].
      right. exists pre, sim, s, evs2.
      split; [rewrite Eevs, <- app_assoc; reflexivity | auto].
    + destruct (Hcatch e w2) as (evs3 & Ht3 & Hn3 & _).
      exists (evs1 ++ Call SendAndConfirm s :: evs2 ++ evs3).
      split; [rewrite Ht3, Ht2, Ht1, <- !app_assoc; reflexivity|].
      split; [now apply starts_app|].
      right. exists pre, sim, s, (evs2 ++ evs3).
      split; [rewrite Eevs, <- app_assoc; reflexivity|].
      split; [exact Hpre|]. split; [now apply Forall_app | auto].
  - exists evs1. split; [exact Ht1|]. split; [exact Hstart | now left].
  - destruct (Hcatch e w1) as (evs3 & Ht3 & Hn3 & _).
    exists (evs1 ++ evs3).
    split; [rewrite Ht3, Ht1, <- app_assoc; reflexivity|].
    split; [now apply starts_app|].
    left. now apply Forall_app.
Qed.


(** C7 (amended). On each attempt the wrapper sends the transaction at most
    once, and the send is not its only RPC request: every attempt begins with
    a request for the latest blockhash, and an attempt that sends has issued
    at least three requests (blockhash, simulation, send). *)
Theorem attempt_sends_at_most_once (attempt maxRetries : nat) (baseDelay : N)
    (w : World) (evs : list Event) :
  trace (snd (attemptBody env bs58_encode JSON_stringify_logs attempt
                          maxRetries baseDelay w))
  = trace w ++ evs ->
  OneSendAmongRequests evs.
Proof.
  intros Htrace.
  destruct (attempt_shape attempt maxRetries baseDelay w)
    as (evs' & Htrace' & Hstart & Hshape).
  rewrite Htrace in Htrace'. apply app_inv_head in Htrace'. subst evs'.
  unfold OneSendAmongRequests. split; [|split; [exact Hstart|]].
  - destruct Hshape as [Hnone | (pre & sim & s & post & -> & Hpre & Hpost
                                 & Hsim & _)].
    + rewrite (sends_none _ Hnone). lia.
    + rewrite !sends_app, (sends_none _ Hpre). simpl.
      rewrite (sends_none [sim]); [|constructor;
        [now apply simulationCall_notSend | constructor]].
      change (Call SendAndConfirm s :: post)
        with ([Call SendAndConfirm s] ++ post).
      rewrite sends_app, (sends_none _ Hpost). unfold sends. simpl. lia.
  - destruct Hshape as [Hnone | (pre & sim & s & post & -> & Hpre & Hpost
                                 & [r ->] & _ & Hrpc)].
    + rewrite (sends_none _ Hnone). discriminate.
    + intros _. rewrite !rpcRequests_app.
      change (Call SendAndConfirm s :: post)
        with ([Call SendAndConfirm s] ++ post).
      rewrite rpcRequests_app. unfold rpcRequests at 2 3. simpl. lia.
Qed.

End Attempt.

(** ** executeTransactionSilently *)

Lemma emits_weaken {A} (P Q : Event -> Prop) (m : M A) :
  Emits P m -> (forall e, P e -> Q e) -> Emits Q m.
Proof.
  intros Hm Himpl w. destruct (Hm w) as (evs & T & F & E & L).
  exists evs. repeat split; auto. revert F. now apply List.Forall_impl.
Qed.

Lemma refreshEvent_notUi (e : Event) : RefreshEvent e -> NotUi e.
Proof. destruct e as [[]| | | | | | | | |]; simpl; tauto. Qed.

Lemma refreshEvent_noTransaction (e : Event) :
  RefreshEvent e -> NoTransaction e.
Proof.
  destruct e as [[]| | | | | | | | |]; simpl; try tauto;
    intros _; split; reflexivity.
Qed.

Section Silent.

Variable env : Env.

Lemma emits_refreshData (forumPda : option string) :
  Emits RefreshEvent (refreshData env forumPda).
Proof.
  unfold refreshData, decodeForum, decodePost, decodeReply, decodeReport,
    defined, toNumber.
  emits.
Qed.

Lemma emits_refreshLoop (forumPda : option string) (remaining attempt : nat) :
  Emits RefreshEvent (refreshLoop env forumPda remaining attempt).
Proof.
  revert attempt. induction remaining as [|remaining IH]; intros attempt; simpl.
  - apply emits_ret.
  - apply emits_bind.
    + apply emits_tryCatch.
      * apply emits_bind; [apply emits_refreshData | intros _; apply emits_ret].
      * intros e. emits.
    + intros [|]; [apply emits_ret | apply IH].
Qed.

(** The refresh loop runs its attempts as [RefreshRuns] says and always ends
    normally. *)
Lemma refreshLoop_runs (forumPda : option string) (remaining attempt : nat)
    (w : World) :
  attempt + remaining = 4 ->
  1 <= remaining ->
  exists w2,
    refreshLoop env forumPda remaining attempt w = (Ret tt, w2)
    /\ RefreshRuns env forumPda attempt w w2.
Proof.
  revert attempt w.
  induction remaining as [|remaining IH]; intros attempt w Hsum Hpos; [lia|].
  simpl. unfold bind, tryCatch.
  destruct (refreshData env forumPda w) as [[[]|e] w1] eqn:Hdata; simpl.
  - exists w1. split; [reflexivity | now apply refresh_done].
  - destruct remaining as [|remaining].
    + simpl. exists (emit (Sleep 1000 None) w1). split; [reflexivity|].
      replace attempt with 3 by lia. now apply refresh_gives_up with (e := e).
    + destruct (IH (S attempt) (emit (Sleep 1000 None) w1)) as (w2 & Hloop & Hruns);
        [lia | lia |].
      exists w2. split; [exact Hloop|].
      apply refresh_again with (e := e) (w1 := w1); [lia | exact Hdata | exact Hruns].
Qed.




End Silent.

(** ** The guards of the actions *)


Lemma isModerator_spec (key : string) :
  isModerator key = true <-> In key MODERATOR_PUBLIC_KEYS.
Proof.
  unfold isModerator. rewrite existsb_exists. split.
  - intros (moderator & Hin & Heq). apply String.eqb_eq in Heq. now subst.
  - intros Hin. exists key. split; [exact Hin | apply String.eqb_refl].
Qed.


Lemma moderators_are_not_admin (key : string) :
  In key MODERATOR_PUBLIC_KEYS -> key <> ADMIN_PUBLIC_KEY.
Proof.
  intros Hin ->. apply isModerator_spec in Hin. vm_compute in Hin.
  discriminate Hin.
Qed.

Section Guarded.

Variable env : Env.
Variable bs58_encode : list Byte.byte -> string.
Variable JSON_stringify_logs : list string -> string.
Variable numberToString : Q -> string.

Lemma emits_validation (forumPda : option string) :
  Emits NoTransaction (executeTransactionSilently env forumPda (ret tt)).
Proof.
  unfold executeTransactionSilently.
  apply emits_bind; [emits | intros _].
  apply emits_bind; [emits | intros _].
  apply emits_bind; [emits | intros _].
  apply emits_bind; [|intros _; emits].
  apply emits_weaken with (P := RefreshEvent);
    [apply emits_refreshLoop | apply refreshEvent_noTransaction].
Qed.

(** The refusing path of every action. *)
Lemma refuse_refused (c : Component) (message : string) (w : World) :
  Refused (refuse env c message) w.
Proof.
  unfold Refused, refuse, bind. simpl.
  match goal with
  | |- context [executeTransactionSilently env _ _ ?w1] =>
      destruct (emits_validation (forumPda c) w1) as (evs & Ht & Hn & _)
  end.
  exists message, evs. simpl in Ht. rewrite Ht, <- app_assoc.
  split; [reflexivity | exact Hn].
Qed.

(** The categorized content of a post begins with a bracket: it is never
    blank, whatever the category and the content. *)
Lemma categorized_never_blank (category content : string) :
  ~ Blank (categorize category content).
Proof. unfold Blank, categorize. simpl. discriminate. Qed.

(** The error a refusal sets does not stay: the wrapper it then runs clears
    it before the first [await], and nothing sets it again. *)
Lemma refuse_clears_error (c : Component) (message : string) (w : World) :
  ui_error (snd (refuse env c message w)) = None.
Proof.
  unfold refuse, executeTransactionSilently.
  pose proof (fun w' => emits_keeps_ui RefreshEvent
                          (refreshLoop env (forumPda c) 3 1) w'
                          (emits_refreshLoop env (forumPda c) 3 1)
                          refreshEvent_notUi) as Hkeep.
  remember (refreshLoop env (forumPda c) 3 1) as loop eqn:Eloop.
  unfold bind, tryCatch, setError, setLoading, ret. simpl.
  match goal with
  | |- context [loop ?w1] =>
      destruct (Hkeep w1) as [He _]; destruct (loop w1) as [[[]|e] w2]
  end; simpl in *; exact He.
Qed.

Ltac refusal :=
  repeat match goal with
         | |- Refused (refuse _ _ _) _ => apply refuse_refused
         | |- Refused (checkedReport _ _ _) _ => unfold checkedReport
         | |- Refused (match ?x with _ => _ end) _ => destruct x eqn:?
         end.

Ltac not_blank :=
  match goal with
  | Hblank : Blank ?s, Htrim : negb (Js.truthy (Js.trim ?s)) = false |- _ =>
      apply trim_blank in Hblank; rewrite Hblank in Htrim; discriminate Htrim
  end.

Ltac not_long :=
  match goal with
  | Hlong : ?n < ?len, Hltb : Nat.ltb ?n ?len = false |- _ =>
      apply Nat.ltb_ge in Hltb; lia
  end.

(** C8. [createPost] refuses when the categorized content is over 280
    characters or blank, [createReply] when the reply is over 280 characters
    or blank, [reportPost] and [reportReply] when the reason is over 100
    characters or blank: an error is set, no instruction is built and no
    transaction is submitted. *)
Theorem content_limits_refuse (c : Component) (action : M unit) (w : World) :
  OverLimit env bs58_encode JSON_stringify_logs numberToString c action ->
  Refused action w.
Proof.
  intros [Hpost | postId content Hlookup Hreply | postId Hreason
          | replyId Hreason].
  - unfold createPost. refusal. destruct Hpost; [not_long | not_blank].
  - unfold createReply. rewrite Hlookup. refusal.
    destruct Hreply; [not_long | not_blank].
  - unfold reportPost. refusal. destruct Hreason; [not_long | not_blank].
  - unfold reportReply. refusal. destruct Hreason; [not_long | not_blank].
Qed.



End Guarded.

(** ** The bridge-and-post flow *)

Lemma noTransaction_split (evs pre post : list Event) (e : Event) :
  Forall NoTransaction evs ->
  evs = pre ++ e :: post ->
  isInstructionEvent e = true \/ isSendEvent e = true ->
  False.
Proof.
  intros Hevs -> He. apply Forall_app in Hevs as [_ Hevs].
  inversion Hevs as [|? ? [Hi Hs] _]. destruct He; congruence.
Qed.

(** The first transaction event of a list comes after its transaction-free
    prefix. *)
Lemma transaction_after_prefix (before after pre post : list Event)
    (e : Event) :
  Forall NoTransaction before ->
  before ++ after = pre ++ e :: post ->
  isInstructionEvent e = true \/ isSendEvent e = true ->
  exists pre', pre = before ++ pre'.
Proof.
  intros Hbefore. revert pre.
  induction Hbefore as [|b before [Hi Hs] _ IH]; intros pre Heq He.
  - now exists pre.
  - destruct pre as [|p pre]; simpl in Heq.
    + injection Heq as -> _. destruct He; congruence.
    + injection Heq as -> Heq. destruct (IH pre Heq He) as (pre' & ->).
      now exists pre'.
Qed.


Section Bridge.

Variable env : Env.
Variable bs58_encode : list Byte.byte -> string.
Variable JSON_stringify_logs : list string -> string.

(** Events without a transaction in front of a shaped run. *)
Lemma shaped_bind (Evidence : list Event -> Prop) {A B} (m : M A)
    (k : A -> M B) :
  (forall pre evs, Forall NoTransaction pre -> Evidence evs ->
                   Evidence (pre ++ evs)) ->
  Emits NoTransaction m ->
  (forall a, Shaped Evidence (k a)) ->
  Shaped Evidence (bind m k).
Proof.
  intros Hgrow Hm Hk w. unfold bind.
  destruct (Hm w) as (evs1 & Ht1 & Hn1 & _).
  destruct (m w) as [[a|e] w1]; simpl in *.
  - destruct (Hk a w1) as (evs2 & Ht2 & Hshape).
    exists (evs1 ++ evs2). rewrite Ht2, Ht1, app_assoc.
    split; [reflexivity|].
    destruct Hshape as [[Hn2 Hthrow]
                       | (before & after & -> & Hbefore & Hev)].
    + left. split; [now apply Forall_app | exact Hthrow].
    + right. exists (evs1 ++ before), after. rewrite app_assoc.
      split; [reflexivity|]. split; [now apply Forall_app | now apply Hgrow].
  - exists evs1. split; [exact Ht1|]. left. split; [exact Hn1 | eauto].
Qed.

Lemma shaped_throw (Evidence : list Event -> Prop) {A} (e : Error) :
  Shaped Evidence (@throw A e).
Proof.
  intros w. exists []. simpl. rewrite app_nil_r. split; [reflexivity|].
  left. split; [constructor | eauto].
Qed.

(** Anything may follow once the evidence is there. *)
Lemma shaped_any {A} (P : Event -> Prop) (m : M A) :
  Emits P m -> Shaped (fun _ => True) m.
Proof.
  intros Hm w. destruct (Hm w) as (evs & Ht & _).
  exists evs. split; [exact Ht|]. right. exists [], evs.
  repeat split; constructor.
Qed.

Lemma funded_grows (pre evs : list Event) :
  Forall NoTransaction pre -> Funded evs -> Funded (pre ++ evs).
Proof.
  intros _ [(poll & Hin & Hpoll) (balance & Hin' & Hbalance)].
  split; [exists poll | exists balance]; split; auto;
    apply in_or_app; now right.
Qed.

(** Lines 3326-3351: polling emits no transaction, and answers 'Fulfilled'
    only when a poll did. *)
Lemma pollForFulfillmentFrom_shape (orderId : string) (remaining : nat)
    (status : option string) (w : World) :
  exists evs final,
    pollForFulfillmentFrom env orderId status remaining w
    = (Ret final, snd (pollForFulfillmentFrom env orderId status remaining w))
    /\ trace (snd (pollForFulfillmentFrom env orderId status remaining w))
       = trace w ++ evs
    /\ Forall NoTransaction evs
    /\ statusPolls evs <= remaining
    /\ (isStatus final "Fulfilled" = true ->
        isStatus status "Fulfilled" = true
        \/ exists poll, In poll evs /\ FulfilledPoll poll).
Proof.
  revert status w.
  induction remaining as [|remaining IH]; intros status w; simpl.
  - exists [], status. rewrite app_nil_r. repeat split; auto.
  - destruct (isStatus status "Fulfilled") eqn:Hdone.
    + exists [], status. simpl. rewrite app_nil_r.
      repeat split; auto; try constructor; unfold statusPolls; simpl; lia.
    + unfold bind, tryCatch, jsonOf. simpl.
      destruct (answer env (FetchOrderStatus orderId) (trace w))
        as [e|response] eqn:Hanswer; simpl.
      * match goal with
        | |- context [pollForFulfillmentFrom env orderId status remaining ?w1] =>
            destruct (IH status w1) as (evs & final & Hret & Ht & Hn & Hcount & Hful)
        end.
        simpl in Ht.
        exists (Call (FetchOrderStatus orderId) (inl e)
                  :: Sleep 10000 None :: evs), final.
        rewrite Ht, <- !app_assoc. simpl.
        split; [exact Hret|]. split; [reflexivity|].
        split; [repeat constructor; exact Hn|].
        split; [unfold statusPolls in *; simpl; lia|].
        intros Hfinal. destruct (Hful Hfinal) as [Hs | (poll & Hin & Hpoll)];
          [congruence|]. right. exists poll. split; [|exact Hpoll].
        right. right. exact Hin.
      * destruct (resp_json response) as [e|status'] eqn:Hjson; simpl.
        -- match goal with
           | |- context [pollForFulfillmentFrom env orderId status remaining ?w1] =>
               destruct (IH status w1)
                 as (evs & final & Hret & Ht & Hn & Hcount & Hful)
           end.
           simpl in Ht.
           exists (Call (FetchOrderStatus orderId) (inr response)
                     :: Sleep 10000 None :: evs), final.
           rewrite Ht, <- !app_assoc. simpl.
           split; [exact Hret|]. split; [reflexivity|].
           split; [repeat constructor; exact Hn|].
           split; [unfold statusPolls in *; simpl; lia|].
           intros Hfinal. destruct (Hful Hfinal) as [Hs | (poll & Hin & Hpoll)];
             [congruence|]. right. exists poll. split; [|exact Hpoll].
           right. right. exact Hin.
        -- destruct (isStatus status' "Fulfilled") eqn:Hnow; simpl.
           ++ exists [Call (FetchOrderStatus orderId) (inr response)], status'.
              repeat split; auto;
                [repeat constructor | unfold statusPolls; simpl; lia|].
              intros _. right. eexists. split; [now left|].
              exists orderId, response. split; [reflexivity|].
              rewrite Hjson. destruct status' as [s|]; [|discriminate Hnow].
              simpl in Hnow. apply String.eqb_eq in Hnow. now subst.
           ++ destruct (isStatus status' "Failed" || isStatus status' "Expired")
                eqn:Hfinal; simpl.
              ** exists [Call (FetchOrderStatus orderId) (inr response)], status'.
                 repeat split; auto;
                   [repeat constructor | unfold statusPolls; simpl; lia|].
                 intros Hf. congruence.
              ** match goal with
                 | |- context [pollForFulfillmentFrom env orderId status'
                                                        remaining ?w1] =>
                     destruct (IH status' w1)
                       as (evs & final & Hret & Ht & Hn & Hcount & Hful)
                 end.
                 simpl in Ht.
                 exists (Call (FetchOrderStatus orderId) (inr response)
                           :: Sleep 10000 None :: evs), final.
                 rewrite Ht, <- !app_assoc. simpl.
                 split; [exact Hret|]. split; [reflexivity|].
                 split; [repeat constructor; exact Hn|].
                 split; [unfold statusPolls in *; simpl; lia|].
                 intros Hf. destruct (Hful Hf) as [Hs | (poll & Hin & Hpoll)];
                   [congruence|]. right. exists poll. split; [|exact Hpoll].
                 right. right. exact Hin.
Qed.

Lemma emits_attemptBody (attempt maxRetries : nat) (baseDelay : N) :
  Emits Any (attemptBody env bs58_encode JSON_stringify_logs attempt
                         maxRetries baseDelay).
Proof.
  unfold attemptBody, attemptTry, prepare, simulateStep, submit, confirm,
    confirmStep, confirmCatch, attemptCatch, alreadyProcessed, getLogsOf,
    defined.
  emits.
Qed.

Lemma emits_sendLoop (maxRetries : nat) (baseDelay : N)
    (remaining attempt : nat) :
  Emits Any (sendLoop env bs58_encode JSON_stringify_logs maxRetries baseDelay
                      remaining attempt).
Proof.
  revert attempt. induction remaining as [|remaining IH]; intros attempt; simpl.
  - apply emits_ret.
  - apply emits_bind; [apply emits_attemptBody | intros [|s]];
      [apply IH | apply emits_ret].
Qed.

Lemma emits_sendDefault :
  Emits Any (sendDefault env bs58_encode JSON_stringify_logs).
Proof.
  unfold sendDefault, sendAndConfirmWithRetry.
  apply emits_bind; [emits | intros _; apply emits_sendLoop].
Qed.

Lemma emits_createAndSendPost (content pk : string) :
  Emits Any (createAndSendPost env bs58_encode JSON_stringify_logs content pk).
Proof.
  unfold createAndSendPost, newTransaction, defined, toNumber.
  repeat first [ apply emits_sendDefault | progress emits ].
Qed.

Lemma emits_refreshForumDataFrom (remaining attempt : nat) :
  Emits Any (refreshForumDataFrom env remaining attempt).
Proof.
  revert attempt. induction remaining as [|remaining IH]; intros attempt; simpl.
  - apply emits_ret.
  - apply emits_bind; [|intros [|]; [apply emits_ret | apply IH]].
    unfold decodeForum, decodePost, defined, toNumber. emits.
Qed.

Lemma emits_pollForOrderIdFrom (txHash : string) (remaining : nat) :
  Emits NoTransaction (pollForOrderIdFrom env txHash remaining).
Proof.
  induction remaining as [|remaining IH]; simpl.
  - apply emits_ret.
  - apply emits_bind; [emits | intros [id|]]; [apply emits_ret|].
    apply emits_bind; [emits | intros _; apply IH].
Qed.

Lemma emits_validateSolanaNetwork :
  Emits NoTransaction (validateSolanaNetwork env).
Proof. unfold validateSolanaNetwork. emits. Qed.

(** Lines 3354-3367: the balance is requested once, and the answer [true]
    means it covers the fee. *)
Lemma verifySolBalance_shape (pk : string) (w : World) :
  exists evs,
    trace (snd (verifySolBalance env pk POST_FEE_LAMPORTS w)) = trace w ++ evs
    /\ Forall NoTransaction evs
    /\ ((exists e, fst (verifySolBalance env pk POST_FEE_LAMPORTS w) = Throw e)
        \/ fst (verifySolBalance env pk POST_FEE_LAMPORTS w) = Ret false
        \/ (fst (verifySolBalance env pk POST_FEE_LAMPORTS w) = Ret true
            /\ HasBalance evs)).
Proof.
  unfold verifySolBalance, bind, sleep, log. simpl.
  destruct (answer env (GetBalance pk) (trace w ++ [Sleep 5000 None]))
    as [e|balance] eqn:Hanswer; simpl.
  - eexists [_; _]. rewrite <- app_assoc. simpl.
    split; [reflexivity|]. split; [repeat constructor|]. left. eauto.
  - eexists [_; _]. rewrite <- app_assoc. simpl.
    split; [reflexivity|]. split; [repeat constructor|].
    destruct (POST_FEE_LAMPORTS <=? balance)%Z eqn:Hcovers; [|now right; left].
    right. right. split; [reflexivity|].
    eexists. split; [right; now left|].
    exists pk, balance. split; [reflexivity | now apply Z.leb_le].
Qed.

(** What follows a fulfilled order: validation, the balance check, the
    post. *)
Lemma shaped_funding (c : Component) (pk : string) :
  Shaped HasBalance
    (let! valid := validateSolanaNetwork env in
     let! solBalance := verifySolBalance env pk POST_FEE_LAMPORTS in
     if negb solBalance then throw (newError "Insufficient SOL for posting")
     else
       let! signature :=
         createAndSendPost env bs58_encode JSON_stringify_logs
           (categorize (bridgePostCategory c) (bridgePostContent c)) pk in
       refreshForumData env ;;;
       log (SetState "showBridge") ;;;
       log (SetState "bridgePostContent") ;;;
       log (SetState "bridgePostCategory") ;;;
       log (SetState "selectedInput") ;;;
       setError None)%js.
Proof.
  apply shaped_bind.
  - intros pre evs _ (balance & Hin & Hb). exists balance.
    split; [apply in_or_app; now right | exact Hb].
  - apply emits_validateSolanaNetwork.
  - intros _ w.
    destruct (verifySolBalance_shape pk w) as (evs1 & Ht1 & Hn1 & Hcase).
    destruct (verifySolBalance env pk POST_FEE_LAMPORTS w) as [[[|]|e] w1]
      eqn:Hver; simpl in Ht1, Hcase.
    + rewrite (bind_ret _ _ _ _ _ Hver). cbn [negb].
      match goal with
      | |- context [bind ?m ?k w1] =>
          assert (Emits Any (bind m k)) as Hrest
      end.
      { apply emits_bind; [apply emits_createAndSendPost | intros _].
        apply emits_bind; [apply emits_refreshForumDataFrom | intros _].
        emits. }
      destruct (Hrest w1) as (evs2 & Ht2 & _).
      exists (evs1 ++ evs2). rewrite Ht2, Ht1, app_assoc.
      split; [reflexivity|]. right. exists evs1, evs2.
      split; [reflexivity|]. split; [exact Hn1|].
      destruct Hcase as [[e He] | [He | [_ Hb]]]; try discriminate He.
      exact Hb.
    + rewrite (bind_ret _ _ _ _ _ Hver). cbn [negb]. simpl.
      exists evs1. split; [exact Ht1|].
      left. split; [exact Hn1 | eauto].
    + rewrite (bind_throw _ _ _ _ _ Hver). simpl.
      exists evs1. split; [exact Ht1|]. left. split; [exact Hn1 | eauto].
Qed.

(** Lines 3184-3288, the body of the [try]. *)
Lemma shaped_bridgeAndPost (c : Component) (pk : string) :
  Shaped Funded (bridgeAndPost env bs58_encode JSON_stringify_logs c pk).
Proof.
  unfold bridgeAndPost.
  do 8 (apply shaped_bind; [apply funded_grows | emits | intros ?]).
  apply shaped_bind; [apply funded_grows | apply emits_pollForOrderIdFrom |].
  intros [orderId|]; [|apply shaped_throw].
  intros w. unfold pollForFulfillment.
  destruct (pollForFulfillmentFrom_shape orderId 60 (Some "Created") w)
    as (evs1 & final & Hret & Ht1 & Hn1 & _ & Hful).
  rewrite (bind_ret _ _ _ _ _ Hret).
  destruct (isStatus final "Fulfilled") eqn:Hfinal; cbn [negb].
  - destruct (Hful eq_refl) as [Hcreated | (poll & Hin & Hpoll)];
      [discriminate Hcreated|].
    destruct (shaped_funding c pk
                (snd (pollForFulfillmentFrom env orderId (Some "Created") 60 w)))
      as (evs2 & Ht2 & Hshape).
    exists (evs1 ++ evs2). rewrite Ht2, Ht1, app_assoc.
    split; [reflexivity|].
    destruct Hshape as [[Hn2 Hthrow]
                       | (before & after & -> & Hbefore & balance & Hin' & Hb)].
    + left. split; [now apply Forall_app | exact Hthrow].
    + right. exists (evs1 ++ before), after. rewrite app_assoc.
      split; [reflexivity|]. split; [now apply Forall_app|].
      split; [exists poll | exists balance]; split; auto; apply in_or_app;
        [now left | now right].
  - simpl. exists evs1. split; [exact Ht1|]. left. split; [exact Hn1 | eauto].
Qed.


End Bridge.

(** ** The outer handler never holds a signature *)

Section Signature.

Variable env : Env.
Variable bs58_encode : list Byte.byte -> string.
Variable JSON_stringify_logs : list string -> string.

Lemma keeps_ret {A} (a : A) : KeepsSignature (ret a).
Proof. now intros w. Qed.

Lemma keeps_throw {A} (e : Error) : KeepsSignature (@throw A e).
Proof. now intros w. Qed.

Lemma keeps_bind {A B} (m : M A) (k : A -> M B) :
  KeepsSignature m -> (forall a, KeepsSignature (k a)) ->
  KeepsSignature (bind m k).
Proof.
  intros Hm Hk w. unfold bind. specialize (Hm w).
  destruct (m w) as [[a|e] w1]; simpl in *; [|exact Hm].
  now rewrite Hk.
Qed.

Lemma keeps_tryCatch {A} (m : M A) (h : Error -> M A) :
  KeepsSignature m -> (forall e, KeepsSignature (h e)) ->
  KeepsSignature (tryCatch m h).
Proof.
  intros Hm Hh w. unfold tryCatch. specialize (Hm w).
  destruct (m w) as [[a|e] w1]; simpl in *; [exact Hm|].
  now rewrite Hh.
Qed.

Lemma keeps_call (op : Op) : KeepsSignature (call env op).
Proof. now intros w. Qed.

Lemma keeps_backoffSleep (baseDelay : N) (attempt : nat) :
  KeepsSignature (backoffSleep env baseDelay attempt).
Proof. now intros w. Qed.

Lemma keeps_setSignatures (sigs : list SigEntry) :
  KeepsSignature (setSignatures sigs).
Proof. now intros w. Qed.

Lemma keeps_getSignatures : KeepsSignature getSignatures.
Proof. now intros w. Qed.

Lemma keeps_getFinalSignature : KeepsSignature getFinalSignature.
Proof. now intros w. Qed.

Lemma keeps_withRetryFrom {A} (fn : M A) (maxRetries : nat) (baseDelay : N)
    (remaining attempt : nat) :
  KeepsSignature fn ->
  KeepsSignature (withRetryFrom env fn maxRetries baseDelay remaining attempt).
Proof.
  intros Hfn. revert attempt.
  induction remaining as [|remaining IH]; intros attempt w; simpl; [reflexivity|].
  specialize (Hfn w). destruct (fn w) as [[a|e] w1]; simpl in *; [exact Hfn|].
  destruct (rateLimited e); [|exact Hfn].
  destruct (Nat.eqb attempt maxRetries); [exact Hfn|].
  unfold bind, backoffSleep, sleep, log. simpl. now rewrite IH.
Qed.

Ltac keeps_step :=
  lazymatch goal with
  | |- KeepsSignature (ret _) => apply keeps_ret
  | |- KeepsSignature (throw _) => apply keeps_throw
  | |- KeepsSignature (bind _ _) => apply keeps_bind; [|intros ?]
  | |- KeepsSignature (tryCatch _ _) => apply keeps_tryCatch; [|intros ?]
  | |- KeepsSignature (withRetryDefault _ _) => apply keeps_withRetryFrom
  | |- KeepsSignature (call _ _) => apply keeps_call
  | |- KeepsSignature (backoffSleep _ _ _) => apply keeps_backoffSleep
  | |- KeepsSignature (setSignatures _) => apply keeps_setSignatures
  | |- KeepsSignature getSignatures => apply keeps_getSignatures
  | |- KeepsSignature getFinalSignature => apply keeps_getFinalSignature
  | |- KeepsSignature (match ?x with _ => _ end) => destruct x
  end.

Ltac keeps := repeat keeps_step.

Lemma keeps_prepare (attempt maxRetries : nat) :
  KeepsSignature (prepare env attempt maxRetries).
Proof. unfold prepare, simulateStep, defined. keeps. Qed.

Lemma keeps_confirmStep (signature : Signature) :
  KeepsSignature (confirmStep env signature).
Proof. unfold confirmStep. keeps. Qed.

Lemma keeps_attemptCatch (attempt maxRetries : nat) (baseDelay : N)
    (err : Error) :
  KeepsSignature (attemptCatch env bs58_encode JSON_stringify_logs attempt
                               maxRetries baseDelay err).
Proof. unfold attemptCatch, alreadyProcessed, getLogsOf. keeps. Qed.

(** After a send the attempt returns, or throws with a falsy signature. *)
Lemma submit_outcome (w w1 : World) (o : Outcome (Ctl Signature)) :
  truthySignature (finalSignature w) = None ->
  submit env w = (o, w1) ->
  (exists s, o = Ret (Return s))
  \/ ((exists e, o = Throw e) /\ truthySignature (finalSignature w1) = None).
Proof.
  intros Hfalsy. unfold submit, bind. simpl.
  destruct (answer env SendAndConfirm (trace w)) as [e|signature]; simpl.
  - intros [= <- <-]. right. split; [eauto | exact Hfalsy].
  - unfold confirm, bind, tryCatch.
    match goal with
    | |- context [confirmStep env signature ?w2] =>
        pose proof (keeps_confirmStep signature w2) as Hkeep;
        destruct (confirmStep env signature w2) as [[[]|e] w3]
    end; simpl in *.
    + intros [= <- <-]. left. eauto.
    + unfold confirmCatch.
      destruct (msgHas e "WrongSize" || msgHas e "Invalid param"
                || msgHas e "failed to get transaction"); simpl.
      * intros [= <- <-]. left. eauto.
      * unfold bind, getFinalSignature. simpl. rewrite Hkeep.
        destruct (truthySignature (Some signature)) as [s|] eqn:Htruthy; simpl.
        -- intros [= <- <-]. left. eauto.
        -- intros [= <- <-]. right. split; [eauto|]. now rewrite Hkeep.
Qed.

(** The store in which the outer handler runs holds no truthy signature. *)
Lemma attemptTry_throws_without_signature (attempt maxRetries : nat)
    (w w1 : World) (err : Error) :
  truthySignature (finalSignature w) = None ->
  attemptTry env attempt maxRetries w = (Throw err, w1) ->
  truthySignature (finalSignature w1) = None.
Proof.
  intros Hfalsy. unfold attemptTry, bind.
  pose proof (keeps_prepare attempt maxRetries w) as Hkeep.
  destruct (prepare env attempt maxRetries w) as [[[|]|e] w0]; simpl in *.
  - intros Hsubmit. rewrite <- Hkeep in Hfalsy.
    destruct (submit_outcome _ _ _ Hfalsy Hsubmit) as [[s Hs] | [_ H]];
      [discriminate Hs | exact H].
  - discriminate.
  - intros [= <- <-]. now rewrite Hkeep.
Qed.

Lemma attemptBody_continues_without_signature (attempt maxRetries : nat)
    (baseDelay : N) (w w1 : World) :
  truthySignature (finalSignature w) = None ->
  attemptBody env bs58_encode JSON_stringify_logs attempt maxRetries baseDelay w
  = (Ret Continue, w1) ->
  truthySignature (finalSignature w1) = None.
Proof.
  intros Hfalsy. unfold attemptBody, tryCatch.
  destruct (attemptTry env attempt maxRetries w) as [[ctl|e] w0] eqn:Htry.
  - intros [= -> <-]. unfold attemptTry, bind in Htry.
    pose proof (keeps_prepare attempt maxRetries w) as Hkeep.
    destruct (prepare env attempt maxRetries w) as [[[|]|e] w2]; simpl in *.
    + rewrite <- Hkeep in Hfalsy.
      destruct (submit_outcome _ _ _ Hfalsy Htry) as [[s Hs] | [[e He] _]];
        discriminate.
    + injection Htry as <-. now rewrite Hkeep.
    + discriminate Htry.
  - intros Hcatch.
    pose proof (keeps_attemptCatch attempt maxRetries baseDelay e w0) as Hkeep.
    rewrite Hcatch in Hkeep. simpl in Hkeep. rewrite Hkeep.
    eapply attemptTry_throws_without_signature; eauto.
Qed.

Lemma reaches_without_signature (maxRetries : nat) (baseDelay : N)
    (attempt : nat) (w0 w : World) :
  ReachesAttempt env bs58_encode JSON_stringify_logs maxRetries baseDelay
                 attempt w0 w ->
  truthySignature (finalSignature w) = None.
Proof.
  induction 1 as [w0 | attempt w0 w w' _ IH _ Hbody]; [reflexivity|].
  eapply attemptBody_continues_without_signature; eauto.
Qed.

(** Whenever the outer handler runs, the local [finalSignature] is falsy:
    its branch that returns the signature is never taken, and an error of the
    RPC confirmation class there means a retry or 'Max retries reached'. *)
Lemma outer_handler_holds_no_signature (maxRetries : nat) (baseDelay : N)
    (attempt : nat) (w0 w w1 : World) (err : Error) :
  ReachesAttempt env bs58_encode JSON_stringify_logs maxRetries baseDelay
                 attempt w0 w ->
  attemptTry env attempt maxRetries w = (Throw err, w1) ->
  truthySignature (finalSignature w1) = None.
Proof.
  intros Hreach. apply attemptTry_throws_without_signature.
  eapply reaches_without_signature; eauto.
Qed.

End Signature.

(** ** sendAndConfirmWithRetry on concrete runs *)

Ltac run := vm_compute; reflexivity.

Ltac has_text := apply includes_spec; run.

Ltac lacks_text :=
  repeat match goal with
         | |- ~ _ => intros ?
         | H : _ \/ _ |- _ => destruct H
         | H : InvalidArguments _ |- _ => unfold InvalidArguments in H
         | H : RpcConfirmationError _ |- _ => unfold RpcConfirmationError in H
         | H : AlreadyProcessed _ |- _ => unfold AlreadyProcessed in H
         | H : Substring _ _ |- _ =>
             apply includes_spec in H; vm_compute in H; discriminate H
         end.

(** The fifth attempt of a call with the default arguments, when the four
    before it went on to the next one. *)
Ltac fifth_attempt :=
  match goal with
  | |- ReachesAttempt ?env ?enc ?logs 5 ?d 5 ?w0 _ =>
      apply (afterAttempts_reaches env enc logs 5 d 4 1 w0 _ _
                                   (reaches_first env enc logs 5 d w0));
      [lia | run]
  end.

(** A run in which all five attempts fail with an expired blockhash: the
    call resolves to [undefined]. *)
Lemma last_attempt_blockhash_expiry_witness :
  fst (sendAndConfirmWithRetry
         Sample.expired
         Sample.noEncoding Sample.noLogs 5 1000 Sample.start)
  = Ret None.
Proof.
  eassert (ReachesAttempt Sample.expired Sample.noEncoding Sample.noLogs
                          5 1000 5 Sample.start _) as Hreach
    by fifth_attempt.
  eassert (attemptTry Sample.expired 5 5 _ = (Throw _, _)) as Htry by run.
  rewrite (last_attempt_blockhash_expiry_returns_undefined
             _ _ _ _ _ _ _ _ _ Hreach Htry).
  - reflexivity.
  - left. has_text.
  - lacks_text.
  - lacks_text.
  - lacks_text.
Defined.

(** C10 as stated fails when the message of the expiry error also contains a
    text the handler tests earlier: the last attempt then throws. *)
Lemma last_attempt_blockhash_expiry_counterexample :
  ~ BlockhashExpiryAsStated
      Sample.expiredAmbiguous
      Sample.noEncoding Sample.noLogs 5 1000 Sample.start.
Proof.
  intros H.
  eassert (ReachesAttempt Sample.expiredAmbiguous Sample.noEncoding
                          Sample.noLogs 5 1000 5 Sample.start _) as Hreach
    by fifth_attempt.
  eassert (attemptTry Sample.expiredAmbiguous 5 5 _ = (Throw _, _)) as Htry
    by run.
  specialize (H _ _ _ Hreach Htry).
  apply (f_equal fst) in H.
  - vm_compute in H. discriminate H.
  - left. has_text.
Qed.

(** A run in which the node answers the first send with 'already
    processed': the status of the signature the wallet left on the
    transaction is fetched and the call returns that signature. *)
Lemma already_processed_witness :
  fst (sendAndConfirmWithRetry
         Sample.processed
         Sample.noEncoding Sample.noLogs 5 1000 Sample.start)
  = Ret (Some (SigString "5igNature")).
Proof.
  eassert (attemptTry Sample.processed 1 5
                      (snd (setFinalSignature None Sample.start))
           = (Throw _, _)) as Htry by run.
  rewrite (already_processed_checks_status
             _ Sample.noEncoding Sample.noLogs 5 1000 1 _ _ _ _
             (reaches_first _ _ _ _ _ _) ltac:(lia) Htry).
  - run.
  - has_text.
  - lacks_text.
  - lacks_text.
Defined.

(** C5 as stated fails when the message also contains 'Invalid arguments':
    that branch comes first, the status is never fetched and the call ends
    with the 'Invalid arguments' error of the last attempt. *)
Lemma already_processed_counterexample :
  ~ AlreadyProcessedAsStated
      Sample.processedAmbiguous
      Sample.noEncoding Sample.noLogs 5 1000 Sample.start.
Proof.
  intros H.
  eassert (attemptTry Sample.processedAmbiguous 1 5
                      (snd (setFinalSignature None Sample.start))
           = (Throw _, _)) as Htry by run.
  specialize (H 1 _ _ _ (reaches_first _ _ _ _ _ _) ltac:(lia) Htry).
  unfold ChecksStatusOfFirstSignature in H.
  apply (f_equal fst) in H.
  - vm_compute in H. discriminate H.
  - has_text.
Qed.




(** The events of the first attempt of a run in which every call succeeds. *)
Lemma attempt_sends_at_most_once_witness :
  OneSendAmongRequests
    (trace (snd (attemptBody Sample.happy Sample.noEncoding Sample.noLogs
                             1 5 1000 Sample.start))).
Proof.
  apply (attempt_sends_at_most_once Sample.happy Sample.noEncoding
                                    Sample.noLogs 1 5 1000 Sample.start).
  reflexivity.
Defined.

(** C7 as stated fails on the plainest run: when every call succeeds, the
    first attempt issues four requests to the RPC endpoint (blockhash,
    simulation, send, status), not one. *)
Lemma attempt_sends_at_most_once_counterexample :
  exists evs,
    trace (snd (attemptBody Sample.happy Sample.noEncoding Sample.noLogs
                            1 5 1000 Sample.start))
    = trace Sample.start ++ evs
    /\ rpcRequests evs = 4
    /\ ~ ExactlyOneRpcRequest evs.
Proof.
  eexists. split; [run|]. split; [reflexivity|].
  unfold ExactlyOneRpcRequest. vm_compute. discriminate.
Qed.

(** A run of the helper in which the node is rate limiting throughout. *)
Lemma withRetry_retries_rate_limits_only_witness :
  1 <= 5
  /\ exists n,
       RetryRun (call Sample.limited GetLatestBlockhash) 5 1000 1 Sample.start
         (fst (withRetry Sample.limited (call Sample.limited GetLatestBlockhash)
                         5 1000 Sample.start))
         (snd (withRetry Sample.limited (call Sample.limited GetLatestBlockhash)
                         5 1000 Sample.start)) n
       /\ n <= 5.
Proof.
  split; [lia|].
  apply (withRetry_retries_rate_limits_only Sample.limited
           (call Sample.limited GetLatestBlockhash) 5 1000 Sample.start).
  lia.
Defined.

(** ** The wrappers and guards on concrete runs *)


(** A report whose reason is three spaces is refused. *)
Lemma content_limits_refuse_witness :
  Refused (reportPost Sample.happy Sample.noEncoding Sample.noLogs
                      Sample.noNumber Sample.visitor "post-1")
          Sample.start.
Proof.
  apply (content_limits_refuse Sample.happy Sample.noEncoding Sample.noLogs
                               Sample.noNumber Sample.visitor).
  apply over_reportPost. right. reflexivity.
Defined.



(** The bridge flow builds its post from [bridgePostCategory] as it is: the
    category is limited by the form's disabled option, not by the handler. *)
Example bridge_flow_builds_the_selected_category :
  In (Call (Instruction "createPost" (Some "[General Chatting] gm")) (inr tt))
     (trace (snd (handleBridgeAndPost Sample.happy Sample.noEncoding
                                      Sample.noLogs Sample.visitor
                                      Sample.start))).
Proof. vm_compute. tauto. Qed.

(** * Further properties of the component *)

(** ** Starred posts *)

Lemma arrayIncludes_spec (array : list string) (x : string) :
  JsArray.includes array x = true <-> In x array.
Proof.
  unfold JsArray.includes. rewrite existsb_exists. split.
  - intros (y & Hin & Heq). apply String.eqb_eq in Heq. now subst.
  - intros Hin. exists x. split; [exact Hin | apply String.eqb_refl].
Qed.

Lemma arrayIncludes_false (array : list string) (x : string) :
  JsArray.includes array x = false <-> ~ In x array.
Proof.
  rewrite <- arrayIncludes_spec.
  destruct (JsArray.includes array x); split; congruence.
Qed.

Lemma filter_keeps_all {A} (f : A -> bool) (l : list A) :
  (forall x, In x l -> f x = true) -> List.filter f l = l.
Proof.
  induction l as [|a l IH]; intros H; simpl; [reflexivity|].
  rewrite (H a) by now left. f_equal. apply IH. intros x Hx. apply H. now right.
Qed.

Lemma nodup_snoc {A} (l : list A) (x : A) :
  List.NoDup l -> ~ In x l -> List.NoDup (l ++ [x]).
Proof.
  induction 1 as [|a l Ha _ IH]; intros Hx; simpl.
  - constructor; [intros [] | constructor].
  - constructor.
    + rewrite in_app_iff. intros [H|[H|[]]]; [contradiction|].
      subst. apply Hx. now left.
    + apply IH. intros H. apply Hx. now right.
Qed.

(** X1. [toggleStarPost] flips whether the post is starred and touches no
    other post: the post is starred afterwards exactly when it was not
    before, every other id is starred afterwards exactly when it was before,
    and a list without repetitions stays one. *)
Theorem toggleStarPost_flips (prev : list string) (postId other : string) :
  (In postId (toggleStarPost prev postId) <-> ~ In postId prev)
  /\ (other <> postId ->
      (In other (toggleStarPost prev postId) <-> In other prev))
  /\ (List.NoDup prev -> List.NoDup (toggleStarPost prev postId)).
Proof.
  unfold toggleStarPost.
  destruct (JsArray.includes prev postId) eqn:Hinc.
  - apply arrayIncludes_spec in Hinc. split; [|split].
    + split.
      * intros H. apply filter_In in H as [_ H].
        now rewrite String.eqb_refl in H.
      * intros H. contradiction.
    + intros Hother. rewrite filter_In. split; [now intros [H _]|].
      intros H. split; [exact H|].
      now apply negb_true_iff, String.eqb_neq.
    + apply List.NoDup_filter.
  - apply arrayIncludes_false in Hinc. split; [|split].
    + split; [intros _; exact Hinc|].
      intros _. apply in_or_app. right. now left.
    + intros Hother. rewrite in_app_iff. simpl. split; [|tauto].
      intros [H|[H|[]]]; [exact H | congruence].
    + intros H. now apply nodup_snoc.
Qed.

(** X2. Starring a post that was not starred and then clicking its star
    again gives back the list of starred posts as it was. *)
Theorem toggleStarPost_twice (prev : list string) (postId : string) :
  ~ In postId prev ->
  toggleStarPost (toggleStarPost prev postId) postId = prev.
Proof.
  intros Hnot. unfold toggleStarPost at 2.
  apply arrayIncludes_false in Hnot as Hinc. rewrite Hinc.
  unfold toggleStarPost.
  assert (JsArray.includes (prev ++ [postId]) postId = true) as ->.
  { apply arrayIncludes_spec, in_or_app. right. now left. }
  rewrite List.filter_app. simpl. rewrite String.eqb_refl. simpl.
  rewrite app_nil_r. apply filter_keeps_all.
  intros x Hx. apply negb_true_iff, String.eqb_neq. congruence.
Qed.

Lemma toggleStarPost_twice_witness :
  ~ In "post-2" ["post-1"]
  /\ toggleStarPost (toggleStarPost ["post-1"] "post-2") "post-2" = ["post-1"].
Proof.
  assert (~ In "post-2" ["post-1"]) as Hnot
    by (intros [H|[]]; discriminate H).
  split; [exact Hnot | exact (toggleStarPost_twice ["post-1"] "post-2" Hnot)].
Defined.

Section StarredStorage.

Variable JSON_stringify_ids : list string -> string.
Variable JSON_parse_ids : string -> Error + list string.

Lemma starredKey_inj (pk pk' : string) :
  starredKey pk = starredKey pk' -> pk = pk'.
Proof. unfold starredKey. cbv [append]. congruence. Qed.

(** X3. A starred list that is not empty survives a reload: what the saving
    effect wrote for a wallet is what the loading effect reads back for it,
    provided the JSON text of the list parses back to the list; the entries
    of other wallets are left alone. *)
Theorem starred_posts_survive_reload (pk : string) (starredPosts : list string)
    (localStorage : gmap string string) (current : list string) :
  starredPosts <> [] ->
  Js.truthy (JSON_stringify_ids starredPosts) = true ->
  JSON_parse_ids (JSON_stringify_ids starredPosts) = inr starredPosts ->
  loadStarred JSON_parse_ids (Some pk)
              (saveStarred JSON_stringify_ids (Some pk) starredPosts
                           localStorage)
              current
  = inr starredPosts
  /\ forall other,
       other <> pk ->
       saveStarred JSON_stringify_ids (Some pk) starredPosts localStorage
         !! starredKey other
       = localStorage !! starredKey other.
Proof.
  intros Hne Htruthy Hparse. unfold loadStarred, saveStarred.
  destruct starredPosts as [|id ids]; [congruence|].
  assert (Nat.ltb 0 (List.length (id :: ids)) = true) as -> by reflexivity.
  split.
  - rewrite lookup_insert_eq. now rewrite Htruthy.
  - intros other Hother. apply lookup_insert_ne.
    intros H. apply starredKey_inj in H. congruence.
Qed.

(** X4. Un-starring the last starred post is not saved: the saving effect
    skips an empty list, so the storage keeps the entry written when the
    post was starred, and a reload reads that entry back. *)
Theorem unstarring_the_last_post_is_not_saved (pk postId : string)
    (localStorage : gmap string string) (current : list string) :
  toggleStarPost [postId] postId = []
  /\ saveStarred JSON_stringify_ids (Some pk) (toggleStarPost [postId] postId)
                 (saveStarred JSON_stringify_ids (Some pk) [postId]
                              localStorage)
     = saveStarred JSON_stringify_ids (Some pk) [postId] localStorage
  /\ saveStarred JSON_stringify_ids (Some pk) [postId] localStorage
       !! starredKey pk
     = Some (JSON_stringify_ids [postId]).
Proof.
  assert (toggleStarPost [postId] postId = []) as Hempty.
  { unfold toggleStarPost, JsArray.includes. simpl.
    rewrite String.eqb_refl. simpl. rewrite ?String.eqb_refl. reflexivity. }
  split; [exact Hempty|]. rewrite Hempty. split; [reflexivity|].
  unfold saveStarred. simpl. apply lookup_insert_eq.
Qed.

End StarredStorage.

(** ** The posts of a section *)

Section Sorting.

Variable A : Type.
Variable key : A -> Z.

Local Abbreviation newer := (fun a b : A => (key b - key a)%Z).
Local Abbreviation ordered := (fun a b : A => (key b <= key a)%Z).

Lemma insert_permutation (x : A) (l : list A) :
  Permutation (JsArray.insert newer x l) (x :: l).
Proof.
  induction l as [|y l IH]; simpl; [reflexivity|].
  destruct (key y - key x <=? 0)%Z; [reflexivity|].
  rewrite IH. apply perm_swap.
Qed.

Lemma sort_permutation (l : list A) : Permutation (JsArray.sort newer l) l.
Proof.
  induction l as [|x l IH]; simpl; [reflexivity|].
  rewrite insert_permutation. now apply perm_skip.
Qed.

Lemma insert_sorted (x : A) (l : list A) :
  StronglySorted ordered l -> StronglySorted ordered (JsArray.insert newer x l).
Proof.
  induction 1 as [|y l Hsorted IH Hall]; simpl.
  - constructor; constructor.
  - destruct (key y - key x <=? 0)%Z eqn:Hcmp.
    + apply Z.leb_le in Hcmp. constructor; [now constructor|].
      constructor; [lia|]. revert Hall. apply List.Forall_impl. intros; lia.
    + apply Z.leb_gt in Hcmp. constructor; [exact IH|].
      eapply Permutation_Forall.
      * symmetry. apply insert_permutation.
      * constructor; [lia | exact Hall].
Qed.

Lemma sort_sorted (l : list A) : StronglySorted ordered (JsArray.sort newer l).
Proof.
  induction l as [|x l IH]; simpl; [constructor | now apply insert_sorted].
Qed.

End Sorting.

(** X5. The posts shown are those of the active section, each as often as
    it occurs among the loaded posts, newest first. *)
Theorem filteredPosts_section_newest_first (posts : list Post)
    (activeSection : string) (starredPosts : list string)
    (publicKey : option string) :
  NewestFirst (filteredPosts posts activeSection starredPosts publicKey)
  /\ exists shown : Post -> bool,
       Permutation (filteredPosts posts activeSection starredPosts publicKey)
                   (List.filter shown posts)
       /\ forall post,
            shown post = true
            <-> InSection activeSection starredPosts publicKey post.
Proof.
  split; [apply sort_sorted|].
  unfold filteredPosts, InSection.
  destruct (String.eqb activeSection "Starred Posts").
  { eexists. split; [apply sort_permutation|].
    intros post. apply arrayIncludes_spec. }
  destruct (String.eqb activeSection "My Posts").
  { eexists. split; [apply sort_permutation|].
    intros post. simpl. destruct publicKey as [pk|]; [|split; discriminate].
    rewrite String.eqb_eq. split; congruence. }
  destruct (String.eqb activeSection "Reported Posts").
  { eexists. split; [apply sort_permutation|].
    intros post. simpl. now rewrite orb_true_iff, Z.ltb_lt. }
  destruct (String.eqb activeSection "All"); simpl.
  { exists (fun _ => true). split; [|tauto].
    rewrite filter_keeps_all by reflexivity. apply sort_permutation. }
  eexists. split; [apply sort_permutation|].
  intros post. simpl. apply String.eqb_eq.
Qed.

(** ** Categories *)

Lemma postCategories_spec (publicKey : option string) (category : string) :
  In category (postCategories publicKey)
  <-> In category
         [ "General Chatting"; "Meme Launches"; "Solana Gems"; "Politics";
           "Dev Help"; "Announcements"; "New Solana Dapps";
           "Solcial Discussion" ].
Proof.
  unfold postCategories, categories.
  destruct (match publicKey with
            | Some pk => isModerator pk || isAdmin pk
            | None => false
            end); reflexivity.
Qed.

(** X6. Whatever its content, a post is filed under one of the categories
    the selector of a new post offers, whichever wallet is connected. *)
Theorem categorizePost_is_a_post_category (publicKey : option string)
    (content : string) :
  In (categorizePost content) (postCategories publicKey).
Proof.
  apply postCategories_spec. unfold categorizePost. cbv zeta.
  repeat match goal with
         | |- In (if ?b then _ else _) _ => destruct b
         end; simpl; tauto.
Qed.

Lemma startsWith_app (a b needle : string) :
  Js.startsWith (a ++ b) needle = true ->
  Js.startsWith a needle = true
  \/ (Js.startsWith needle a = true
      /\ String.length a < String.length needle).
Proof.
  revert a. induction needle as [|c needle IH]; intros a; [now left|].
  destruct a as [|d a]; [intros _; right; split; [reflexivity | simpl; lia]|].
  simpl. destruct (Ascii.eqb c d) eqn:Hcd; simpl; [|discriminate].
  intros H. apply IH in H as [H | [H Hlen]].
  - now left.
  - right. rewrite Ascii.eqb_sym, Hcd. simpl. split; [exact H | lia].
Qed.

Lemma startsWith_includes (hay needle : string) :
  Js.startsWith hay needle = true -> Js.includes hay needle = true.
Proof. intros H. destruct hay; simpl in *; now rewrite H. Qed.

Lemma includes_tail (c : ascii) (hay needle : string) :
  Js.includes hay needle = true -> Js.includes (String c hay) needle = true.
Proof.
  intros H.
  change (Js.includes (String c hay) needle)
    with (if Js.startsWith (String c hay) needle then true
          else Js.includes hay needle).
  rewrite H. now destruct (Js.startsWith (String c hay) needle).
Qed.

(** A needle found in [a ++ b] lies in [a], in [b], or across the two. *)
Lemma includes_app (a b needle : string) :
  overlaps a needle = false ->
  Js.includes (a ++ b) needle = true ->
  Js.includes a needle = true \/ Js.includes b needle = true.
Proof.
  induction a as [|c a IH]; intros Hover Hinc; [now right|].
  change (overlaps (String c a) needle)
    with ((Js.startsWith needle (String c a)
           && Nat.ltb (String.length (String c a)) (String.length needle))
          || overlaps a needle) in Hover.
  apply orb_false_iff in Hover as [Hhere Hover].
  change (String c a ++ b)%string with (String c (a ++ b)) in Hinc.
  destruct (Js.startsWith (String c (a ++ b)) needle) eqn:Hstart.
  - apply (startsWith_app (String c a) b) in Hstart as [H | [H Hlen]].
    + left. now apply startsWith_includes.
    + apply Nat.ltb_lt in Hlen. rewrite H, Hlen in Hhere. discriminate Hhere.
  - assert (Js.includes (a ++ b) needle = true) as Hrest.
    { change (Js.includes (String c (a ++ b)) needle)
        with (if Js.startsWith (String c (a ++ b)) needle then true
              else Js.includes (a ++ b) needle) in Hinc.
      now rewrite Hstart in Hinc. }
    destruct (IH Hover Hrest) as [H|H]; [left | now right].
    now apply includes_tail.
Qed.

Lemma toLowerCase_app (a b : string) :
  Js.toLowerCase (a ++ b) = (Js.toLowerCase a ++ Js.toLowerCase b)%string.
Proof.
  induction a as [|c a IH]; [reflexivity|].
  change (String (Js.lowerChar c) (Js.toLowerCase (a ++ b))
          = String (Js.lowerChar c) (Js.toLowerCase a ++ Js.toLowerCase b))%string.
  now rewrite IH.
Qed.

Lemma append_assoc' (a b c : string) :
  ((a ++ b) ++ c = a ++ b ++ c)%string.
Proof.
  induction a as [|x a IH]; [reflexivity|].
  change (String x ((a ++ b) ++ c) = String x (a ++ b ++ c))%string.
  now rewrite IH.
Qed.

Lemma categorize_split (category content : string) :
  categorize category content = (("[" ++ category ++ "] ") ++ content)%string.
Proof. unfold categorize. now rewrite !append_assoc'. Qed.

(** A keyword is in the lower-cased text of a categorized post exactly when
    it is in the lower-cased tag, provided the content is plain and the
    keyword cannot lie across the tag's end. *)
Lemma keyword_in_tag (category content keyword : string) :
  Plain content ->
  In keyword keywords ->
  overlaps (Js.toLowerCase ("[" ++ category ++ "] ")) keyword = false ->
  Js.includes (Js.toLowerCase (categorize category content)) keyword
  = Js.includes (Js.toLowerCase ("[" ++ category ++ "] ")) keyword.
Proof.
  intros Hplain Hin Hover. rewrite categorize_split, toLowerCase_app.
  destruct (Js.includes (Js.toLowerCase ("[" ++ category ++ "] ")) keyword)
    eqn:Htag.
  - apply includes_spec in Htag as (before & after & Htag).
    apply includes_spec. rewrite Htag.
    exists before, (after ++ Js.toLowerCase content)%string.
    now rewrite !append_assoc'.
  - destruct (Js.includes (_ ++ _) keyword) eqn:Hall; [|reflexivity].
    apply includes_app in Hall as [H|H]; [congruence | | exact Hover].
    apply includes_spec in H. now apply Hplain in H.
Qed.

(** X7. Posting and reading agree on the category: a post written under a
    category of the selector, whose content mentions none of the keywords,
    is filed under that category when it is read back from the chain. *)
Theorem categorize_round_trip (publicKey : option string)
    (category content : string) :
  In category (postCategories publicKey) ->
  Plain content ->
  categorizePost (categorize category content) = category.
Proof.
  intros Hin Hplain. apply postCategories_spec in Hin. simpl in Hin.
  unfold categorizePost. cbv zeta.
  repeat destruct Hin as [<- | Hin]; try contradiction;
    repeat match goal with
           | |- context [Js.includes (Js.toLowerCase (categorize ?cat ?text))
                                     ?keyword] =>
               rewrite (keyword_in_tag cat text keyword Hplain)
                 by (first [ vm_compute; tauto | vm_compute; reflexivity ])
           end;
    vm_compute; reflexivity.
Qed.

Lemma categorize_round_trip_witness :
  categorizePost (categorize "Politics" "who runs the treasury?") = "Politics".
Proof.
  apply (categorize_round_trip None).
  - vm_compute. tauto.
  - intros keyword Hin H. apply includes_spec in H.
    simpl in Hin.
    repeat destruct Hin as [<- | Hin]; try contradiction;
      vm_compute in H; discriminate H.
Defined.

(** ** The actions as a whole *)

Section Wrapped.

Variable env : Env.
Variable bs58_encode : list Byte.byte -> string.
Variable JSON_stringify_logs : list string -> string.
Variable numberToString : Q -> string.

Lemma emits_sendDefault_with (P : Event -> Prop) :
  (forall op r, P (Call op r)) ->
  (forall ms jitter, P (Sleep ms jitter)) ->
  Emits P (sendDefault env bs58_encode JSON_stringify_logs).
Proof.
  intros Hcall Hsleep.
  assert (forall attempt maxRetries baseDelay,
             Emits P (attemptBody env bs58_encode JSON_stringify_logs attempt
                                  maxRetries baseDelay)) as Hbody.
  { intros attempt maxRetries baseDelay.
    unfold attemptBody, attemptTry, prepare, simulateStep, submit, confirm,
      confirmStep, confirmCatch, attemptCatch, alreadyProcessed, getLogsOf,
      defined.
    emits. }
  assert (forall maxRetries baseDelay remaining attempt,
             Emits P (sendLoop env bs58_encode JSON_stringify_logs maxRetries
                               baseDelay remaining attempt)) as Hloop.
  { intros maxRetries baseDelay remaining.
    induction remaining as [|remaining IH]; intros attempt; simpl.
    - apply emits_ret.
    - apply emits_bind; [apply Hbody | intros [|s]];
        [apply IH | apply emits_ret]. }
  unfold sendDefault, sendAndConfirmWithRetry.
  apply emits_bind; [emits | intros _; apply Hloop].
Qed.

(** The wrapper adds the loading flag, the cleared error and the refresh to
    the events of the transaction function. *)
Lemma emits_silently (P : Event -> Prop) (pda : option string)
    (fn : M unit) :
  (forall b, P (SetLoading b)) ->
  P (SetError None) ->
  (forall e, RefreshEvent e -> P e) ->
  Emits P fn ->
  Emits P (executeTransactionSilently env pda fn).
Proof.
  intros Hloading Herror Hrefresh Hfn. unfold executeTransactionSilently.
  apply emits_bind; [emits | intros _].
  apply emits_bind; [emits | intros _].
  apply emits_bind; [emits | intros _].
  apply emits_bind; [|intros _; emits].
  apply emits_weaken with (P := RefreshEvent);
    [apply emits_refreshLoop | exact Hrefresh].
Qed.

Lemma emits_refuse (c : Component) (message : string) :
  Emits NoTransaction (refuse env c message).
Proof.
  unfold refuse. apply emits_bind; [emits | intros _].
  apply emits_silently; try (intros; split; reflexivity);
    [apply refreshEvent_noTransaction | emits].
Qed.

(** Whatever the transaction function does short of touching the error and
    the loading flag, the wrapper returns with no error and not loading. *)
Lemma silently_ends_clean (pda : option string) (fn : M unit) (w : World) :
  Emits NotUi fn ->
  fst (executeTransactionSilently env pda fn w) = Ret tt
  /\ ui_error (snd (executeTransactionSilently env pda fn w)) = None
  /\ ui_loading (snd (executeTransactionSilently env pda fn w)) = false.
Proof.
  intros Hfn. unfold executeTransactionSilently.
  pose proof (fun w' => emits_keeps_ui RefreshEvent
                          (refreshLoop env pda 3 1) w'
                          (emits_refreshLoop env pda 3 1)
                          refreshEvent_notUi) as Hkeep.
  pose proof (fun w' => refreshLoop_runs env pda 3 1 w' eq_refl
                          ltac:(lia)) as Hruns.
  remember (refreshLoop env pda 3 1) as loop eqn:Eloop.
  unfold bind, tryCatch, setError, setLoading, ret. simpl.
  match goal with
  | |- context [fn ?w1] =>
      destruct (emits_keeps_ui NotUi fn w1 Hfn (fun e H => H)) as [He _];
      destruct (fn w1) as [[[]|e] w2]
  end; simpl in *;
    destruct (Hkeep w2) as [He2 _];
    destruct (Hruns w2) as (w3 & Hloop & _);
    rewrite Hloop in *; simpl in *; repeat split; congruence.
Qed.

Lemma refuse_ends_clean (c : Component) (message : string) (w : World) :
  fst (refuse env c message w) = Ret tt
  /\ ui_error (snd (refuse env c message w)) = None
  /\ ui_loading (snd (refuse env c message w)) = false.
Proof.
  unfold refuse, bind. simpl. apply silently_ends_clean. emits.
Qed.

Local Abbreviation TransactionFn' :=
  (TransactionFn env bs58_encode JSON_stringify_logs numberToString).

Lemma emits_transactionFn (c : Component) (tokens lamports : Z) (fn : M unit) :
  TransactionFn' c tokens lamports fn -> Emits NotUi fn.
Proof.
  pose proof (emits_sendDefault_with NotUi ltac:(intros; exact I)
                                     ltac:(intros; exact I)) as Hsend.
  intros []; unfold createPostTransaction, createReplyTransaction,
    ratePostTransaction, rateReplyTransaction, reportTransaction,
    newTransaction, defined, toNumber; emits.
Qed.

Lemma emits_moderationTransaction (account : option string) (method : string)
    (arg : option string) :
  Emits NotUi (moderationTransaction env bs58_encode JSON_stringify_logs
                                     account method arg).
Proof.
  pose proof (emits_sendDefault_with NotUi ltac:(intros; exact I)
                                     ltac:(intros; exact I)) as Hsend.
  unfold moderationTransaction, newTransaction. emits.
Qed.

(** How a paid action ends up: refusing, or running its transaction function
    in the wrapper. *)
Lemma paid_cases (c : Component) (tokens lamports : Z) (action : M unit) :
  Paid env bs58_encode JSON_stringify_logs numberToString c tokens lamports
       action ->
  (exists message, action = refuse env c message)
  \/ exists fn,
       TransactionFn' c tokens lamports fn
       /\ action = executeTransactionSilently env (forumPda c) fn.
Proof.
  intros [| postId | postId isUpvote | replyId isUpvote | postId | replyId];
    unfold createPost, createReply, ratePost, rateReply, reportPost,
      reportReply, checkedReport;
    repeat match goal with
           | |- (exists message, refuse _ _ ?m = _) \/ _ => left; now exists m
           | |- _ \/ (exists fn, _ /\ executeTransactionSilently _ _ ?f = _) =>
               right; exists f; split; [constructor; assumption | reflexivity]
           | |- context [match ?x with _ => _ end] => destruct x eqn:?
           end.
Qed.

Lemma action_cases (c : Component) (action : M unit) :
  Action env bs58_encode JSON_stringify_logs numberToString c action ->
  (exists message, action = refuse env c message)
  \/ exists fn,
       Emits NotUi fn
       /\ action = executeTransactionSilently env (forumPda c) fn.
Proof.
  assert (forall tokens lamports action',
             Paid env bs58_encode JSON_stringify_logs numberToString c tokens
                  lamports action' ->
             (exists message, action' = refuse env c message)
             \/ exists fn,
                  Emits NotUi fn
                  /\ action' = executeTransactionSilently env (forumPda c) fn)
    as Hpaid.
  { intros tokens lamports action' H.
    destruct (paid_cases _ _ _ _ H) as [Hrefuse | (fn & Hfn & ->)];
      [now left | right].
    exists fn. split; [eapply emits_transactionFn; eauto | reflexivity]. }
  intros [| postId | postId isUpvote | replyId isUpvote | postId | replyId
          | reportId actionTaken isPostReport | postId | replyId
          | reportId isPostReport |];
    try (eapply Hpaid; constructor);
    unfold resolveReport, deletePost, deleteReply, closeReport, closeForum;
    repeat match goal with
           | |- (exists message, refuse _ _ ?m = _) \/ _ => left; now exists m
           | |- _ \/ (exists fn, _ /\ executeTransactionSilently _ _ ?f = _) =>
               right; exists f; split; [|reflexivity]
           | |- context [match ?x with _ => _ end] => destruct x
           end;
    try apply emits_moderationTransaction.
  apply emits_bind; [apply emits_moderationTransaction | intros _]. emits.
Qed.

(** X8. No action leaves an error on the screen: each of the eleven actions
    returns normally, with the error state cleared and the loading flag off,
    whether it refused, failed or went through. *)
Theorem actions_end_without_error (c : Component) (action : M unit)
    (w : World) :
  Action env bs58_encode JSON_stringify_logs numberToString c action ->
  fst (action w) = Ret tt
  /\ ui_error (snd (action w)) = None
  /\ ui_loading (snd (action w)) = false.
Proof.
  intros Haction.
  destruct (action_cases c action Haction) as [[message ->] | (fn & Hfn & ->)].
  - apply refuse_ends_clean.
  - now apply silently_ends_clean.
Qed.

End Wrapped.

(** ** Fees and votes *)

Lemma find_nothing {A} (f : A -> bool) (l : list A) :
  (forall x, In x l -> f x = false) -> List.find f l = None.
Proof.
  induction l as [|a l IH]; intros H; simpl; [reflexivity|].
  rewrite (H a) by now left. apply IH. intros x Hx. apply H. now right.
Qed.

Lemma solcialShort_below (c : Component) (fee : Z) :
  (0 < fee)%Z -> SolcialShort c fee ->
  solcialBelow (solcialBalance c) fee = true.
Proof.
  unfold SolcialShort, solcialBelow. intros Hpos.
  destruct (solcialBalance c) as [balance|]; [|intros _; now apply Z.ltb_lt].
  intros Hlt. apply negb_true_iff.
  destruct (Qle_bool (inject_Z fee) balance) eqn:Hle; [|reflexivity].
  apply Qle_bool_iff in Hle. now apply Qlt_not_le in Hlt.
Qed.

Lemma walletCovers_grows (c : Component) (fee : Z)
    (pre evs post : list Event) :
  WalletCovers c fee evs -> WalletCovers c fee (pre ++ evs ++ post).
Proof.
  intros (pk & balance & Hpk & Hin & Hle). exists pk, balance.
  split; [exact Hpk|]. split; [|exact Hle].
  apply in_or_app. right. apply in_or_app. now left.
Qed.

Section Fees.

Variable env : Env.
Variable bs58_encode : list Byte.byte -> string.
Variable JSON_stringify_logs : list string -> string.
Variable numberToString : Q -> string.

Local Abbreviation TransactionFn' :=
  (TransactionFn env bs58_encode JSON_stringify_logs numberToString).
Local Abbreviation Paid' :=
  (Paid env bs58_encode JSON_stringify_logs numberToString).

Lemma paid_fee_positive (c : Component) (tokens lamports : Z)
    (action : M unit) :
  Paid' c tokens lamports action -> (0 < tokens)%Z.
Proof. intros []; reflexivity. Qed.

Lemma emits_throw_then (P : Event -> Prop) {A B} (e : Error) (k : A -> M B) :
  Emits P (bind (throw e) k).
Proof. now apply emits_silent. Qed.

(** With too few tokens no transaction function gets to its instruction. *)
Lemma emits_transactionFn_short (c : Component) (tokens lamports : Z)
    (fn : M unit) :
  useSolcial c = true ->
  solcialBelow (solcialBalance c) tokens = true ->
  TransactionFn' c tokens lamports fn ->
  Emits NoTransaction fn.
Proof.
  intros Hsol Hbelow Hfn. revert Hbelow.
  destruct Hfn; intros Hbelow;
    unfold createPostTransaction, createReplyTransaction, ratePostTransaction,
      rateReplyTransaction, reportTransaction, defined, toNumber;
    rewrite Hsol, Hbelow; cbv iota;
    repeat lazymatch goal with
           | |- Emits _ (bind (throw _) _) => apply emits_throw_then
           | |- _ => emits_step
           end.
Qed.

(** X9. Paying in SOLCIAL without the tokens: when the wallet's SOLCIAL
    balance is below the fee of the action, or not loaded, [createPost],
    [createReply], [ratePost], [rateReply], [reportPost] and [reportReply]
    build no instruction and submit nothing. *)
Theorem solcial_fee_guard (c : Component) (tokens lamports : Z)
    (action : M unit) (w : World) (evs : list Event) :
  Paid' c tokens lamports action ->
  useSolcial c = true ->
  SolcialShort c tokens ->
  trace (snd (action w)) = trace w ++ evs ->
  Forall NoTransaction evs.
Proof.
  intros Hpaid Hsol Hshort Htrace.
  assert (Emits NoTransaction action) as Hemits.
  { destruct (paid_cases env bs58_encode JSON_stringify_logs numberToString
                         _ _ _ _ Hpaid) as [[message ->] | (fn & Hfn & ->)].
    - apply emits_refuse.
    - apply emits_silently; try (intros; split; reflexivity);
        [apply refreshEvent_noTransaction|].
      eapply emits_transactionFn_short; eauto.
      apply solcialShort_below; [|exact Hshort].
      eapply paid_fee_positive; eauto. }
  destruct (Hemits w) as (evs' & Htrace' & Hnone & _).
  rewrite Htrace in Htrace'. apply app_inv_head in Htrace'. now subst.
Qed.

(** Anything may follow a run that holds the evidence or threw before. *)
Lemma shaped_then (Evidence : list Event -> Prop) {A B} (m : M A)
    (k : A -> M B) :
  Shaped Evidence m -> (forall a, Emits Any (k a)) ->
  Shaped Evidence (bind m k).
Proof.
  intros Hm Hk w. unfold bind.
  destruct (Hm w) as (evs1 & Ht1 & Hshape).
  destruct (m w) as [[a|e] w1]; simpl in *.
  - destruct (Hk a w1) as (evs2 & Ht2 & _).
    exists (evs1 ++ evs2). rewrite Ht2, Ht1, app_assoc.
    split; [reflexivity|].
    destruct Hshape as [[_ [e He]] | (before & after & -> & Hbefore & Hev)];
      [discriminate He|].
    right. exists before, (after ++ evs2). now rewrite app_assoc.
  - exists evs1. split; [exact Ht1|].
    destruct Hshape as [[Hquiet _] | Hright]; [left | right; exact Hright].
    split; [exact Hquiet | eauto].
Qed.

(** The balance check of the SOL path: what follows it comes after an
    answer that covers the fee. *)
Lemma shaped_balance (c : Component) (fee : Z) (pk : string) {A}
    (err : option Z -> Error) (k : M A) :
  publicKey c = Some pk ->
  Emits Any k ->
  Shaped (WalletCovers c fee)
    (let! walletBalance := withRetryDefault env (call env (GetBalance pk)) in
     if walletBelow walletBalance fee then throw (err walletBalance)
     else k)%js.
Proof.
  intros Hpk Hk w. unfold bind.
  destruct (withRetryDefault_call_last env (GetBalance pk) w)
    as (evs1 & r & Ht1 & Hnoise & Hlast & _).
  assert (Forall NoTransaction (evs1 ++ [Call (GetBalance pk) r])) as Hquiet.
  { apply Forall_app. split; [|repeat constructor].
    revert Hnoise. apply List.Forall_impl.
    intros e [[r' ->]|(ms & j & ->)]; split; reflexivity. }
  destruct (withRetryDefault env (call env (GetBalance pk)) w)
    as [[[balance|]|e] w1]; simpl in *.
  - subst r. destruct (balance <? fee)%Z eqn:Hlow; simpl.
    + eexists. split; [exact Ht1|]. left. split; [exact Hquiet | eauto].
    + destruct (Hk w1) as (evs2 & Ht2 & _).
      exists ((evs1 ++ [Call (GetBalance pk) (inr balance)]) ++ evs2).
      split; [rewrite Ht2, Ht1, <- !app_assoc; reflexivity|].
      right. eexists. eexists. split; [reflexivity|].
      split; [exact Hquiet|]. exists pk, balance. split; [exact Hpk|].
      split; [apply in_or_app; right; now left | now apply Z.ltb_ge].
  - contradiction.
  - eexists. split; [exact Ht1|]. left. split; [exact Hquiet | eauto].
Qed.

Lemma walletCovers_after (c : Component) (fee : Z) (pre evs : list Event) :
  Forall NoTransaction pre -> WalletCovers c fee evs ->
  WalletCovers c fee (pre ++ evs).
Proof.
  intros _ H. rewrite <- (app_nil_r evs). now apply walletCovers_grows.
Qed.

Ltac shaped_step :=
  lazymatch goal with
  | |- Shaped _ (bind (withRetryDefault _ (call _ (GetBalance _))) _) =>
      apply shaped_balance; [assumption|]
  | |- Shaped _ (bind (bind _ _) _) => apply shaped_then; [|intros ?]
  | |- Shaped _ (bind _ _) =>
      apply shaped_bind; [apply walletCovers_after | emits | intros ?]
  | |- Shaped _ (throw _) => apply shaped_throw
  | |- Shaped _ (match ?x with _ => _ end) => destruct x
  | |- Emits _ _ => emits
  end.

(** On the SOL path every transaction function checks the balance first. *)
Lemma shaped_transactionFn (c : Component) (tokens lamports : Z)
    (fn : M unit) :
  useSolcial c = false ->
  TransactionFn' c tokens lamports fn ->
  Shaped (WalletCovers c lamports) fn.
Proof.
  pose proof (emits_sendDefault env bs58_encode JSON_stringify_logs) as Hsend.
  intros Hsol [];
    unfold createPostTransaction, createReplyTransaction, ratePostTransaction,
      rateReplyTransaction, reportTransaction, newTransaction, defined,
      toNumber;
    rewrite Hsol; cbv iota; repeat shaped_step.
Qed.

(** The wrapper keeps the order: what the transaction function builds or
    submits still comes after its evidence. *)
Lemma silently_only_after (Evidence : list Event -> Prop)
    (pda : option string) (fn : M unit) (w : World) (evs : list Event) :
  (forall pre evs post, Evidence evs -> Evidence (pre ++ evs ++ post)) ->
  Shaped Evidence fn ->
  trace (snd (executeTransactionSilently env pda fn w)) = trace w ++ evs ->
  OnlyAfter Evidence evs.
Proof.
  intros Hgrow Hfn Htrace pre e post Hsplit He.
  unfold executeTransactionSilently in Htrace.
  pose proof (emits_refreshLoop env pda 3 1) as Hrefresh.
  remember (refreshLoop env pda 3 1) as loop eqn:Eloop.
  unfold bind, tryCatch, setError, setLoading, ret in Htrace.
  simpl in Htrace.
  match type of Htrace with
  | context [fn ?w1] =>
      destruct (Hfn w1) as (evs1 & Ht1 & Hshape);
      destruct (fn w1) as [o w2]
  end.
  assert (exists evs2,
             evs = SetLoading true :: SetError None :: evs1 ++ evs2
             /\ Forall NoTransaction evs2) as (evs2 & -> & Hquiet2).
  { simpl in Ht1, Hshape.
    destruct o as [[]|err]; simpl in Htrace;
      destruct (Hrefresh w2) as (evs2 & Ht2 & Hn2 & _);
      destruct (loop w2) as [[[]|err'] w3]; simpl in *;
      rewrite ?Ht2, Ht1, <- !app_assoc in Htrace; simpl in Htrace;
      apply app_inv_head in Htrace; subst evs;
      eexists; (split; [reflexivity|]);
      try (apply Forall_app; split; [|repeat constructor]);
      revert Hn2; apply List.Forall_impl, refreshEvent_noTransaction. }
  simpl in Hshape.
  destruct Hshape as [[Hquiet1 _] | (before & after & -> & Hbefore & Hev)].
  - exfalso.
    apply (noTransaction_split
             (SetLoading true :: SetError None :: evs1 ++ evs2) pre post e);
      auto.
    repeat constructor. now apply Forall_app.
  - assert (Forall NoTransaction (SetLoading true :: SetError None :: before))
      as Hprefix by (repeat constructor; exact Hbefore).
    destruct (transaction_after_prefix
                (SetLoading true :: SetError None :: before) (after ++ evs2)
                pre post e Hprefix) as (pre' & ->); auto.
    { rewrite <- Hsplit. simpl. now rewrite <- !app_assoc. }
    apply (Hgrow [SetLoading true; SetError None] before pre'). exact Hev.
Qed.

(** X10. Paying in SOL: in [createPost], [createReply], [ratePost],
    [rateReply], [reportPost] and [reportReply], whatever builds an
    instruction or submits a transaction comes after a request for the
    balance of the connected wallet whose answer covers the fee of the
    action. *)
Theorem sol_fee_guard (c : Component) (tokens lamports : Z)
    (action : M unit) (w : World) (evs : list Event) :
  Paid' c tokens lamports action ->
  useSolcial c = false ->
  trace (snd (action w)) = trace w ++ evs ->
  OnlyAfter (WalletCovers c lamports) evs.
Proof.
  intros Hpaid Hsol Htrace.
  destruct (paid_cases env bs58_encode JSON_stringify_logs numberToString
                       _ _ _ _ Hpaid) as [[message ->] | (fn & Hfn & ->)].
  - intros pre e post Hsplit He. exfalso.
    destruct (emits_refuse env c message w) as (evs' & Htrace' & Hnone & _).
    rewrite Htrace in Htrace'. apply app_inv_head in Htrace'. subst evs'.
    eapply noTransaction_split; eauto.
  - eapply silently_only_after; eauto.
    + intros pre evs0 post. apply walletCovers_grows.
    + eapply shaped_transactionFn; eauto.
Qed.

Local Abbreviation rateReply' :=
  (rateReply env bs58_encode JSON_stringify_logs numberToString).

(** X11. A vote on a reply whose post is not among the loaded posts builds
    no instruction and submits nothing. *)
Theorem rateReply_needs_the_post (c : Component) (replyId : string)
    (isUpvote : bool) (w : World) (evs : list Event) :
  (forall reply post,
      In reply (replies c) -> r_id reply = replyId ->
      In post (posts c) -> p_postId post <> r_postId reply) ->
  trace (snd (rateReply' c replyId isUpvote w)) = trace w ++ evs ->
  Forall NoTransaction evs.
Proof.
  intros Horphan Htrace.
  assert (Emits NoTransaction (rateReply' c replyId isUpvote)) as Hemits.
  { unfold rateReply.
    destruct (publicKey c) as [pk|]; [|apply emits_refuse].
    destruct (forumPda c) as [pda|]; [|apply emits_refuse].
    destruct (findReply c replyId) as [reply|] eqn:Hfind;
      [|apply emits_refuse].
    apply find_some in Hfind as [Hin Hid]. apply String.eqb_eq in Hid.
    apply emits_silently; try (intros; split; reflexivity);
      [apply refreshEvent_noTransaction|].
    unfold rateReplyTransaction, findPostOf.
    rewrite find_nothing; [emits|].
    intros post Hpost. apply Z.eqb_neq. eauto. }
  destruct (Hemits w) as (evs' & Htrace' & Hnone & _).
  rewrite Htrace in Htrace'. apply app_inv_head in Htrace'. now subst.
Qed.

(** X12. A vote without a target is refused: [ratePost] and [rateReply] set
    an error, build no instruction and submit nothing when no wallet is
    connected, the forum address is not derived, or the post or reply is not
    among those loaded. *)
Theorem votes_need_a_target (c : Component) (action : M unit) (w : World) :
  VoteWithoutTarget env bs58_encode JSON_stringify_logs numberToString c
                    action ->
  Refused action w.
Proof.
  intros [postId isUpvote Hunconnected | postId isUpvote Hunknown
          | replyId isUpvote Hunconnected | replyId isUpvote Hunknown].
  - unfold ratePost.
    destruct (publicKey c), (forumPda c); try apply refuse_refused.
    destruct Hunconnected; discriminate.
  - unfold ratePost, findPost. rewrite find_nothing.
    + destruct (publicKey c), (forumPda c); apply refuse_refused.
    + intros post Hin. apply String.eqb_neq. auto.
  - unfold rateReply.
    destruct (publicKey c), (forumPda c); try apply refuse_refused.
    destruct Hunconnected; discriminate.
  - unfold rateReply, findReply. rewrite find_nothing.
    + destruct (publicKey c), (forumPda c); apply refuse_refused.
    + intros reply Hin. apply String.eqb_neq. auto.
Qed.

End Fees.

(** ** More on sendAndConfirmWithRetry *)

Section Sending.

Variable env : Env.
Variable bs58_encode : list Byte.byte -> string.
Variable JSON_stringify_logs : list string -> string.

Local Abbreviation attemptBody' :=
  (attemptBody env bs58_encode JSON_stringify_logs).
Local Abbreviation attemptCatch' :=
  (attemptCatch env bs58_encode JSON_stringify_logs).
Local Abbreviation sendLoop' := (sendLoop env bs58_encode JSON_stringify_logs).
Local Abbreviation sendAndConfirmWithRetry' :=
  (sendAndConfirmWithRetry env bs58_encode JSON_stringify_logs).
Local Abbreviation Reaches :=
  (ReachesAttempt env bs58_encode JSON_stringify_logs).

Lemma attempt_sends_once (attempt maxRetries : nat) (baseDelay : N)
    (w : World) :
  exists evs,
    trace (snd (attemptBody' attempt maxRetries baseDelay w)) = trace w ++ evs
    /\ sends evs <= 1.
Proof.
  destruct (attempt_shape env bs58_encode JSON_stringify_logs attempt
                          maxRetries baseDelay w)
    as (evs & Htrace & _ & Hshape).
  exists evs. split; [exact Htrace|].
  destruct Hshape as [Hnone | (pre & sim & s & post & -> & Hpre & Hpost
                               & Hsim & _)].
  - rewrite (sends_none _ Hnone). lia.
  - rewrite !sends_app, (sends_none _ Hpre).
    rewrite (sends_none [sim]);
      [|constructor; [now apply simulationCall_notSend | constructor]].
    change (Call SendAndConfirm s :: post)
      with ([Call SendAndConfirm s] ++ post).
    rewrite sends_app, (sends_none _ Hpost). unfold sends. simpl. lia.
Qed.

Lemma sendLoop_sends (maxRetries : nat) (baseDelay : N)
    (remaining attempt : nat) (w : World) :
  exists evs,
    trace (snd (sendLoop' maxRetries baseDelay remaining attempt w))
    = trace w ++ evs
    /\ sends evs <= remaining.
Proof.
  revert attempt w.
  induction remaining as [|remaining IH]; intros attempt w; simpl.
  - exists []. now rewrite app_nil_r.
  - unfold bind.
    destruct (attempt_sends_once attempt maxRetries baseDelay w)
      as (evs1 & Ht1 & Hs1).
    destruct (attemptBody' attempt maxRetries baseDelay w) as [[[|s]|e] w1];
      simpl in *.
    + destruct (IH (S attempt) w1) as (evs2 & Ht2 & Hs2).
      exists (evs1 ++ evs2). rewrite Ht2, Ht1, app_assoc, sends_app.
      split; [reflexivity | lia].
    + exists evs1. split; [exact Ht1 | lia].
    + exists evs1. split; [exact Ht1 | lia].
Qed.

(** X13. Whatever the node and the wallet answer, one call of
    [sendAndConfirmWithRetry] submits the transaction at most [maxRetries]
    times. *)
Theorem sendAndConfirmWithRetry_sends_at_most_maxRetries
    (maxRetries : nat) (baseDelay : N) (w : World) :
  exists evs,
    trace (snd (sendAndConfirmWithRetry' maxRetries baseDelay w))
    = trace w ++ evs
    /\ sends evs <= maxRetries.
Proof.
  unfold sendAndConfirmWithRetry, bind. simpl.
  apply (sendLoop_sends maxRetries baseDelay maxRetries 1
                        (snd (setFinalSignature None w))).
Qed.

(** X14. An error that no branch of the handler is for ends the call at
    once: it is rethrown unchanged from the attempt it occurred in, and no
    further attempt is made.  The wallet's refusal to sign is such an
    error. *)
Theorem unclassified_error_ends_the_call
    (maxRetries : nat) (baseDelay : N) (attempt : nat) (w0 w w1 : World)
    (err : Error) :
  Reaches maxRetries baseDelay attempt w0 w ->
  attempt <= maxRetries ->
  attemptTry env attempt maxRetries w = (Throw err, w1) ->
  Unclassified err ->
  sendAndConfirmWithRetry' maxRetries baseDelay w0 = (Throw err, w1).
Proof.
  intros Hreach Hle Htry (Hia & Hrpc & Hap & Hbh & Hname).
  rewrite (reaches_loop _ _ _ _ _ _ _ _ Hreach).
  replace (S maxRetries - attempt) with (S (maxRetries - attempt)) by lia.
  apply sendLoop_throw. unfold attemptBody.
  rewrite (tryCatch_throw _ _ _ _ _ Htry). unfold attemptCatch.
  unfold InvalidArguments, RpcConfirmationError, AlreadyProcessed,
    BlockhashExpiry in *.
  apply msgHas_false in Hia, Hap. rewrite Hia.
  assert (msgHas err "Invalid params: invalid type: map, expected a string"
          || msgHas err "WrongSize"
          || msgHas err "failed to get transaction" = false) as ->.
  { rewrite !orb_false_iff, !msgHas_false. tauto. }
  rewrite Hap.
  assert (msgHas err "Blockhash not found"
          || msgHas err "TransactionExpiredBlockheightExceededError" = false)
    as ->.
  { rewrite !orb_false_iff, !msgHas_false. tauto. }
  apply String.eqb_neq in Hname. now rewrite Hname.
Qed.

(** X15. Once the send has resolved to a truthy signature the call returns
    it, whatever the confirmation step finds: also when the status of the
    transaction reports an error, the 'Transaction failed' error is caught
    and the signature returned as for a success. *)
Theorem sent_signature_is_returned
    (maxRetries : nat) (baseDelay : N) (attempt : nat)
    (w0 w w1 w2 w3 : World) (signature : Signature)
    (outcome : Outcome unit) :
  Reaches maxRetries baseDelay attempt w0 w ->
  attempt <= maxRetries ->
  prepare env attempt maxRetries w = (Ret true, w1) ->
  call env SendAndConfirm w1 = (Ret signature, w2) ->
  sigTruthy signature = true ->
  confirmStep env signature (snd (setFinalSignature (Some signature) w2))
  = (outcome, w3) ->
  sendAndConfirmWithRetry' maxRetries baseDelay w0
  = (Ret (Some signature), w3).
Proof.
  intros Hreach Hle Hprep Hsend Htruthy Hconfirm.
  rewrite (reaches_loop _ _ _ _ _ _ _ _ Hreach).
  replace (S maxRetries - attempt) with (S (maxRetries - attempt)) by lia.
  apply sendLoop_return. unfold attemptBody. apply tryCatch_ret.
  unfold attemptTry. rewrite (bind_ret _ _ _ _ _ Hprep).
  unfold submit. rewrite (bind_ret _ _ _ _ _ Hsend).
  unfold bind at 1. simpl setFinalSignature.
  pose proof (keeps_confirmStep env signature
                (snd (setFinalSignature (Some signature) w2))) as Hkeep.
  rewrite Hconfirm in Hkeep. simpl in Hkeep.
  unfold confirm, bind, tryCatch. simpl in Hconfirm |- *. rewrite Hconfirm.
  destruct outcome as [[]|confirmErr]; [reflexivity|].
  unfold confirmCatch.
  destruct (msgHas confirmErr "WrongSize" || msgHas confirmErr "Invalid param"
            || msgHas confirmErr "failed to get transaction");
    [reflexivity|].
  unfold bind, getFinalSignature. simpl. rewrite Hkeep. simpl.
  now rewrite Htruthy.
Qed.

End Sending.

(** ** Polling the bridge *)

Lemma waited_app (l1 l2 : list Event) :
  waited (l1 ++ l2) = (waited l1 + waited l2)%N.
Proof.
  induction l1 as [|e l1 IH]; simpl; [reflexivity|].
  rewrite IH. destruct e; lia.
Qed.

Section Polling.

Variable env : Env.

Lemma pollForOrderIdFrom_bounded (txHash : string) (remaining : nat)
    (w : World) :
  exists result evs,
    pollForOrderIdFrom env txHash remaining w
    = (Ret result, snd (pollForOrderIdFrom env txHash remaining w))
    /\ trace (snd (pollForOrderIdFrom env txHash remaining w)) = trace w ++ evs
    /\ orderPolls evs <= remaining
    /\ (result = None ->
        orderPolls evs = remaining
        /\ waited evs = (5000 * N.of_nat remaining)%N)
    /\ (forall id, result = Some id ->
                   Js.truthy id = true
                   /\ exists poll, In poll evs /\ OrderPoll txHash id poll).
Proof.
  revert w. induction remaining as [|remaining IH]; intros w.
  - exists None, []. simpl. rewrite app_nil_r.
    repeat split; auto; discriminate.
  - cbn [pollForOrderIdFrom]. unfold bind, tryCatch, jsonOf. simpl.
    assert (forall r w1,
               w1 = emit (Sleep 5000 None)
                         (emit (Call (FetchOrderId txHash) r) w) ->
               exists result evs,
                 pollForOrderIdFrom env txHash remaining w1
                 = (Ret result,
                    snd (pollForOrderIdFrom env txHash remaining w1))
                 /\ trace (snd (pollForOrderIdFrom env txHash remaining w1))
                    = trace w ++ evs
                 /\ orderPolls evs <= S remaining
                 /\ (result = None ->
                     orderPolls evs = S remaining
                     /\ waited evs = (5000 * N.of_nat (S remaining))%N)
                 /\ (forall id, result = Some id ->
                                Js.truthy id = true
                                /\ exists poll,
                                     In poll evs /\ OrderPoll txHash id poll))
      as Hagain.
    { intros r w1 ->.
      destruct (IH (emit (Sleep 5000 None)
                         (emit (Call (FetchOrderId txHash) r) w)))
        as (result & evs & Hret & Ht & Hle & Hnone & Hsome).
      exists result,
             (Call (FetchOrderId txHash) r :: Sleep 5000 None :: evs).
      simpl in Ht. rewrite Ht, <- !app_assoc. simpl.
      split; [exact Hret|]. split; [reflexivity|].
      split; [unfold orderPolls in *; simpl; lia|]. split.
      - intros Hr. destruct (Hnone Hr) as [Hn Hw].
        split; [unfold orderPolls in *; simpl; lia|].
        rewrite Hw. lia.
      - intros id Hid. destruct (Hsome id Hid) as (Ht' & poll & Hin & Hpoll).
        split; [exact Ht'|]. exists poll. split; [|exact Hpoll].
        right. right. exact Hin. }
    destruct (answer env (FetchOrderId txHash) (trace w)) as [e|response]
      eqn:Hanswer; simpl.
    + apply (Hagain (inl e)). reflexivity.
    + destruct (resp_json response) as [e|[id|]] eqn:Hjson; simpl;
        try (apply (Hagain (inr response)); reflexivity).
      destruct (Js.truthy id) eqn:Htruthy; simpl;
        [|apply (Hagain (inr response)); reflexivity].
      exists (Some id), [Call (FetchOrderId txHash) (inr response)].
      repeat split; auto; try discriminate.
      * unfold orderPolls. simpl. lia.
      * congruence.
      * injection H as <-. eexists. split; [now left|].
        exists response. split; [reflexivity | exact Hjson].
Qed.

(** X16. [pollForOrderId] never throws and asks the bridge at most 24
    times; when it resolves to [null] it has asked exactly 24 times and
    waited two minutes in all, the time its caller then reports; an order
    id it resolves to is a non-empty one that a poll answered. *)
Theorem pollForOrderId_gives_up_after_two_minutes (txHash : string)
    (w : World) :
  exists result evs,
    pollForOrderId env txHash w
    = (Ret result, snd (pollForOrderId env txHash w))
    /\ trace (snd (pollForOrderId env txHash w)) = trace w ++ evs
    /\ orderPolls evs <= 24
    /\ (result = None -> orderPolls evs = 24 /\ waited evs = 120000%N)
    /\ (forall id, result = Some id ->
                   Js.truthy id = true
                   /\ exists poll, In poll evs /\ OrderPoll txHash id poll).
Proof. apply (pollForOrderIdFrom_bounded txHash 24 w). Qed.

Lemma settled_spec (status : option string) :
  isStatus status "Fulfilled" || isStatus status "Failed"
  || isStatus status "Expired" = true
  <-> Settled status.
Proof.
  unfold Settled, isStatus. destruct status as [s|].
  - rewrite !orb_true_iff, !String.eqb_eq. split.
    + intros [[H|H]|H]; subst; auto.
    + intros [H|[H|H]]; injection H as ->; auto.
  - split; [discriminate | intros [H|[H|H]]; discriminate].
Qed.

Lemma pollForFulfillmentFrom_bounded (orderId : string) (remaining : nat)
    (status : option string) (w : World) :
  exists final evs,
    pollForFulfillmentFrom env orderId status remaining w
    = (Ret final, snd (pollForFulfillmentFrom env orderId status remaining w))
    /\ trace (snd (pollForFulfillmentFrom env orderId status remaining w))
       = trace w ++ evs
    /\ statusPolls evs <= remaining
    /\ (~ Settled final ->
        statusPolls evs = remaining
        /\ waited evs = (10000 * N.of_nat remaining)%N).
Proof.
  revert status w. induction remaining as [|remaining IH]; intros status w.
  - exists status, []. simpl. rewrite app_nil_r. repeat split; auto.
  - cbn [pollForFulfillmentFrom].
    destruct (isStatus status "Fulfilled") eqn:Hdone.
    { exists status, []. simpl. rewrite app_nil_r.
      split; [reflexivity|]. split; [reflexivity|].
      split; [unfold statusPolls; simpl; lia|].
      intros Hnot. exfalso. apply Hnot, settled_spec. now rewrite Hdone. }
    unfold bind, tryCatch, jsonOf. simpl.
    assert (forall r status' w1,
               w1 = emit (Sleep 10000 None)
                         (emit (Call (FetchOrderStatus orderId) r) w) ->
               exists final evs,
                 pollForFulfillmentFrom env orderId status' remaining w1
                 = (Ret final,
                    snd (pollForFulfillmentFrom env orderId status' remaining
                                                w1))
                 /\ trace (snd (pollForFulfillmentFrom env orderId status'
                                                       remaining w1))
                    = trace w ++ evs
                 /\ statusPolls evs <= S remaining
                 /\ (~ Settled final ->
                     statusPolls evs = S remaining
                     /\ waited evs = (10000 * N.of_nat (S remaining))%N))
      as Hagain.
    { intros r status' w1 ->.
      destruct (IH status' (emit (Sleep 10000 None)
                                 (emit (Call (FetchOrderStatus orderId) r) w)))
        as (final & evs & Hret & Ht & Hle & Hnot).
      exists final,
             (Call (FetchOrderStatus orderId) r :: Sleep 10000 None :: evs).
      simpl in Ht. rewrite Ht, <- !app_assoc. simpl.
      split; [exact Hret|]. split; [reflexivity|].
      split; [unfold statusPolls in *; simpl; lia|].
      intros Hf. destruct (Hnot Hf) as [Hn Hw].
      split; [unfold statusPolls in *; simpl; lia|]. rewrite Hw. lia. }
    destruct (answer env (FetchOrderStatus orderId) (trace w))
      as [e|response] eqn:Hanswer; simpl.
    + apply (Hagain (inl e)). reflexivity.
    + destruct (resp_json response) as [e|status'] eqn:Hjson; simpl.
      * apply (Hagain (inr response)). reflexivity.
      * destruct (isStatus status' "Fulfilled") eqn:Hful; simpl.
        { exists status', [Call (FetchOrderStatus orderId) (inr response)].
          repeat split; auto; [unfold statusPolls; simpl; lia | |];
            exfalso; apply H, settled_spec; now rewrite Hful. }
        destruct (isStatus status' "Failed" || isStatus status' "Expired")
          eqn:Hend; simpl.
        { exists status', [Call (FetchOrderStatus orderId) (inr response)].
          repeat split; auto; [unfold statusPolls; simpl; lia | |];
            exfalso; apply H, settled_spec;
            now rewrite Hful, <- orb_assoc. }
        apply (Hagain (inr response)). reflexivity.
Qed.

(** X17. [pollForFulfillment] never throws and asks the bridge at most 60
    times; a status it resolves to that is none of 'Fulfilled', 'Failed'
    and 'Expired' means that it asked exactly 60 times and waited ten
    minutes in all. *)
Theorem pollForFulfillment_gives_up_after_ten_minutes (orderId : string)
    (w : World) :
  exists final evs,
    pollForFulfillment env orderId w
    = (Ret final, snd (pollForFulfillment env orderId w))
    /\ trace (snd (pollForFulfillment env orderId w)) = trace w ++ evs
    /\ statusPolls evs <= 60
    /\ (~ Settled final ->
        statusPolls evs = 60 /\ waited evs = 600000%N).
Proof. apply (pollForFulfillmentFrom_bounded orderId 60 (Some "Created") w). Qed.

End Polling.

(** ** The bridge flow as a whole *)

Section BridgeFlow.

Variable env : Env.
Variable bs58_encode : list Byte.byte -> string.
Variable JSON_stringify_logs : list string -> string.

Local Abbreviation handleBridgeAndPost' :=
  (handleBridgeAndPost env bs58_encode JSON_stringify_logs).

Lemma nothing_missing (c : Component) :
  missingParts c = []
  <-> exists pk,
        publicKey c = Some pk
        /\ evmProvider c
           && match evmAddress c with
              | Some a => Js.truthy a
              | None => false
              end
           && estimationInfo c
           && Js.truthy (Js.trim (bridgePostContent c)) = true.
Proof.
  unfold missingParts.
  destruct (publicKey c) as [pk|], (evmProvider c),
    (evmAddress c) as [[|a address]|], (estimationInfo c),
    (Js.truthy (Js.trim (bridgePostContent c))); simpl;
    split; try discriminate; try (intros (pk' & H & H'); discriminate);
    intros _; eauto.
Qed.

(** X18. [handleBridgeAndPost] never throws.  With an input missing it
    only sets the error that lists what is missing: no request is made and
    the loading flag is not touched.  With nothing missing it turns the
    loading flag on, clears the error, and ends with the loading flag off
    whatever happened in between. *)
Theorem handleBridgeAndPost_always_returns (c : Component) (w : World) :
  fst (handleBridgeAndPost' c w) = Ret tt
  /\ (missingParts c <> [] ->
      snd (handleBridgeAndPost' c w)
      = snd (setError (Some ("Missing: " ++ joinWith ", " (missingParts c))%string)
                      w))
  /\ (missingParts c = [] ->
      ui_loading (snd (handleBridgeAndPost' c w)) = false
      /\ exists evs,
           trace (snd (handleBridgeAndPost' c w))
           = trace w ++ SetLoading true :: SetError None :: evs).
Proof.
  pose proof (nothing_missing c) as Hguard.
  unfold handleBridgeAndPost.
  destruct (publicKey c) as [pk|].
  2:{ split; [reflexivity|]. split; [reflexivity|].
      intros H. apply Hguard in H as (pk & H & _). discriminate H. }
  destruct (evmProvider c
            && match evmAddress c with
               | Some a => Js.truthy a
               | None => false
               end
            && estimationInfo c
            && Js.truthy (Js.trim (bridgePostContent c))) eqn:Hall.
  2:{ split; [reflexivity|]. split; [reflexivity|].
      intros H. apply Hguard in H as (pk' & _ & H). discriminate H. }
  pose proof (shaped_bridgeAndPost env bs58_encode JSON_stringify_logs c pk)
    as Hbody.
  remember (bridgeAndPost env bs58_encode JSON_stringify_logs c pk) as body
    eqn:Ebody.
  unfold bind, tryFinally, tryCatch, setLoading, setError. simpl.
  match goal with
  | |- context [body ?w0] =>
      destruct (Hbody w0) as (evs1 & Ht1 & _);
      destruct (body w0) as [[[]|e] w1]
  end; simpl in *.
  - split; [reflexivity|]. split.
    + intros H. exfalso. apply H, Hguard. eauto.
    + intros _. split; [reflexivity|].
      rewrite Ht1, <- !app_assoc. simpl. eauto.
  - split; [reflexivity|]. split.
    + intros H. exfalso. apply H, Hguard. eauto.
    + intros _. split; [reflexivity|].
      rewrite Ht1, <- !app_assoc. simpl. eauto.
Qed.

End BridgeFlow.

(** ** Decoding the accounts *)

Lemma decodePost_safe (account : PostAccount) (w : World) :
  decodePost account w
  = (if safePost account then Ret (postOf account) else Throw unsafeNumber, w).
Proof.
  unfold decodePost, safePost, safeNumber, postOf, toNumber, bind, ret, throw.
  destruct (Z.abs (pa_rating account) <? 2 ^ 53)%Z; [|reflexivity].
  destruct (Z.abs (pa_timestamp account) <? 2 ^ 53)%Z; [|reflexivity].
  destruct (Z.abs (pa_id account) <? 2 ^ 53)%Z; [|reflexivity].
  destruct (Z.abs (pa_reportCount account) <? 2 ^ 53)%Z; reflexivity.
Qed.

(** X19. Decoding the post accounts is all or nothing: when every number
    of every account is below 2^53 in absolute value the posts are the
    accounts, one for one and in their order, each filed under the category
    of its content; a single account with a larger number makes the decoding
    of the whole list throw. *)
Theorem decodePosts_all_or_nothing (accounts : list PostAccount) (w : World) :
  mapM decodePost accounts w
  = (if forallb safePost accounts then Ret (List.map postOf accounts)
     else Throw unsafeNumber, w).
Proof.
  induction accounts as [|account accounts IH]; [reflexivity|].
  cbn [mapM forallb List.map]. unfold bind. rewrite decodePost_safe.
  destruct (safePost account); [|reflexivity].
  rewrite IH. now destruct (forallb safePost accounts).
Qed.

(** ** Events covered by evidence *)






(** ** initializeForum *)

Lemma isInitializer_spec (key : string) :
  isInitializer key = true <-> Privileged (Some key).
Proof.
  unfold isInitializer, initializers, Privileged.
  rewrite existsb_exists. split.
  - intros (k & Hin & Heq). apply String.eqb_eq in Heq. subst k.
    exists key. split; [reflexivity|].
    apply in_app_or in Hin as [Hin | [Hin | []]]; auto.
  - intros (k & [= ->] & H). exists k. split; [|apply String.eqb_refl].
    apply in_or_app. destruct H as [-> | Hin]; [right; now left | now left].
Qed.

Section Initialization.

Variable env : Env.
Variable bs58_encode : list Byte.byte -> string.
Variable JSON_stringify_logs : list string -> string.
Variable toFixed4 : Q -> string.
Variable getMinimumBalanceForRentExemption : N -> M Z.

Local Abbreviation initializeForum' :=
  (initializeForum env bs58_encode JSON_stringify_logs toFixed4
                   getMinimumBalanceForRentExemption).

(** X20. Only the admin and the moderators get to initialise the forum:
    for any other wallet, and without a wallet, [initializeForum] sets an
    error and does nothing else; no request is made and the loading flag is
    not touched. *)
Theorem initializeForum_is_gated (c : Component) (w : World) :
  ~ Privileged (publicKey c) ->
  exists message,
    initializeForum' c w = setError (Some message) w.
Proof.
  intros Hnot. unfold initializeForum.
  destruct (publicKey c) as [pk|]; [|eauto].
  destruct (forumPda c) as [pda|]; [|eauto].
  destruct (isInitializer pk) eqn:Hpk; [|simpl; eauto].
  apply isInitializer_spec in Hpk. contradiction.
Qed.

Hypothesis rent_is_a_query :
  forall size, Emits NoTransaction (getMinimumBalanceForRentExemption size).







End Initialization.

(** ** The loaders *)

(** A loader that stores what it loaded and clears the error, or reports
    the failure. *)
Lemma loader_outcome {X} (Stored : Event -> Prop) (load : M X)
    (store : X -> Event) (body : M unit) (handler : Error -> M unit)
    (w : World) :
  Emits (Loading Stored) load ->
  (forall e, Stored e -> NotUi e) ->
  (forall x, Stored (store x) /\ NoTransaction (store x)) ->
  (forall w', body w'
              = (let! x := load in log (store x) ;;; setError None)%js w') ->
  (forall err w', exists message,
                    handler err w' = setError (Some message) w') ->
  exists evs,
    fst ((setLoading true ;;;
          tryFinally (tryCatch body handler) (setLoading false))%js w)
    = Ret tt
    /\ trace (snd ((setLoading true ;;;
                    tryFinally (tryCatch body handler) (setLoading false))%js
                     w))
       = trace w ++ evs
    /\ Forall NoTransaction evs
    /\ ui_loading (snd ((setLoading true ;;;
                         tryFinally (tryCatch body handler)
                                    (setLoading false))%js w))
       = false
    /\ (ui_error (snd ((setLoading true ;;;
                        tryFinally (tryCatch body handler)
                                   (setLoading false))%js w))
        = None
        <-> Exists Stored evs).
Proof.
  intros Hload Hui Hstore Hbody Hhandler.
  unfold bind, tryFinally, tryCatch. simpl. rewrite Hbody. unfold bind.
  match goal with
  | |- context [load ?w0] =>
      destruct (Hload w0) as (evs1 & Ht1 & Hl1 & _);
      destruct (load w0) as [[x|err] w1]
  end; simpl in Ht1 |- *.
  - exists (SetLoading true :: evs1 ++ [store x; SetError None;
                                        SetLoading false]).
    rewrite Ht1, <- !app_assoc. simpl.
    split; [reflexivity|]. split; [reflexivity|]. split.
    { constructor; [split; reflexivity|]. apply Forall_app. split.
      - revert Hl1. apply List.Forall_impl. now intros e [H _].
      - constructor; [apply Hstore|]. repeat constructor. }
    split; [reflexivity|]. split; [intros _ | reflexivity].
    apply Exists_cons_tl, Exists_app. right. apply Exists_cons_hd, Hstore.
  - destruct (Hhandler err w1) as (message & ->).
    exists (SetLoading true :: evs1 ++ [SetError (Some message);
                                        SetLoading false]).
    simpl. rewrite Ht1, <- !app_assoc. simpl.
    split; [reflexivity|]. split; [reflexivity|]. split.
    { constructor; [split; reflexivity|]. apply Forall_app. split.
      - revert Hl1. apply List.Forall_impl. now intros e [H _].
      - repeat constructor. }
    split; [reflexivity|]. split; [discriminate|].
    intros Hex. exfalso. apply List.Exists_exists in Hex as (e & Hin & He).
    destruct Hin as [<- | Hin]; [now apply Hui in He|].
    apply in_app_or in Hin as [Hin | [<- | [<- | []]]];
      try (now apply Hui in He).
    rewrite List.Forall_forall in Hl1. now apply Hl1 in Hin as (_ & _ & Hnot).
Qed.

Ltac reassociate :=
  unfold bind;
  repeat match goal with
         | |- context [match ?x with _ => _ end] =>
             destruct x as [[?|?] ?]; try reflexivity
         end.

Ltac loading_fact :=
  intros; split; [split; reflexivity|];
  split; [exact I | intros [? Heq]; discriminate Heq].

Section Loaded.

Variable env : Env.

(** X22. Each loader of the data-fetching effect ([fetchForum],
    [fetchPosts], [fetchReplies], [fetchReports]) always returns, with the
    loading flag off and without building or submitting anything, and it
    leaves the error cleared exactly when it stored its data. *)
Theorem loaders_report_failures (loader : M unit) (Stored : Event -> Prop)
    (w : World) :
  Loader env loader Stored ->
  exists evs,
    fst (loader w) = Ret tt
    /\ trace (snd (loader w)) = trace w ++ evs
    /\ Forall NoTransaction evs
    /\ ui_loading (snd (loader w)) = false
    /\ (ui_error (snd (loader w)) = None <-> Exists Stored evs).
Proof.
  intros [ | | | ].
  - unfold fetchForum.
    apply (loader_outcome _
             (let! fetched := withRetryDefault env (call env FetchForum) in
              let! forumData := defined "admin" fetched in
              decodeForum forumData)%js
             (fun forum => SetForum (Some forum))).
    + assert (forall r, Loading (fun e => exists forum, e = SetForum (Some forum))
                                (Call FetchForum r)) as Hcall by loading_fact.
      assert (forall ms jitter,
                 Loading (fun e => exists forum, e = SetForum (Some forum))
                         (Sleep ms jitter)) as Hsleep by loading_fact.
      unfold decodeForum, defined, toNumber. emits.
    + now intros e [forum ->].
    + intros forum. split; [eauto | split; reflexivity].
    + intros w'. reassociate.
    + intros err w'. destruct (msgHas err "Account does not exist"); eauto.
  - unfold fetchPosts.
    apply (loader_outcome _
             (let! fetched := withRetryDefault env (call env PostAll) in
              let! postAccounts := defined "map" fetched in
              mapM decodePost postAccounts)%js
             (fun posts => SetPosts posts)).
    + assert (forall r, Loading (fun e => exists posts, e = SetPosts posts)
                                (Call PostAll r)) as Hcall by loading_fact.
      assert (forall ms jitter,
                 Loading (fun e => exists posts, e = SetPosts posts)
                         (Sleep ms jitter)) as Hsleep by loading_fact.
      unfold decodePost, defined, toNumber. emits.
    + now intros e [posts ->].
    + intros posts. split; [eauto | split; reflexivity].
    + intros w'. reassociate.
    + intros err w'. eauto.
  - unfold fetchReplies.
    apply (loader_outcome _
             (let! fetched := withRetryDefault env (call env ReplyAll) in
              let! replyAccounts := defined "map" fetched in
              mapM decodeReply replyAccounts)%js
             (fun replies => SetReplies replies)).
    + assert (forall r, Loading (fun e => exists replies, e = SetReplies replies)
                                (Call ReplyAll r)) as Hcall by loading_fact.
      assert (forall ms jitter,
                 Loading (fun e => exists replies, e = SetReplies replies)
                         (Sleep ms jitter)) as Hsleep by loading_fact.
      unfold decodeReply, defined, toNumber. emits.
    + now intros e [replies ->].
    + intros replies. split; [eauto | split; reflexivity].
    + intros w'. reassociate.
    + intros err w'. eauto.
  - unfold fetchReports.
    apply (loader_outcome _
             (let! fetchedPostReports :=
                withRetryDefault env (call env PostReportAll) in
              let! postReportAccounts := defined "map" fetchedPostReports in
              let! postReports := mapM decodeReport postReportAccounts in
              log (SetPostReports postReports) ;;;
              let! fetchedReplyReports :=
                withRetryDefault env (call env ReplyReportAll) in
              let! replyReportAccounts := defined "map" fetchedReplyReports in
              mapM decodeReport replyReportAccounts)%js
             (fun reports => SetReplyReports reports)).
    + assert (forall r,
                 Loading (fun e => exists reports, e = SetReplyReports reports)
                         (Call PostReportAll r)) as Hcall by loading_fact.
      assert (forall r,
                 Loading (fun e => exists reports, e = SetReplyReports reports)
                         (Call ReplyReportAll r)) as Hcall' by loading_fact.
      assert (forall ms jitter,
                 Loading (fun e => exists reports, e = SetReplyReports reports)
                         (Sleep ms jitter)) as Hsleep by loading_fact.
      assert (forall reports',
                 Loading (fun e => exists reports, e = SetReplyReports reports)
                         (SetPostReports reports')) as Hset by loading_fact.
      unfold decodeReport, defined, toNumber. emits.
    + now intros e [reports ->].
    + intros reports. split; [eauto | split; reflexivity].
    + intros w'. reassociate.
    + intros err w'. eauto.
Qed.

End Loaded.

(** ** Prices *)

Section PriceOracle.

Variable fetchPrice : string -> M (HttpResponse (option Q)).

(** X23. [getPrice] asks CoinGecko first and returns its price without
    asking anyone else; it fails only with 'Failed to get price from both
    CoinGecko and Binance'; and for an asset without a Binance symbol a
    failure of CoinGecko is final, with no second request. *)
Theorem getPrice_falls_back_once (id : string) (w : World) :
  (forall res w1 price,
      fetchPrice (coinGeckoUrl id) w = (Ret res, w1) ->
      resp_ok res = true -> resp_json res = inr price ->
      getPrice fetchPrice id w = (Ret price, w1))
  /\ (forall err w1,
         getPrice fetchPrice id w = (Throw err, w1) -> err = noPrice)
  /\ (binanceSymbol id = None ->
      forall price,
        fst (getPrice fetchPrice id w) = Ret price ->
        exists res,
          fst (fetchPrice (coinGeckoUrl id) w) = Ret res
          /\ resp_json res = inr price)
  /\ (binanceSymbol id = None ->
      snd (getPrice fetchPrice id w) = snd (fetchPrice (coinGeckoUrl id) w)).
Proof.
  unfold getPrice, tryCatch, bind, jsonOf, throw.
  destruct (fetchPrice (coinGeckoUrl id) w) as [[res|e] w1] eqn:Hfirst.
  - destruct (resp_ok res) eqn:Hok; simpl.
    + destruct (resp_json res) as [e|price] eqn:Hjson; simpl.
      * repeat split.
        -- intros res' w1' price' [= <- <-] _ H. congruence.
        -- destruct (binanceSymbol id) as [symbol|]; simpl;
             [|now intros err w2 [= <- _]].
           destruct (fetchPrice (binanceUrl symbol) w1) as [[res2|e2] w2];
             [|now intros err w3 [= <- _]].
           destruct (resp_ok res2); simpl; [|now intros err w3 [= <- _]].
           destruct (resp_json res2); simpl;
             [now intros err w3 [= <- _] | discriminate].
        -- intros ->. simpl. discriminate.
        -- now intros ->.
      * repeat split.
        -- intros res' w1' price' [= <- <-] _ H. congruence.
        -- discriminate.
        -- intros _ price' [= <-]. eauto.
    + repeat split.
      * intros res' w1' price' [= <- <-] H. congruence.
      * destruct (binanceSymbol id) as [symbol|]; simpl;
          [|now intros err w2 [= <- _]].
        destruct (fetchPrice (binanceUrl symbol) w1) as [[res2|e2] w2];
          [|now intros err w3 [= <- _]].
        destruct (resp_ok res2); simpl; [|now intros err w3 [= <- _]].
        destruct (resp_json res2); simpl;
          [now intros err w3 [= <- _] | discriminate].
      * intros ->. simpl. discriminate.
      * now intros ->.
  - repeat split.
    + discriminate.
    + destruct (binanceSymbol id) as [symbol|]; simpl;
        [|now intros err w2 [= <- _]].
      destruct (fetchPrice (binanceUrl symbol) w1) as [[res2|e2] w2];
        [|now intros err w3 [= <- _]].
      destruct (resp_ok res2); simpl; [|now intros err w3 [= <- _]].
      destruct (resp_json res2); simpl;
        [now intros err w3 [= <- _] | discriminate].
    + intros ->. simpl. discriminate.
    + now intros ->.
Qed.

End PriceOracle.

(** ** The last attempt *)

Section LastAttempt.

Variable env : Env.


End LastAttempt.

(** ** The further properties on concrete runs *)

(** A list with one starred post, written and read back. *)
Lemma starred_posts_survive_reload_witness :
  loadStarred Scenario.parseIds (Some "wallet-1")
              (saveStarred Scenario.stringifyIds (Some "wallet-1") ["post-1"]
                           ∅)
              []
  = inr ["post-1"]
  /\ forall other,
       other <> "wallet-1" ->
       saveStarred Scenario.stringifyIds (Some "wallet-1") ["post-1"] ∅
         !! starredKey other
       = (∅ : gmap string string) !! starredKey other.
Proof.
  apply (starred_posts_survive_reload Scenario.stringifyIds Scenario.parseIds
           "wallet-1" ["post-1"] ∅ []).
  - discriminate.
  - reflexivity.
  - reflexivity.
Defined.

(** A moderator closes the forum with the node unreachable: refused, and
    no error is left. *)
Lemma actions_end_without_error_witness :
  fst (closeForum Sample.offline Sample.noEncoding Sample.noLogs
                  Sample.moderator Sample.start) = Ret tt
  /\ ui_error (snd (closeForum Sample.offline Sample.noEncoding Sample.noLogs
                               Sample.moderator Sample.start)) = None
  /\ ui_loading (snd (closeForum Sample.offline Sample.noEncoding
                                 Sample.noLogs Sample.moderator Sample.start))
     = false.
Proof.
  apply (actions_end_without_error Sample.offline Sample.noEncoding
           Sample.noLogs Sample.noNumber Sample.moderator).
  apply action_closeForum.
Defined.

(** A vote paid in SOLCIAL by a wallet that holds ten tokens. *)
Lemma solcial_fee_guard_witness :
  Forall NoTransaction
    (trace (snd (ratePost Sample.happy Sample.noEncoding Sample.noLogs
                          Sample.noNumber Scenario.tokenPayer "post-1" true
                          Sample.start))).
Proof.
  apply (solcial_fee_guard Sample.happy Sample.noEncoding Sample.noLogs
           Sample.noNumber Scenario.tokenPayer SOLCIAL_VOTE_FEE
           VOTE_FEE_LAMPORTS
           (ratePost Sample.happy Sample.noEncoding Sample.noLogs
                     Sample.noNumber Scenario.tokenPayer "post-1" true)
           Sample.start).
  - apply paid_ratePost.
  - reflexivity.
  - vm_compute. reflexivity.
  - reflexivity.
Defined.

(** A post paid in SOL by a wallet that holds twice the fee. *)
Lemma sol_fee_guard_witness :
  OnlyAfter (WalletCovers Sample.visitor POST_FEE_LAMPORTS)
    (trace (snd (createPost Sample.happy Sample.noEncoding Sample.noLogs
                            Sample.noNumber Sample.visitor Sample.start))).
Proof.
  apply (sol_fee_guard Sample.happy Sample.noEncoding Sample.noLogs
           Sample.noNumber Sample.visitor SOLCIAL_POST_FEE POST_FEE_LAMPORTS
           (createPost Sample.happy Sample.noEncoding Sample.noLogs
                       Sample.noNumber Sample.visitor)
           Sample.start).
  - apply paid_createPost.
  - reflexivity.
  - reflexivity.
Defined.

(** A vote on a reply whose post is not loaded. *)
Lemma rateReply_needs_the_post_witness :
  Forall NoTransaction
    (trace (snd (rateReply Sample.happy Sample.noEncoding Sample.noLogs
                           Sample.noNumber Scenario.withStrayReply "reply-1"
                           false Sample.start))).
Proof.
  apply (rateReply_needs_the_post Sample.happy Sample.noEncoding Sample.noLogs
           Sample.noNumber Scenario.withStrayReply "reply-1" false
           Sample.start).
  - intros reply post [<- | []] _ [<- | []]. discriminate.
  - reflexivity.
Defined.

(** A vote on a post that is not loaded. *)
Lemma votes_need_a_target_witness :
  Refused (ratePost Sample.happy Sample.noEncoding Sample.noLogs
                    Sample.noNumber Sample.visitor "post-9" true)
          Sample.start.
Proof.
  apply (votes_need_a_target Sample.happy Sample.noEncoding Sample.noLogs
           Sample.noNumber Sample.visitor).
  apply vote_post_unknown. intros post [<- | []]. discriminate.
Defined.

(** The user declines to sign: the call ends with the wallet's error on
    the first attempt. *)
Lemma unclassified_error_ends_the_call_witness :
  fst (sendAndConfirmWithRetry
         (Sample.rejecting (newError "User rejected the request."))
         Sample.noEncoding Sample.noLogs 5 1000 Sample.start)
  = Throw (newError "User rejected the request.").
Proof.
  eassert (attemptTry (Sample.rejecting (newError "User rejected the request."))
                      1 5 (snd (setFinalSignature None Sample.start))
           = (Throw _, _)) as Htry by run.
  rewrite (unclassified_error_ends_the_call
             _ Sample.noEncoding Sample.noLogs 5 1000 1 _ _ _ _
             (reaches_first _ _ _ _ _ _) ltac:(lia) Htry).
  - reflexivity.
  - split; [lacks_text | split; [lacks_text | split; [lacks_text | split]]].
    + intros [Hexp | Hexp]; apply includes_spec in Hexp; vm_compute in Hexp;
        discriminate Hexp.
    + discriminate.
Defined.

(** The transaction lands and fails on chain: the call returns its
    signature. *)
Lemma sent_signature_is_returned_witness :
  fst (sendAndConfirmWithRetry Scenario.failedOnChain Sample.noEncoding
                               Sample.noLogs 5 1000 Sample.start)
  = Ret (Some (SigString "5igNature")).
Proof.
  eassert (prepare Scenario.failedOnChain 1 5
                   (snd (setFinalSignature None Sample.start))
           = (Ret true, _)) as Hprep by run.
  match type of Hprep with
  | _ = (_, ?w1) =>
      eassert (call Scenario.failedOnChain SendAndConfirm w1 = (Ret _, _))
        as Hsend by run
  end.
  match type of Hsend with
  | _ = (Ret ?s, ?w2) =>
      eassert (confirmStep Scenario.failedOnChain s
                           (snd (setFinalSignature (Some s) w2))
               = (Throw _, _)) as Hconfirm by run
  end.
  rewrite (sent_signature_is_returned
             _ Sample.noEncoding Sample.noLogs 5 1000 1 _ _ _ _ _ _ _
             (reaches_first _ _ _ _ _ _) ltac:(lia) Hprep Hsend eq_refl
             Hconfirm).
  reflexivity.
Defined.

(** A visitor tries to initialise the forum. *)
Lemma initializeForum_is_gated_witness :
  exists message,
    initializeForum Sample.happy Sample.noEncoding Sample.noLogs
                    Scenario.fourDecimals Scenario.rent Sample.visitor
                    Sample.start
    = setError (Some message) Sample.start.
Proof.
  apply (initializeForum_is_gated Sample.happy Sample.noEncoding Sample.noLogs
           Scenario.fourDecimals Scenario.rent Sample.visitor Sample.start).
  intros (key & [= <-] & [H | H]); [discriminate H|].
  apply isModerator_spec in H. discriminate H.
Defined.


(** The posts are loaded with the node unreachable. *)
Lemma loaders_report_failures_witness :
  exists evs,
    fst (fetchPosts Sample.offline Sample.start) = Ret tt
    /\ trace (snd (fetchPosts Sample.offline Sample.start))
       = trace Sample.start ++ evs
    /\ Forall NoTransaction evs
    /\ ui_loading (snd (fetchPosts Sample.offline Sample.start)) = false
    /\ (ui_error (snd (fetchPosts Sample.offline Sample.start)) = None
        <-> Exists (fun e => exists posts, e = SetPosts posts) evs).
Proof.
  apply (loaders_report_failures Sample.offline _ _ Sample.start
                                 (loader_posts Sample.offline)).
Defined.
